(** * sqliteexporter: the span normalizer and the relational persister

    A shallow embedding of [internal/transform/span.go] (the normalizer,
    [Spans]) and of the exporter in [config.go] (the persister,
    [ConsumeTraces]), with the properties of the specification stated
    over them.

    Conventions.
    - A Go [string] and a [[]byte] holding text are a Rocq [string]: a
      sequence of 8-bit characters, i.e. of bytes.
    - Trace and span identifiers ([[16]byte], [[8]byte]) are [list byte].
    - Fixed-width integers are [Z] with the wrap-around written out
      ([wrap64], [int64], [uint32], [int32]).
    - A [time.Time] is its Unix time in nanoseconds (what [UnixNano]
      returns); a [time.Duration] is its count of nanoseconds.
    - A [float64] is its IEEE-754 bit pattern ([math.Float64bits]); the
      decimal renderings of floats are left to the Go library and enter
      as section variables. *)

From Stdlib Require Import ZArith List String Ascii Bool Lia.
From Stdlib Require Import Sorting.Sorted.
From Stdlib Require Import DecimalString OrderedTypeEx.
From stdpp Require Import base option list gmap strings.

Local Open Scope string_scope.
Local Open Scope list_scope.
Local Open Scope Z_scope.

(* ===================================================================== *)
(** * Go values                                                            *)
(* ===================================================================== *)

Definition wrap64 (z : Z) : Z := z mod 2 ^ 64.

(** [int64(u)]: the two's complement reading of a 64-bit pattern. *)
Definition int64 (z : Z) : Z :=
  let u := wrap64 z in if u <? 2 ^ 63 then u else u - 2 ^ 64.

(** [uint32(n)], [uint64(n)] and [int32(n)] conversions. *)
Definition uint32 (z : Z) : Z := z mod 2 ^ 32.
Definition uint64 (z : Z) : Z := wrap64 z.
Definition int32 (z : Z) : Z :=
  let u := z mod 2 ^ 32 in if u <? 2 ^ 31 then u else u - 2 ^ 32.

Definition byteZ (c : ascii) : Z := Z.of_N (N_of_ascii c).

Definition backslash : ascii := "092"%char.
Definition dquote : ascii := "034"%char.

(** The text [s] between two double quotes. *)
Definition quoted (s : string) : string :=
  String dquote (s +:+ String dquote EmptyString).

(** [strconv.FormatInt(z, 10)]. *)
Definition FormatInt (z : Z) : string := NilZero.string_of_int (Z.to_int z).

(** [strconv.FormatBool]. *)
Definition FormatBool (b : bool) : string := if b then "true" else "false".

(** The outcome of a Go call that may panic. *)
Inductive Result (A : Type) : Type :=
| Returned (a : A)
| Panic (msg : string).
Arguments Returned {A} a.
Arguments Panic {A} msg.

(* ===================================================================== *)
(** * unicode/utf8: decoding the rune at the head of a string              *)
(* ===================================================================== *)

Module utf8.

Definition byteAt (s : string) (n : nat) : option Z := byteZ <$> String.get n s.

Definition within (lo hi : Z) (o : option Z) : bool :=
  match o with Some b => (lo <=? b) && (b <=? hi) | None => false end.

(** The size of the UTF-8 encoding at the head of [s] when it is valid
    ([utf8.DecodeRuneInString]), and 0 when it is not (the decoder
    returns [RuneError] with size 1). [s] starts with a byte above 0x7F. *)
Definition runeSize (s : string) : nat :=
  let b0 := byteAt s 0 in
  let c1 lo hi := within lo hi (byteAt s 1) in
  let cn n := within 0x80 0xBF (byteAt s n) in
  let size (ok : bool) (n : nat) : nat := if ok then n else O in
  if within 0xC2 0xDF b0 then size (c1 0x80 0xBF) 2%nat
  else if within 0xE0 0xE0 b0 then size (c1 0xA0 0xBF && cn 2%nat) 3%nat
  else if within 0xED 0xED b0 then size (c1 0x80 0x9F && cn 2%nat) 3%nat
  else if within 0xE1 0xEF b0 then size (c1 0x80 0xBF && cn 2%nat) 3%nat
  else if within 0xF0 0xF0 b0 then size (c1 0x90 0xBF && cn 2%nat && cn 3%nat) 4%nat
  else if within 0xF4 0xF4 b0 then size (c1 0x80 0x8F && cn 2%nat && cn 3%nat) 4%nat
  else if within 0xF1 0xF3 b0 then size (c1 0x80 0xBF && cn 2%nat && cn 3%nat) 4%nat
  else O.

(** The encoding of U+FFFD, which [WriteRune] writes for [RuneError]. *)
Definition RuneError : string :=
  String "239"%char (String "191"%char (String "189"%char EmptyString)).

End utf8.

(* ===================================================================== *)
(** * hash/fnv: the 64-bit FNV-1a hash                                     *)
(* ===================================================================== *)

Module fnv.

Definition offset64 : Z := 14695981039346656037.
Definition prime64 : Z := 1099511628211.

(** [New64a()]. *)
Definition New64a : Z := offset64.

(** [h.Write(data)] of [sum64a]: for each byte, xor then multiply. *)
Fixpoint Write (h : Z) (data : string) : Z :=
  match data with
  | EmptyString => h
  | String c rest => Write (wrap64 (Z.lxor h (byteZ c) * prime64)) rest
  end.

Definition Sum64 (h : Z) : Z := h.

End fnv.

(* ===================================================================== *)
(** * go.opentelemetry.io/otel: the SDK's read-only span                   *)
(* ===================================================================== *)

Module attribute.

(** [attribute.Value], by its [Type()]. *)
Inductive Value : Type :=
| INVALID
| BOOL (b : bool)
| INT64 (i : Z)
| FLOAT64 (bits : Z)
| STRING (s : string)
| BOOLSLICE (l : list bool)
| INT64SLICE (l : list Z)
| FLOAT64SLICE (l : list Z)
| STRINGSLICE (l : list string).

Record KeyValue : Type := { Key : string; Val : Value }.

End attribute.

Module codes.
(** [codes.Code] is a [uint32]; the three named values. *)
Definition Unset : Z := 0.
Definition Error : Z := 1.
Definition Ok : Z := 2.
End codes.

Module instrumentation.
Record Scope : Type := { Name : string; Version : string; SchemaURL : string }.
End instrumentation.

Module sdktrace.

(** The parts of a [trace.SpanContext] the normalizer reads; [TraceState]
    holds [TraceState().String()]. *)
Record SpanContext : Type :=
  { TraceID : list Byte.byte; SpanID : list Byte.byte; TraceState : string }.

Record Event : Type :=
  { EventName : string;
    EventAttributes : list attribute.KeyValue;
    EventDroppedAttributeCount : Z;
    EventTime : Z }.

Record Link : Type :=
  { LinkSpanContext : SpanContext;
    LinkAttributes : list attribute.KeyValue;
    LinkDroppedAttributeCount : Z }.

Record Status : Type := { Code : Z; Description : string }.

(** A [sdktrace.ReadOnlySpan], by the methods the normalizer calls.
    [Resource] is the attribute list of the span's [*resource.Resource]
    (a nil resource has the empty list and the empty encoding). *)
Record ReadOnlySpan : Type :=
  { Name : string;
    Context : SpanContext;
    Parent : SpanContext;
    SpanKind : Z;
    StartTime : Z;
    EndTime : Z;
    Attributes : list attribute.KeyValue;
    Links : list Link;
    Events : list Event;
    SpanStatus : Status;
    InstrumentationScope : instrumentation.Scope;
    Resource : list attribute.KeyValue;
    DroppedAttributes : Z;
    DroppedLinks : Z;
    DroppedEvents : Z }.

End sdktrace.

(* ===================================================================== *)
(** * go.opentelemetry.io/collector/pdata                                  *)
(* ===================================================================== *)

Module pcommon.

(** [pcommon.Value], by its [Type()]. A [Map] is a slice of key/value
    entries, kept in the order in which the keys were first put. *)
#[local] Set Warnings "-register-all".
Inductive Value : Type :=
| ValueEmpty
| ValueStr (s : string)
| ValueInt (i : Z)
| ValueDouble (bits : Z)
| ValueBool (b : bool)
| ValueMap (m : list (string * Value))
| ValueSlice (l : list Value)
| ValueBytes (bs : string).

Abbreviation Map := (list (string * Value)).

Definition NewMap : Map := [].

(** [m.Get(k)]: the first entry with key [k]. *)
Fixpoint Get (m : Map) (k : string) : option Value :=
  match m with
  | [] => None
  | (k', v) :: m' => if String.eqb k' k then Some v else Get m' k
  end.

(** [m.PutStr(k, _)], [m.PutInt(k, _)], ...: the value of an existing key
    is replaced where it stands, a new key is appended. *)
Fixpoint Put (m : Map) (k : string) (v : Value) : Map :=
  match m with
  | [] => [(k, v)]
  | (k', v') :: m' =>
      if String.eqb k' k then (k', v) :: m' else (k', v') :: Put m' k v
  end.

(** [v.Str()]: the empty string unless [v] is a string value. *)
Definition Str (v : Value) : string :=
  match v with ValueStr s => s | _ => EmptyString end.

(** [NewTimestampFromTime(t)] is [Timestamp(uint64(t.UnixNano()))]. *)
Definition NewTimestampFromTime (t : Z) : Z := uint64 t.

(** [ts.AsTime()] is [time.Unix(0, int64(ts)).UTC()]. *)
Definition AsTime (ts : Z) : Z := int64 ts.

(** [id.IsEmpty()] of a [SpanID]: all bytes are zero. *)
Definition IsEmpty (id : list Byte.byte) : bool :=
  forallb (fun b => Byte.eqb b Byte.x00) id.

End pcommon.

Module ptrace.

(** [ptrace.StatusCode] (an [int32]). *)
Definition StatusCodeUnset : Z := 0.
Definition StatusCodeOk : Z := 1.
Definition StatusCodeError : Z := 2.

(** [ptrace.SpanKind] (an [int32]). *)
Definition SpanKindUnspecified : Z := 0.
Definition SpanKindInternal : Z := 1.
Definition SpanKindServer : Z := 2.
Definition SpanKindClient : Z := 3.
Definition SpanKindProducer : Z := 4.
Definition SpanKindConsumer : Z := 5.

(** [sk.String()] of [ptrace.SpanKind] (pdata, [ptrace/span_kind.go]):
    the capitalised short name, and the empty string for any other
    value. *)
Definition SpanKindString (sk : Z) : string :=
  if sk =? SpanKindUnspecified then "Unspecified"
  else if sk =? SpanKindInternal then "Internal"
  else if sk =? SpanKindServer then "Server"
  else if sk =? SpanKindClient then "Client"
  else if sk =? SpanKindProducer then "Producer"
  else if sk =? SpanKindConsumer then "Consumer"
  else EmptyString.

Record SpanEvent : Type :=
  { EventTimestamp : Z;
    EventName : string;
    EventAttributes : pcommon.Map;
    EventDroppedAttributesCount : Z }.

Record SpanLink : Type :=
  { LinkTraceID : list Byte.byte;
    LinkSpanID : list Byte.byte;
    LinkTraceState : string;
    LinkAttributes : pcommon.Map;
    LinkDroppedAttributesCount : Z }.

Record Span : Type :=
  { TraceID : list Byte.byte;
    SpanID : list Byte.byte;
    ParentSpanID : list Byte.byte;
    TraceState : string;
    Name : string;
    Kind : Z;
    StartTimestamp : Z;
    EndTimestamp : Z;
    StatusCode : Z;
    StatusMessage : string;
    Attributes : pcommon.Map;
    DroppedAttributesCount : Z;
    DroppedEventsCount : Z;
    DroppedLinksCount : Z;
    Events : list SpanEvent;
    Links : list SpanLink }.

Record InstrumentationScope : Type :=
  { ScopeName : string;
    ScopeVersion : string;
    ScopeAttributes : pcommon.Map }.

Record ScopeSpans : Type :=
  { Scope : InstrumentationScope;
    Spans : list Span }.

Record Resource : Type :=
  { ResourceAttributes : pcommon.Map;
    ResourceDroppedAttributesCount : Z }.

Record ResourceSpans : Type :=
  { Res : Resource;
    ScopeSpansSlice : list ScopeSpans }.

(** A resource node whose dropped-attributes counter is zero. *)
Definition zeroDropped (rs : ResourceSpans) : Prop :=
  ResourceDroppedAttributesCount (Res rs) = 0.

(** [ptrace.Traces]: the slice returned by [ResourceSpans()]. *)
Abbreviation Traces := (list ResourceSpans).

Definition NewTraces : Traces := [].

(** What [AppendEmpty()] appends to a [ResourceSpansSlice] and to a
    [ScopeSpansSlice]. *)
Definition emptyResourceSpans : ResourceSpans :=
  {| Res := {| ResourceAttributes := []; ResourceDroppedAttributesCount := 0 |};
     ScopeSpansSlice := [] |}.

Definition emptyScopeSpans : ScopeSpans :=
  {| Scope := {| ScopeName := EmptyString; ScopeVersion := EmptyString;
                ScopeAttributes := [] |};
     Spans := [] |}.

End ptrace.

(* ===================================================================== *)
(** * internal/transform/span.go: the normalizer                           *)
(* ===================================================================== *)

Module transform.

Import sdktrace.

Section Normalizer.

(** [attribute.Value.Emit()] for the float and slice kinds (and for an
    invalid value), whose text is produced by the Go [fmt] and
    [encoding/json] packages. *)
Variable emitOther : attribute.Value -> string.

(** [a.Value.Emit()]. *)
Definition Emit (v : attribute.Value) : string :=
  match v with
  | attribute.BOOL b => FormatBool b
  | attribute.INT64 i => FormatInt i
  | attribute.STRING s => s
  | _ => emitOther v
  end.

(** [copyAndEscape] of the default attribute encoder. The loop ranges
    over the runes of [val]: a byte that does not start a valid UTF-8
    encoding is read as U+FFFD, one byte at a time, and [WriteRune]
    writes it as the three bytes of U+FFFD; a valid encoding is written
    back as it was. [=], [,] and the backslash are preceded by a
    backslash. [copy] counts the bytes still to copy of a rune that has
    been decoded. *)
Fixpoint copyRunes (copy : nat) (val : string) : string :=
  match val with
  | EmptyString => EmptyString
  | String ch rest =>
      match copy with
      | S k => String ch (copyRunes k rest)
      | O =>
          if byteZ ch <? 0x80 then
            if Ascii.eqb ch "="%char || Ascii.eqb ch ","%char || Ascii.eqb ch backslash
            then String backslash (String ch (copyRunes O rest))
            else String ch (copyRunes O rest)
          else
            match utf8.runeSize val with
            | O => utf8.RuneError +:+ copyRunes O rest
            | S k => String ch (copyRunes k rest)
            end
      end
  end.

Definition copyAndEscape (val : string) : string := copyRunes O val.

Definition encodeKeyValue (kv : attribute.KeyValue) : string :=
  copyAndEscape (attribute.Key kv) +:+ "=" +:+
  match attribute.Val kv with
  | attribute.STRING s => copyAndEscape s
  | v => Emit v
  end.

(** [res.Encoded(attribute.DefaultEncoder())]: the entries of the
    resource's attribute set, in the order of the set, joined by commas. *)
Fixpoint Encoded (res : list attribute.KeyValue) : string :=
  match res with
  | [] => EmptyString
  | [kv] => encodeKeyValue kv
  | kv :: rest => encodeKeyValue kv +:+ "," +:+ Encoded rest
  end.

Definition hashResource (res : list attribute.KeyValue) : Z :=
  let h := fnv.New64a in
  let h := fnv.Write h (Encoded res) in
  fnv.Sum64 h.

Definition hashScope (s : instrumentation.Scope) : Z :=
  let h := fnv.New64a in
  let h := fnv.Write h (instrumentation.Name s) in
  let h := fnv.Write h (instrumentation.SchemaURL s) in
  let h := fnv.Write h (instrumentation.Version s) in
  fnv.Sum64 h.

(** [s.AppendEmpty(); v.SetBool(r)] for each element of a raw slice. *)
Definition sliceOf {A} (mk : A -> pcommon.Value) (raw : list A) : pcommon.Value :=
  pcommon.ValueSlice (map mk raw).

Definition transformAttribute (to : pcommon.Map) (a : attribute.KeyValue) : pcommon.Map :=
  let key := attribute.Key a in
  match attribute.Val a with
  | attribute.BOOL b => pcommon.Put to key (pcommon.ValueBool b)
  | attribute.INT64 i => pcommon.Put to key (pcommon.ValueInt i)
  | attribute.FLOAT64 f => pcommon.Put to key (pcommon.ValueDouble f)
  | attribute.STRING s => pcommon.Put to key (pcommon.ValueStr s)
  | attribute.BOOLSLICE raw => pcommon.Put to key (sliceOf pcommon.ValueBool raw)
  | attribute.INT64SLICE raw => pcommon.Put to key (sliceOf pcommon.ValueInt raw)
  | attribute.STRINGSLICE raw => pcommon.Put to key (sliceOf pcommon.ValueStr raw)
  | attribute.FLOAT64SLICE raw => pcommon.Put to key (sliceOf pcommon.ValueDouble raw)
  | attribute.INVALID => to
  end.

Definition transformAttributes (from : list attribute.KeyValue) : pcommon.Map :=
  fold_left transformAttribute from pcommon.NewMap.

Definition transformEvent (e : Event) : ptrace.SpanEvent :=
  {| ptrace.EventTimestamp := pcommon.NewTimestampFromTime (EventTime e);
     ptrace.EventName := EventName e;
     ptrace.EventDroppedAttributesCount := uint32 (EventDroppedAttributeCount e);
     ptrace.EventAttributes := transformAttributes (EventAttributes e) |}.

Definition transformLink (l : Link) : ptrace.SpanLink :=
  {| ptrace.LinkTraceID := TraceID (LinkSpanContext l);
     ptrace.LinkSpanID := SpanID (LinkSpanContext l);
     ptrace.LinkTraceState := TraceState (LinkSpanContext l);
     ptrace.LinkDroppedAttributesCount := uint32 (LinkDroppedAttributeCount l);
     ptrace.LinkAttributes := transformAttributes (LinkAttributes l) |}.

(** The [switch s.Status().Code]; [None] is the [default] branch. *)
Definition statusCode (c : Z) : option Z :=
  if c =? codes.Unset then Some ptrace.StatusCodeUnset
  else if c =? codes.Ok then Some ptrace.StatusCodeOk
  else if c =? codes.Error then Some ptrace.StatusCodeError
  else None.

(** The status codes the [switch] has a case for. *)
Definition knownCode (c : Z) : Prop :=
  c = codes.Unset \/ c = codes.Ok \/ c = codes.Error.

(** The span node filled from the read-only span [s], given its status
    code. *)
Definition fillSpan (s : ReadOnlySpan) (code : Z) : ptrace.Span :=
  {| ptrace.TraceID := TraceID (Context s);
     ptrace.SpanID := SpanID (Context s);
     ptrace.ParentSpanID := SpanID (Parent s);
     ptrace.TraceState := TraceState (Context s);
     ptrace.Name := Name s;
     ptrace.Kind := int32 (SpanKind s);
     ptrace.StartTimestamp := pcommon.NewTimestampFromTime (StartTime s);
     ptrace.EndTimestamp := pcommon.NewTimestampFromTime (EndTime s);
     ptrace.StatusCode := code;
     ptrace.StatusMessage := Description (SpanStatus s);
     ptrace.DroppedAttributesCount := uint32 (DroppedAttributes s);
     ptrace.DroppedEventsCount := uint32 (DroppedEvents s);
     ptrace.DroppedLinksCount := uint32 (DroppedLinks s);
     ptrace.Attributes := transformAttributes (Attributes s);
     ptrace.Events := map transformEvent (Events s);
     ptrace.Links := map transformLink (Links s) |}.

(** The state of the loop of [Spans]. A [ptrace.ResourceSpans] handle is
    a pointer to a node of the output tree; it is the node's index in
    [rss]. A [ptrace.ScopeSpans] handle is the pair of the index of the
    resource node that holds the scope node and the index of the scope
    node in it. The two maps live for the whole call. *)
Record State : Type :=
  { rss : ptrace.Traces;
    resMap : gmap Z nat;
    scopeMap : gmap Z (nat * nat) }.

Definition initState : State :=
  {| rss := ptrace.NewTraces; resMap := ∅; scopeMap := ∅ |}.

(** The state in which one resource node, registered under [hr], holds
    one scope node, registered under [hs], which holds the spans [sps]. *)
Definition grouped (ra : pcommon.Map) (hr hs : Z) (sps : list ptrace.Span) : State :=
  {| rss := [ {| ptrace.Res := {| ptrace.ResourceAttributes := ra;
                                   ptrace.ResourceDroppedAttributesCount := 0 |};
                 ptrace.ScopeSpansSlice :=
                   [ {| ptrace.Scope := ptrace.Scope ptrace.emptyScopeSpans;
                        ptrace.Spans := sps |} ] |} ];
     resMap := {[ hr := 0%nat ]};
     scopeMap := {[ hs := (0%nat, 0%nat) ]} |}.

(** [res.SetDroppedAttributesCount(0); ra.CopyTo(res.Attributes())]. *)
Definition setResource (ra : pcommon.Map) (rs : ptrace.ResourceSpans) : ptrace.ResourceSpans :=
  {| ptrace.Res := {| ptrace.ResourceAttributes := ra;
                      ptrace.ResourceDroppedAttributesCount := 0 |};
     ptrace.ScopeSpansSlice := ptrace.ScopeSpansSlice rs |}.

(** [rs.ScopeSpans().AppendEmpty()]. *)
Definition appendScope (rs : ptrace.ResourceSpans) : ptrace.ResourceSpans :=
  {| ptrace.Res := ptrace.Res rs;
     ptrace.ScopeSpansSlice := ptrace.ScopeSpansSlice rs ++ [ptrace.emptyScopeSpans] |}.

(** [ss.Spans().AppendEmpty()] followed by the setters. *)
Definition appendSpan (sp : ptrace.Span) (ss : ptrace.ScopeSpans) : ptrace.ScopeSpans :=
  {| ptrace.Scope := ptrace.Scope ss;
     ptrace.Spans := ptrace.Spans ss ++ [sp] |}.

Definition atScope (f : ptrace.ScopeSpans -> ptrace.ScopeSpans) (si : nat)
    (rs : ptrace.ResourceSpans) : ptrace.ResourceSpans :=
  {| ptrace.Res := ptrace.Res rs;
     ptrace.ScopeSpansSlice := alter f si (ptrace.ScopeSpansSlice rs) |}.

Definition scopesLen (t : ptrace.Traces) (ri : nat) : nat :=
  from_option (fun rs => length (ptrace.ScopeSpansSlice rs)) 0%nat (t !! ri).

(** One iteration of [for _, s := range sdl]. *)
Definition step (st : State) (s : ReadOnlySpan) : Result State :=
  let hr := hashResource (Resource s) in
  (* var rs ptrace.ResourceSpans *)
  let '(t1, resMap1, rs) :=
    match resMap st !! hr with
    | Some r => (rss st, resMap st, r)
    | None =>
        let r := length (rss st) in
        (rss st ++ [ptrace.emptyResourceSpans], <[hr := r]> (resMap st), r)
    end in
  let t2 := alter (setResource (transformAttributes (Resource s))) rs t1 in
  let hs := hashScope (InstrumentationScope s) in
  (* var ss ptrace.ScopeSpans *)
  let '(t3, scopeMap1, ss) :=
    match scopeMap st !! hs with
    | Some scope => (t2, scopeMap st, scope)
    | None =>
        let scope := (rs, scopesLen t2 rs) in
        (alter appendScope rs t2, <[hs := scope]> (scopeMap st), scope)
    end in
  match statusCode (Code (SpanStatus s)) with
  | None => Panic "unreachable"
  | Some code =>
      Returned
        {| rss := alter (atScope (appendSpan (fillSpan s code)) ss.2) ss.1 t3;
           resMap := resMap1;
           scopeMap := scopeMap1 |}
  end.

Fixpoint loop (st : State) (sdl : list ReadOnlySpan) : Result State :=
  match sdl with
  | [] => Returned st
  | s :: sdl' =>
      match step st s with
      | Returned st' => loop st' sdl'
      | Panic msg => Panic msg
      end
  end.

Definition Spans (sdl : list ReadOnlySpan) : Result ptrace.Traces :=
  match loop initState sdl with
  | Returned st => Returned (rss st)
  | Panic msg => Panic msg
  end.

End Normalizer.

End transform.

(* ===================================================================== *)
(** * encoding/json, as far as [json.Marshal(m.AsRaw())] goes              *)
(* ===================================================================== *)

Module json.

Import utf8.

Definition hex (n : Z) : ascii :=
  nth (Z.to_nat n) (list_ascii_of_string "0123456789abcdef") "0"%char.

(** [htmlSafeSet]: the ASCII bytes that are copied unchanged. *)
Definition htmlSafe (b : Z) : bool :=
  (0x20 <=? b) && (b <? 0x80) &&
  negb ((b =? 0x22) || (b =? 0x26) || (b =? 0x3C) || (b =? 0x3E) || (b =? 0x5C)).

(** The escape of an ASCII byte outside [htmlSafeSet] (the [switch b] of
    [appendString], Go 1.22). *)
Definition escapeByte (c : ascii) : string :=
  let b := byteZ c in
  if (b =? 0x5C) || (b =? 0x22) then String backslash (String c EmptyString)
  else if b =? 0x08 then String backslash "b"
  else if b =? 0x0C then String backslash "f"
  else if b =? 0x0A then String backslash "n"
  else if b =? 0x0D then String backslash "r"
  else if b =? 0x09 then String backslash "t"
  else String backslash ("u00" +:+ String (hex (Z.shiftr b 4))
                                     (String (hex (Z.land b 0xF)) EmptyString)).

(** U+2028 and U+2029 are the byte sequences E2 80 A8 and E2 80 A9. *)
Definition lineSep (s : string) : option Z :=
  if within 0xE2 0xE2 (byteAt s 0) && within 0x80 0x80 (byteAt s 1)
     && within 0xA8 0xA9 (byteAt s 2)
  then (fun b => b - 0xA0) <$> byteAt s 2 else None.

(** The body of [appendString(dst, src, escapeHTML = true)], between the
    two quotes. [copy] counts the bytes still to copy of a rune that has
    been decoded, [drop] those of a rune that has been replaced. *)
Fixpoint appendBody (copy drop : nat) (src : string) : string :=
  match src with
  | EmptyString => EmptyString
  | String c rest =>
      match copy, drop with
      | S k, _ => String c (appendBody k drop rest)
      | O, S k => appendBody O k rest
      | O, O =>
          let b := byteZ c in
          if b <? 0x80 then
            if htmlSafe b then String c (appendBody O O rest)
            else escapeByte c +:+ appendBody O O rest
          else
            match lineSep src with
            | Some d =>
                String backslash ("u202" +:+ String (hex d) EmptyString)
                +:+ appendBody O 2%nat rest
            | None =>
                match runeSize src with
                | O => String backslash "ufffd" +:+ appendBody O O rest
                | S k => String c (appendBody k O rest)
                end
            end
      end
  end.

Definition appendString (src : string) : string :=
  String dquote (appendBody O O src +:+ String dquote EmptyString).

(** [rawMap[k] = v] on a Go map, kept as the list of its entries: the
    value of a key that is present is overwritten. *)
Fixpoint assign {A} (m : list (string * A)) (k : string) (v : A) : list (string * A) :=
  match m with
  | [] => [(k, v)]
  | (k', v') :: m' =>
      if String.eqb k' k then (k', v) :: m' else (k', v') :: assign m' k v
  end.

(** [m.AsRaw()]: a Go map filled by ranging over the entries of [m]. *)
Definition AsRaw {A} (m : list (string * A)) : list (string * A) :=
  fold_left (fun raw kv => assign raw kv.1 kv.2) m [].

(** The encoder sorts the keys of a map before it writes the entries
    ([slices.SortFunc] with [strings.Compare]): insertion into place. *)
Fixpoint insertKey {A} (e : string * A) (l : list (string * A)) : list (string * A) :=
  match l with
  | [] => [e]
  | e' :: l' =>
      match String.compare e.1 e'.1 with
      | Gt => e' :: insertKey e l'
      | _ => e :: l
      end
  end.

Definition sortKeys {A} (l : list (string * A)) : list (string * A) :=
  fold_right insertKey [] l.

(** [a] comes before [b] in the byte-wise order of [strings.Compare]. *)
Definition keyLt (a b : string) : Prop := String.compare a b = Lt.

Fixpoint join (sep : string) (l : list string) : string :=
  match l with
  | [] => EmptyString
  | [x] => x
  | x :: l' => x +:+ sep +:+ join sep l'
  end.

(** All the encodings, or the error of one of them. *)
Fixpoint collect {A} (l : list (option A)) : option (list A) :=
  match l with
  | [] => Some []
  | Some x :: l' => match collect l' with Some r => Some (x :: r) | None => None end
  | None :: _ => None
  end.

Definition member (e : string * string) : string :=
  appendString e.1 +:+ ":" +:+ e.2.

(** The text of a JSON object with the given entries, in their order. *)
Definition object (entries : list (string * string)) : string :=
  "{" +:+ join "," (map member entries) +:+ "}".

Definition array (elems : list string) : string :=
  "[" +:+ join "," elems +:+ "]".

(** The entries the encoder writes for a [pcommon.Map] whose values have
    been encoded: those of the raw Go map, by ascending key. An entry
    that fails to encode makes the whole call fail. *)
Definition entriesOf (m : list (string * option string)) : option (list (string * string)) :=
  collect (map (fun e => match e.2 with Some t => Some (e.1, t) | None => None end)
               (sortKeys (AsRaw m))).

(** A float is NaN or an infinity when its exponent bits are all ones;
    the encoder refuses those ([UnsupportedValueError]). *)
Definition isFinite (bits : Z) : bool :=
  negb (Z.land (Z.shiftr bits 52) 0x7FF =? 0x7FF).

Section Marshal.

(** The text [encoding/json] writes for a finite [float64] and for a
    [[]byte] (base64, or [null] for a nil slice). *)
Variable floatText : Z -> string.
Variable bytesText : string -> string.

(** [json.Marshal(v.AsRaw())]. The values of a map are encoded before
    its keys are sorted, which yields the same text as sorting first. *)
Fixpoint Marshal (v : pcommon.Value) : option string :=
  match v with
  | pcommon.ValueEmpty => Some "null"
  | pcommon.ValueStr s => Some (appendString s)
  | pcommon.ValueInt i => Some (FormatInt i)
  | pcommon.ValueDouble bits =>
      if isFinite bits then Some (floatText bits) else None
  | pcommon.ValueBool b => Some (FormatBool b)
  | pcommon.ValueBytes bs => Some (bytesText bs)
  | pcommon.ValueSlice l =>
      array <$> collect ((fix each (l : list pcommon.Value) :=
                            match l with
                            | [] => []
                            | x :: l' => Marshal x :: each l'
                            end) l)
  | pcommon.ValueMap m =>
      object <$> entriesOf ((fix each (m : list (string * pcommon.Value)) :=
                               match m with
                               | [] => []
                               | (k, x) :: m' => (k, Marshal x) :: each m'
                               end) m)
  end.

Definition MarshalMap (m : pcommon.Map) : option string :=
  Marshal (pcommon.ValueMap m).

End Marshal.

End json.

(* ===================================================================== *)
(** * The store: database/sql over SQLite, with the schema of migrations/  *)
(* ===================================================================== *)

(** One row of [spans], as the arguments bound by [insertSpanQ], in the
    order of its column list. A nil byte slice is stored as NULL. The
    three attribute columns pass through SQLite's [json()], which keeps
    the text that [encoding/json] writes. *)
Module spans.
Record Row : Type :=
  { span_id : list Byte.byte;
    trace_id : list Byte.byte;
    parent_span_id : option (list Byte.byte);
    tracestate : string;
    __service_name : string;
    __duration : Z;
    name : string;
    kind : string;
    start_time : Z;
    end_time : Z;
    status_code : Z;
    status_description : string;
    attributes : string;
    dropped_attributes_count : Z;
    dropped_events_count : Z;
    dropped_links_count : Z;
    resource_attributes : string;
    resource_dropped_attributes_count : Z;
    instrumentation_library_name : string;
    instrumentation_library_version : string;
    instrumentation_library_attributes : string }.
End spans.

Module events.
Record Row : Type :=
  { span_id : list Byte.byte;
    timestamp : Z;
    name : string;
    attributes : string;
    dropped_attributes_count : Z }.
End events.

Module links.
Record Row : Type :=
  { parent_span_id : list Byte.byte;
    span_id : list Byte.byte;
    trace_id : list Byte.byte;
    tracestate : string;
    attributes : string;
    dropped_attributes_count : Z }.
End links.

Module sql.

Record Tables : Type :=
  { spans : list spans.Row;
    events : list events.Row;
    links : list links.Row }.

Inductive Query : Type := insertSpanQ | insertEventQ | insertLinkQ.

(** A [*sql.DB]: the committed tables, whether the schema in place
    compiles a statement (the migrations that ran), and the connection
    pool: [maxOpen] is the ceiling set by [SetMaxOpenConns] (0 for none)
    and [inUse] the number of connections held by open transactions. *)
Record DB : Type :=
  { tables : Tables;
    prepares : Query -> bool;
    maxOpen : nat;
    inUse : nat;
    closed : bool }.

Inductive Begun : Type :=
| BeginOk (tx : Tables) (db : DB)
| BeginErr
| BeginWait.

(** [db.BeginTx(ctx, nil)] with a context that is never cancelled, and
    [db.Begin()]. A transaction takes a connection of the pool and keeps
    it until it is committed or rolled back; when the pool is at its
    ceiling the call waits for a connection to be returned. The
    transaction works on its own copy of the tables. *)
Definition BeginTx (db : DB) : Begun :=
  if closed db then BeginErr
  else if (0 <? maxOpen db)%nat && (maxOpen db <=? inUse db)%nat then BeginWait
  else BeginOk (tables db)
         {| tables := tables db; prepares := prepares db;
            maxOpen := maxOpen db; inUse := S (inUse db); closed := closed db |}.

Definition Begin (db : DB) : Begun := BeginTx db.

(** [tx.Commit()]: the transaction's tables become the committed ones
    and its connection goes back to the pool. *)
Definition Commit (tx : Tables) (db : DB) : DB :=
  {| tables := tx; prepares := prepares db;
     maxOpen := maxOpen db; inUse := pred (inUse db); closed := closed db |}.

(** Two blobs are equal when they hold the same bytes. *)
Fixpoint eqBytes (a b : list Byte.byte) : bool :=
  match a, b with
  | [], [] => true
  | x :: a', y :: b' => Byte.eqb x y && eqBytes a' b'
  | _, _ => false
  end.

Definition sameKey (a b : spans.Row) : bool :=
  eqBytes (spans.span_id a) (spans.span_id b) &&
  eqBytes (spans.trace_id a) (spans.trace_id b).

(** [json(?)] of a parameter that [database/sql] binds as a BLOB (the
    texts are passed as [[]byte]). SQLite takes a BLOB for JSONB when its
    first byte and its length fit a JSONB header: the low four bits of
    the byte are an element type (at most 12), the high four bits the
    size of the payload (a one-byte header when at most 11), the header
    and the payload make up the whole BLOB, and the types null, true and
    false have no payload. The text of an object, whose first byte 0x7B
    reads as an array with 7 bytes of payload, passes this test when it
    is 8 bytes long. The bytes of a JSON text are not the JSONB of that
    text: the decoding runs past the end of the BLOB or meets a byte
    that is no element type, and the statement fails with malformed
    JSON (as for the 8 bytes of an object with the key [k] and the
    empty string as value); the inserts below refuse every text that
    passes the test. Any other BLOB is read as the JSON text it holds,
    which [json] returns as it is, since [json.Marshal] writes no white
    space. A longer header starts with a byte above 0xBF, which is not
    the first byte of a JSON text. *)
Definition looksLikeJSONB (text : string) : bool :=
  match text with
  | EmptyString => false
  | String c _ =>
      let b := byteZ c in
      let type := Z.land b 0xF in
      let size := Z.shiftr b 4 in
      (type <=? 12) && (size <=? 11)
      && (Z.of_nat (String.length text) =? size + 1)
      && ((2 <? type) || (size =? 0))
  end.

(** The statement is refused when one of the [json(?)] parameters of the
    row is taken for JSONB. *)
Definition refusedSpan (r : spans.Row) : bool :=
  looksLikeJSONB (spans.attributes r)
  || looksLikeJSONB (spans.resource_attributes r)
  || looksLikeJSONB (spans.instrumentation_library_attributes r).

(** [stmt.ExecContext] of [insertSpanQ]: the table has
    [PRIMARY KEY (span_id, trace_id)], so a row whose key is present is
    refused and the table is left as it was. *)
Definition execSpan (tx : Tables) (r : spans.Row) : option Tables :=
  if refusedSpan r then None
  else if existsb (sameKey r) (spans tx) then None
  else Some {| spans := spans tx ++ [r]; events := events tx; links := links tx |}.

(** [events] and [links] have no constraint that is enforced. *)
Definition execEvent (tx : Tables) (r : events.Row) : option Tables :=
  if looksLikeJSONB (events.attributes r) then None
  else Some {| spans := spans tx; events := events tx ++ [r]; links := links tx |}.

Definition execLink (tx : Tables) (r : links.Row) : option Tables :=
  if looksLikeJSONB (links.attributes r) then None
  else Some {| spans := spans tx; events := events tx; links := links tx ++ [r] |}.

End sql.

(* ===================================================================== *)
(** * config.go: the persister                                             *)
(* ===================================================================== *)

Module sqliteexporter.

(** The errors [ConsumeTraces] returns, by their message. *)
Inductive Error : Type :=
| ErrBeginTx          (* failed to start transaction *)
| ErrMarshalResource  (* failed to marshal resource attributes as json *)
| ErrMarshalScope     (* failed to marshal instrumentation scope attributes as json *)
| ErrPrepareSpan      (* failed to prepare span insert stmt *)
| ErrMarshalSpan      (* failed to marshal attributes as json *)
| ErrInsertSpan       (* error occured while inserting span *)
| ErrMarshalEvent     (* failed to marshal event attributes as json *)
| ErrPrepareEvent     (* failed to prepare event insert query *)
| ErrInsertEvent      (* error occured while inserting event *)
| ErrMarshalLink      (* failed to marshal link attributes as json *)
| ErrPrepareLink      (* failed to prepare link insert query *)
| ErrInsertLink.      (* error occured while inserting link *)

(** The body of [ConsumeTraces] runs inside the transaction [tx]: a
    computation takes the transaction's tables and yields them back with
    a value, or with the error on which the function returns. *)
Definition M (A : Type) : Type := sql.Tables -> sql.Tables * (Error + A).

Definition ret {A} (a : A) : M A := fun tx => (tx, inr a).

Definition bind {A B} (m : M A) (k : A -> M B) : M B :=
  fun tx =>
    match m tx with
    | (tx', inr a) => k a tx'
    | (tx', inl e) => (tx', inl e)
    end.

Notation "'do' x <- m ; k" := (bind m (fun x => k))
  (at level 10, x name, m at level 100, k at level 200).

(** [v, err := f(); if err != nil { return fmt.Errorf(msg, err) }]. *)
Definition try {A} (e : Error) (o : option A) : M A :=
  fun tx => match o with Some a => (tx, inr a) | None => (tx, inl e) end.

(** [tx.PrepareContext(ctx, q)]. *)
Definition PrepareContext (prepares : sql.Query -> bool) (q : sql.Query) (e : Error) : M unit :=
  fun tx => if prepares q then (tx, inr tt) else (tx, inl e).

(** [stmt.ExecContext(ctx, args...)]. *)
Definition ExecContext {R} (exec : sql.Tables -> R -> option sql.Tables) (r : R) (e : Error) : M unit :=
  fun tx => match exec tx r with Some tx' => (tx', inr tt) | None => (tx, inl e) end.

(** [for i := 0; i < xs.Len(); i++ { x := xs.At(i); ... }]. *)
Fixpoint forEach {A} (xs : list A) (body : A -> M unit) : M unit :=
  match xs with
  | [] => ret tt
  | x :: xs' => do _ <- body x; forEach xs' body
  end.

(** [t.Sub(u)]: the difference, saturated to the range of an [int64]. *)
Definition Sub (t u : Z) : Z :=
  let d := t - u in
  if d <? - 2 ^ 63 then - 2 ^ 63
  else if 2 ^ 63 - 1 <? d then 2 ^ 63 - 1
  else d.

(** [d.Microseconds()]. Go's [/] truncates towards zero. *)
Definition Microseconds (d : Z) : Z := Z.quot d 1000.

Definition unixMicro (t : Z) : Z := Z.quot t 1000.

(** The [Range] callback that resolves the service name: it stops at the
    first entry whose key is [service.name]. *)
Fixpoint serviceName (svc : string) (attrs : pcommon.Map) : string :=
  match attrs with
  | [] => svc
  | (k, v) :: rest =>
      if String.eqb k "service.name" then
        let svc := pcommon.Str v in
        if String.eqb svc EmptyString then "unknown" else svc
      else serviceName svc rest
  end.

Section Persister.

Variable floatText : Z -> string.
Variable bytesText : string -> string.

Definition pcommonMapAsJSON (m : pcommon.Map) : option string :=
  json.MarshalMap floatText bytesText m.

(** The arguments of the span insert. *)
Definition spanRow (svc rattrs : string) (resource : ptrace.ResourceSpans)
    (sattrs : string) (scope : ptrace.ScopeSpans) (attrs : string)
    (span : ptrace.Span) : spans.Row :=
  let dur := Sub (pcommon.AsTime (ptrace.EndTimestamp span))
                 (pcommon.AsTime (ptrace.StartTimestamp span)) in
  let spanidbs := ptrace.SpanID span in
  let traceidbs := ptrace.TraceID span in
  let parentidbs :=
    if pcommon.IsEmpty (ptrace.ParentSpanID span) then None
    else Some (ptrace.ParentSpanID span) in
  {| spans.span_id := spanidbs;
     spans.trace_id := traceidbs;
     spans.parent_span_id := parentidbs;
     spans.tracestate := ptrace.TraceState span;
     spans.__service_name := svc;
     spans.__duration := Microseconds dur;
     spans.name := ptrace.Name span;
     spans.kind := ptrace.SpanKindString (ptrace.Kind span);
     spans.start_time := unixMicro (pcommon.AsTime (ptrace.StartTimestamp span));
     spans.end_time := unixMicro (pcommon.AsTime (ptrace.EndTimestamp span));
     spans.status_code := ptrace.StatusCode span;
     spans.status_description := ptrace.StatusMessage span;
     spans.attributes := attrs;
     spans.dropped_attributes_count := ptrace.DroppedAttributesCount span;
     spans.dropped_events_count := ptrace.DroppedEventsCount span;
     spans.dropped_links_count := ptrace.DroppedLinksCount span;
     spans.resource_attributes := rattrs;
     spans.resource_dropped_attributes_count :=
       ptrace.ResourceDroppedAttributesCount (ptrace.Res resource);
     spans.instrumentation_library_name := ptrace.ScopeName (ptrace.Scope scope);
     spans.instrumentation_library_version := ptrace.ScopeVersion (ptrace.Scope scope);
     spans.instrumentation_library_attributes := sattrs |}.

Definition eventRow (spanidbs : list Byte.byte) (attrs : string)
    (event : ptrace.SpanEvent) : events.Row :=
  {| events.span_id := spanidbs;
     events.timestamp := unixMicro (pcommon.AsTime (ptrace.EventTimestamp event));
     events.name := ptrace.EventName event;
     events.attributes := attrs;
     events.dropped_attributes_count := ptrace.EventDroppedAttributesCount event |}.

Definition linkRow (spanidbs : list Byte.byte) (attrs : string)
    (link : ptrace.SpanLink) : links.Row :=
  {| links.parent_span_id := spanidbs;
     links.span_id := ptrace.LinkSpanID link;
     links.trace_id := ptrace.LinkTraceID link;
     links.tracestate := ptrace.LinkTraceState link;
     links.attributes := attrs;
     links.dropped_attributes_count := ptrace.LinkDroppedAttributesCount link |}.

Section Body.

Variable prepares : sql.Query -> bool.

Definition insertEvent (spanidbs : list Byte.byte) (event : ptrace.SpanEvent) : M unit :=
  do attrs <- try ErrMarshalEvent (pcommonMapAsJSON (ptrace.EventAttributes event));
  do _ <- PrepareContext prepares sql.insertEventQ ErrPrepareEvent;
  ExecContext sql.execEvent (eventRow spanidbs attrs event) ErrInsertEvent.

Definition insertLink (spanidbs : list Byte.byte) (link : ptrace.SpanLink) : M unit :=
  do attrs <- try ErrMarshalLink (pcommonMapAsJSON (ptrace.LinkAttributes link));
  do _ <- PrepareContext prepares sql.insertLinkQ ErrPrepareLink;
  ExecContext sql.execLink (linkRow spanidbs attrs link) ErrInsertLink.

Definition insertSpan (svc rattrs : string) (resource : ptrace.ResourceSpans)
    (sattrs : string) (scope : ptrace.ScopeSpans) (span : ptrace.Span) : M unit :=
  do _ <- PrepareContext prepares sql.insertSpanQ ErrPrepareSpan;
  do attrs <- try ErrMarshalSpan (pcommonMapAsJSON (ptrace.Attributes span));
  do _ <- ExecContext sql.execSpan
         (spanRow svc rattrs resource sattrs scope attrs span) ErrInsertSpan;
  do _ <- forEach (ptrace.Events span) (insertEvent (ptrace.SpanID span));
  forEach (ptrace.Links span) (insertLink (ptrace.SpanID span)).

Definition insertScope (svc rattrs : string) (resource : ptrace.ResourceSpans)
    (scope : ptrace.ScopeSpans) : M unit :=
  do sattrs <- try ErrMarshalScope
              (pcommonMapAsJSON (ptrace.ScopeAttributes (ptrace.Scope scope)));
  forEach (ptrace.Spans scope) (insertSpan svc rattrs resource sattrs scope).

Definition insertResource (resource : ptrace.ResourceSpans) : M unit :=
  let svc := serviceName "unknown"
               (ptrace.ResourceAttributes (ptrace.Res resource)) in
  do rattrs <- try ErrMarshalResource
              (pcommonMapAsJSON (ptrace.ResourceAttributes (ptrace.Res resource)));
  forEach (ptrace.ScopeSpansSlice resource) (insertScope svc rattrs resource).

(** The three nested loops of [ConsumeTraces]. *)
Definition insertTraces (traces : ptrace.Traces) : M unit :=
  forEach traces insertResource.

End Body.

(** How a call of [ConsumeTraces] ends: it returns [nil] or an error, or
    it waits for a connection of the pool. *)
Inductive Outcome : Type :=
| Return (err : option Error)
| Waits.

Definition errorOf (r : Error + unit) : option Error :=
  match r with inl e => Some e | inr _ => None end.

(** [ConsumeTraces], for a context [ctx] that is never cancelled during
    the call. [defer tx.Commit()] runs when the function returns,
    whatever it returns. The transaction begun by [e.db.Begin()] is
    dropped: it is never committed nor rolled back and keeps its
    connection. *)
Definition ConsumeTraces (db : sql.DB) (traces : ptrace.Traces) : Outcome * sql.DB :=
  match sql.BeginTx db with
  | sql.BeginErr => (Return (Some ErrBeginTx), db)
  | sql.BeginWait => (Waits, db)
  | sql.BeginOk tx db1 =>
      match sql.Begin db1 with
      | sql.BeginWait => (Waits, db1)
      | second =>
          let db2 :=
            match second with sql.BeginOk _ db' => db' | _ => db1 end in
          let '(tx', r) := insertTraces (sql.prepares db) traces tx in
          (Return (errorOf r), sql.Commit tx' db2)
      end
  end.

(** [grows P tx tx']: the [spans] table of [tx'] is the one of [tx]
    followed by new rows, each of which satisfies [P]. *)
Definition grows (P : spans.Row -> Prop) (tx tx' : sql.Tables) : Prop :=
  exists new, sql.spans tx' = sql.spans tx ++ new /\ Forall P new.

Definition keeps (P : spans.Row -> Prop) {A} (m : M A) : Prop :=
  forall tx tx' r, m tx = (tx', r) -> grows P tx tx'.

(** [adds n m]: when [m] ends without an error, [spans] has [n] more
    rows than before. *)
Definition adds (n : nat) {A} (m : M A) : Prop :=
  forall tx tx' a, m tx = (tx', inr a) ->
    length (sql.spans tx') = (length (sql.spans tx) + n)%nat.

(** The number of Span nodes of a batch. *)
Definition spanCount (traces : ptrace.Traces) : nat :=
  sum_list_with
    (fun resource =>
       sum_list_with (fun scope => length (ptrace.Spans scope))
                     (ptrace.ScopeSpansSlice resource))
    traces.

(** [row] is the row inserted for [span], a span of the scope node
    [scope] of the resource node [resource] of the batch [traces]. *)
Definition rowOf (traces : ptrace.Traces) (resource : ptrace.ResourceSpans)
    (scope : ptrace.ScopeSpans) (span : ptrace.Span) (row : spans.Row) : Prop :=
  resource ∈ traces /\
  scope ∈ ptrace.ScopeSpansSlice resource /\
  span ∈ ptrace.Spans scope /\
  exists rattrs sattrs attrs,
    pcommonMapAsJSON (ptrace.ResourceAttributes (ptrace.Res resource)) = Some rattrs /\
    pcommonMapAsJSON (ptrace.ScopeAttributes (ptrace.Scope scope)) = Some sattrs /\
    pcommonMapAsJSON (ptrace.Attributes span) = Some attrs /\
    row = spanRow
            (serviceName "unknown" (ptrace.ResourceAttributes (ptrace.Res resource)))
            rattrs resource sattrs scope attrs span.

Section Embedded.

Variable emitOther : attribute.Value -> string.

Definition ExportSpans (db : sql.DB) (spans : list sdktrace.ReadOnlySpan)
    : Result (Outcome * sql.DB) :=
  match transform.Spans emitOther spans with
  | Returned ss => Returned (ConsumeTraces db ss)
  | Panic msg => Panic msg
  end.

End Embedded.

End Persister.

End sqliteexporter.

(* ===================================================================== *)
(** * Sample inputs                                                        *)
(* ===================================================================== *)

Module sample.

(** Stand-ins for the renderings left to the Go library, for inputs in
    which no float, slice or byte-string value occurs. *)
Definition emitOther (v : attribute.Value) : string := "unknown".
Definition floatText (bits : Z) : string := "0".
Definition bytesText (bs : string) : string := "null".

Definition traceID : list Byte.byte := repeat Byte.x00 15 ++ [Byte.x01].
Definition spanID (b : Byte.byte) : list Byte.byte := repeat Byte.x00 7 ++ [b].

Definition attr (k : string) (v : attribute.Value) : attribute.KeyValue :=
  {| attribute.Key := k; attribute.Val := v |}.

Definition serviceA : list attribute.KeyValue :=
  [attr "service.name" (attribute.STRING "a")].
Definition serviceB : list attribute.KeyValue :=
  [attr "service.name" (attribute.STRING "b")].

(** Two attribute sets that differ in the type of their value and have
    the same encoding, [k=5]. *)
Definition intFive : list attribute.KeyValue := [attr "k" (attribute.INT64 5)].
Definition strFive : list attribute.KeyValue := [attr "k" (attribute.STRING "5")].

Definition lib : instrumentation.Scope :=
  {| instrumentation.Name := "test-tracer";
     instrumentation.Version := "0.0.1";
     instrumentation.SchemaURL := EmptyString |}.

(** A server span that starts one second after the epoch and ends 5ms
    later, with the given identifier, resource and status code. *)
Definition rawSpan (id : Byte.byte) (resource : list attribute.KeyValue) (code : Z)
    : sdktrace.ReadOnlySpan :=
  {| sdktrace.Name := "span-stub";
     sdktrace.Context := {| sdktrace.TraceID := traceID;
                            sdktrace.SpanID := spanID id;
                            sdktrace.TraceState := "foo=bar" |};
     sdktrace.Parent := {| sdktrace.TraceID := traceID;
                           sdktrace.SpanID := spanID Byte.x00;
                           sdktrace.TraceState := EmptyString |};
     sdktrace.SpanKind := 2;
     sdktrace.StartTime := 1000000000;
     sdktrace.EndTime := 1005000000;
     sdktrace.Attributes := [attr "http.method" (attribute.STRING "GET");
                             attr "http.status_code" (attribute.INT64 200)];
     sdktrace.Links := [];
     sdktrace.Events := [];
     sdktrace.SpanStatus := {| sdktrace.Code := code;
                               sdktrace.Description := EmptyString |};
     sdktrace.InstrumentationScope := lib;
     sdktrace.Resource := resource;
     sdktrace.DroppedAttributes := 1;
     sdktrace.DroppedLinks := 3;
     sdktrace.DroppedEvents := 2 |}.

Definition event : ptrace.SpanEvent :=
  {| ptrace.EventTimestamp := 1002000000;
     ptrace.EventName := "this_happened";
     ptrace.EventAttributes := [("value", pcommon.ValueStr "example")];
     ptrace.EventDroppedAttributesCount := 0 |}.

(** A server span of the pdata model with one event, and with the given
    identifier and parent identifier. *)
Definition span (id parent : Byte.byte) : ptrace.Span :=
  {| ptrace.TraceID := traceID;
     ptrace.SpanID := spanID id;
     ptrace.ParentSpanID := spanID parent;
     ptrace.TraceState := "rojo=00f067aa0ba902b7";
     ptrace.Name := "span1";
     ptrace.Kind := ptrace.SpanKindServer;
     ptrace.StartTimestamp := 1000000000;
     ptrace.EndTimestamp := 1005000000;
     ptrace.StatusCode := ptrace.StatusCodeOk;
     ptrace.StatusMessage := "Ok";
     ptrace.Attributes := [("http.method", pcommon.ValueStr "GET");
                           ("http.status_code", pcommon.ValueInt 200)];
     ptrace.DroppedAttributesCount := 0;
     ptrace.DroppedEventsCount := 0;
     ptrace.DroppedLinksCount := 0;
     ptrace.Events := [event];
     ptrace.Links := [] |}.

(** The same span with the given start and end timestamps. *)
Definition spanAt (t0 t1 : Z) : ptrace.Span :=
  {| ptrace.TraceID := traceID;
     ptrace.SpanID := spanID Byte.x01;
     ptrace.ParentSpanID := spanID Byte.x00;
     ptrace.TraceState := "rojo=00f067aa0ba902b7";
     ptrace.Name := "span1";
     ptrace.Kind := ptrace.SpanKindServer;
     ptrace.StartTimestamp := t0;
     ptrace.EndTimestamp := t1;
     ptrace.StatusCode := ptrace.StatusCodeOk;
     ptrace.StatusMessage := "Ok";
     ptrace.Attributes := [("http.method", pcommon.ValueStr "GET");
                           ("http.status_code", pcommon.ValueInt 200)];
     ptrace.DroppedAttributesCount := 0;
     ptrace.DroppedEventsCount := 0;
     ptrace.DroppedLinksCount := 0;
     ptrace.Events := [event];
     ptrace.Links := [] |}.

(** A batch of one resource and one scope that hold the given spans. *)
Definition batch (sps : list ptrace.Span) : ptrace.Traces :=
  [ {| ptrace.Res :=
         {| ptrace.ResourceAttributes := [("service.name", pcommon.ValueStr "test-service")];
            ptrace.ResourceDroppedAttributesCount := 0 |};
       ptrace.ScopeSpansSlice :=
         [ {| ptrace.Scope := {| ptrace.ScopeName := "test-scope";
                                 ptrace.ScopeVersion := "v0.1.0";
                                 ptrace.ScopeAttributes := [] |};
              ptrace.Spans := sps |} ] |} ].

Definition noTables : sql.Tables :=
  {| sql.spans := []; sql.events := []; sql.links := [] |}.

(** An open, empty store whose schema compiles the three statements,
    with the given ceiling on its pool (0: no ceiling, as for a handle
    passed to [NewSqliteSDKTraceExporterWithDB]; 1: as set by
    [newSqliteExporter]). *)
Definition db (maxOpen : nat) : sql.DB :=
  {| sql.tables := noTables;
     sql.prepares := fun _ => true;
     sql.maxOpen := maxOpen;
     sql.inUse := 0;
     sql.closed := false |}.

End sample.

(* ===================================================================== *)
(** * The inputs of the repository's tests                                 *)
(* ===================================================================== *)

Module tests.

(** [TestTransformSpan]: the span stub. The floats are given by their
    bits: 111.2, 1.1, 2.2 and 3.3. *)
Definition stubTraceID : list Byte.byte :=
  repeat Byte.x00 7 ++ [Byte.x01] ++ repeat Byte.x00 7 ++ [Byte.x01].

Definition linkID : list Byte.byte :=
  [Byte.x01; Byte.x23; Byte.x45; Byte.x67; Byte.x89; Byte.xab; Byte.xcd; Byte.xef].

Definition stub : sdktrace.ReadOnlySpan :=
  {| sdktrace.Name := "span-stub";
     sdktrace.Context := {| sdktrace.TraceID := stubTraceID;
                            sdktrace.SpanID := repeat Byte.x00 7 ++ [Byte.x01];
                            sdktrace.TraceState := "foo=bar" |};
     sdktrace.Parent := {| sdktrace.TraceID := stubTraceID;
                           sdktrace.SpanID := repeat Byte.x00 7 ++ [Byte.x11];
                           sdktrace.TraceState := "foo=bar" |};
     sdktrace.SpanKind := 2;
     sdktrace.StartTime := 1000 * 10 ^ 9;
     sdktrace.EndTime := 1005 * 10 ^ 9;
     sdktrace.Attributes :=
       [sample.attr "stringkey" (attribute.STRING "stringval");
        sample.attr "intkey" (attribute.INT64 123);
        sample.attr "floatkey" (attribute.FLOAT64 0x405BCCCCCCCCCCCD);
        sample.attr "boolkey" (attribute.BOOL true);
        sample.attr "stringslicekey" (attribute.STRINGSLICE ["first"; "second"]);
        sample.attr "intslicekey" (attribute.INT64SLICE [1; 2; 3]);
        sample.attr "floatslicekey"
          (attribute.FLOAT64SLICE [0x3FF199999999999A; 0x400199999999999A;
                                   0x400A666666666666]);
        sample.attr "boolslicekey" (attribute.BOOLSLICE [true; false])];
     sdktrace.Links :=
       [ {| sdktrace.LinkSpanContext := {| sdktrace.TraceID := linkID ++ linkID;
                                          sdktrace.SpanID := linkID;
                                          sdktrace.TraceState := "foo=bar" |};
            sdktrace.LinkAttributes :=
              [sample.attr "linkstringkey" (attribute.STRING "linkstringval")];
            sdktrace.LinkDroppedAttributeCount := 5 |} ];
     sdktrace.Events :=
       [ {| sdktrace.EventName := "spanevent";
            sdktrace.EventAttributes :=
              [sample.attr "eventstringkey" (attribute.STRING "eventstringval")];
            sdktrace.EventDroppedAttributeCount := 4;
            sdktrace.EventTime := 1500 * 10 ^ 9 |} ];
     sdktrace.SpanStatus := {| sdktrace.Code := codes.Ok; sdktrace.Description := "OK" |};
     sdktrace.InstrumentationScope :=
       {| instrumentation.Name := "test-tracer";
          instrumentation.Version := "0.0.1";
          instrumentation.SchemaURL := "https://opentelemetry.io/schemas/1.24.0" |};
     sdktrace.Resource := [sample.attr "service.name" (attribute.STRING "test-service")];
     sdktrace.DroppedAttributes := 1;
     sdktrace.DroppedLinks := 3;
     sdktrace.DroppedEvents := 2 |}.

(** [Test_ExporterExportSpan]: the trace, for a value of [time.Now()]. *)
Definition now : Z := 1706000000123456789.
Definition ms : Z := 1000000.

Definition traceID : list Byte.byte := repeat Byte.x00 15 ++ [Byte.x01].
Definition spanID (b : Byte.byte) : list Byte.byte :=
  [Byte.xee; Byte.xbc; Byte.x00; Byte.x00; Byte.x00; Byte.x00; Byte.xab; b].

Definition event (name : string) (at_ : Z) : ptrace.SpanEvent :=
  {| ptrace.EventTimestamp := pcommon.NewTimestampFromTime at_;
     ptrace.EventName := name;
     ptrace.EventAttributes := [("value", pcommon.ValueStr "example")];
     ptrace.EventDroppedAttributesCount := 0 |}.

Definition span1 : ptrace.Span :=
  {| ptrace.TraceID := traceID;
     ptrace.SpanID := spanID Byte.x01;
     ptrace.ParentSpanID := repeat Byte.x00 8;
     ptrace.TraceState := "rojo=00f067aa0ba902b7";
     ptrace.Name := "span1";
     ptrace.Kind := ptrace.SpanKindServer;
     ptrace.StartTimestamp := pcommon.NewTimestampFromTime (now - 5 * ms);
     ptrace.EndTimestamp := pcommon.NewTimestampFromTime now;
     ptrace.StatusCode := ptrace.StatusCodeOk;
     ptrace.StatusMessage := "Ok";
     ptrace.Attributes := [("http.method", pcommon.ValueStr "GET");
                           ("http.status_code", pcommon.ValueInt 200)];
     ptrace.DroppedAttributesCount := 0;
     ptrace.DroppedEventsCount := 0;
     ptrace.DroppedLinksCount := 0;
     ptrace.Events := [event "this_happened" (now - 3 * ms);
                       event "that_happened" (now - 4 * ms)];
     ptrace.Links := [] |}.

Definition span2 : ptrace.Span :=
  {| ptrace.TraceID := traceID;
     ptrace.SpanID := spanID Byte.x02;
     ptrace.ParentSpanID := spanID Byte.x01;
     ptrace.TraceState := EmptyString;
     ptrace.Name := "span2";
     ptrace.Kind := ptrace.SpanKindInternal;
     ptrace.StartTimestamp := pcommon.NewTimestampFromTime (now - 4 * ms);
     ptrace.EndTimestamp := pcommon.NewTimestampFromTime (now - 1 * ms);
     ptrace.StatusCode := ptrace.StatusCodeOk;
     ptrace.StatusMessage := "Ok";
     ptrace.Attributes := [("custom.key", pcommon.ValueStr "custom-value")];
     ptrace.DroppedAttributesCount := 0;
     ptrace.DroppedEventsCount := 0;
     ptrace.DroppedLinksCount := 0;
     ptrace.Events := [event "this_happened" (now - 3 * ms);
                       event "that_happened" (now - 4 * ms)];
     ptrace.Links :=
       [ {| ptrace.LinkTraceID := traceID;
            ptrace.LinkSpanID := spanID Byte.x01;
            ptrace.LinkTraceState := EmptyString;
            ptrace.LinkAttributes := [("relation", pcommon.ValueStr "follows_from")];
            ptrace.LinkDroppedAttributesCount := 0 |} ] |}.

Definition testTrace : ptrace.Traces :=
  [ {| ptrace.Res :=
         {| ptrace.ResourceAttributes := [("service.name", pcommon.ValueStr "test-service")];
            ptrace.ResourceDroppedAttributesCount := 0 |};
       ptrace.ScopeSpansSlice :=
         [ {| ptrace.Scope :=
                {| ptrace.ScopeName := "test-scope";
                   ptrace.ScopeVersion := "v0.1.0";
                   ptrace.ScopeAttributes :=
                     [("scope.stringkey", pcommon.ValueStr "scope.stringval")] |};
              ptrace.Spans := [span1; span2] |} ] |} ].

(** The row the test expects for a span, given the columns in which the
    two spans differ. *)
Definition expectedRow (id : Byte.byte) (parent : option (list Byte.byte))
    (tracestate : string) (duration : Z) (name kind : string) (start end_ : Z)
    (attributes : string) : spans.Row :=
  {| spans.span_id := spanID id;
     spans.trace_id := traceID;
     spans.parent_span_id := parent;
     spans.tracestate := tracestate;
     spans.__service_name := "test-service";
     spans.__duration := duration;
     spans.name := name;
     spans.kind := kind;
     spans.start_time := start;
     spans.end_time := end_;
     spans.status_code := 1;
     spans.status_description := "Ok";
     spans.attributes := attributes;
     spans.dropped_attributes_count := 0;
     spans.dropped_events_count := 0;
     spans.dropped_links_count := 0;
     spans.resource_attributes :=
       "{" +:+ quoted "service.name" +:+ ":" +:+ quoted "test-service" +:+ "}";
     spans.resource_dropped_attributes_count := 0;
     spans.instrumentation_library_name := "test-scope";
     spans.instrumentation_library_version := "v0.1.0";
     spans.instrumentation_library_attributes :=
       "{" +:+ quoted "scope.stringkey" +:+ ":" +:+ quoted "scope.stringval" +:+ "}" |}.

End tests.

(* ===================================================================== *)
(** * Notions used to state the properties of the remaining code           *)
(* ===================================================================== *)

Module attrs.

(** The pdata value that the [switch a.Value.Type()] of
    [transformAttributes] puts for an attribute value, and [None] for a
    type the switch has no case for. *)
Definition converted (v : attribute.Value) : option pcommon.Value :=
  match v with
  | attribute.BOOL b => Some (pcommon.ValueBool b)
  | attribute.INT64 i => Some (pcommon.ValueInt i)
  | attribute.FLOAT64 f => Some (pcommon.ValueDouble f)
  | attribute.STRING s => Some (pcommon.ValueStr s)
  | attribute.BOOLSLICE raw => Some (transform.sliceOf pcommon.ValueBool raw)
  | attribute.INT64SLICE raw => Some (transform.sliceOf pcommon.ValueInt raw)
  | attribute.STRINGSLICE raw => Some (transform.sliceOf pcommon.ValueStr raw)
  | attribute.FLOAT64SLICE raw => Some (transform.sliceOf pcommon.ValueDouble raw)
  | attribute.INVALID => None
  end.

(** The entry put for an attribute, if its type has a case. *)
Definition entry (a : attribute.KeyValue) : option (string * pcommon.Value) :=
  (fun v => (attribute.Key a, v)) <$> converted (attribute.Val a).

(** The converted value of the last attribute of [from] that has the
    key [k] and a type with a case. *)
Definition lastValue (from : list attribute.KeyValue) (k : string) : option pcommon.Value :=
  last (omap (fun a => if String.eqb (attribute.Key a) k
                       then converted (attribute.Val a) else None) from).

(** An attribute value that holds no NaN and no infinity. *)
Definition finite (v : attribute.Value) : Prop :=
  match v with
  | attribute.FLOAT64 bits => json.isFinite bits = true
  | attribute.FLOAT64SLICE l => Forall (fun bits => json.isFinite bits = true) l
  | _ => True
  end.

Definition allFinite (l : list attribute.KeyValue) : Prop :=
  Forall (fun a => finite (attribute.Val a)) l.

(** A raw span none of whose attributes (of the span, of its resource,
    of its events and of its links) holds a NaN or an infinity. *)
Definition finiteSpan (raw : sdktrace.ReadOnlySpan) : Prop :=
  allFinite (sdktrace.Resource raw) /\
  allFinite (sdktrace.Attributes raw) /\
  Forall (fun e => allFinite (sdktrace.EventAttributes e)) (sdktrace.Events raw) /\
  Forall (fun l => allFinite (sdktrace.LinkAttributes l)) (sdktrace.Links raw).

(** The key under which the row of a raw span is stored. *)
Definition rawKey (raw : sdktrace.ReadOnlySpan) : list Byte.byte * list Byte.byte :=
  (sdktrace.SpanID (sdktrace.Context raw), sdktrace.TraceID (sdktrace.Context raw)).

(** The values [transformAttributes] puts for finite attributes: a
    string, an integer, a boolean, a finite double, or a slice of
    these. *)
Definition scalar (v : pcommon.Value) : Prop :=
  match v with
  | pcommon.ValueDouble bits => json.isFinite bits = true
  | pcommon.ValueSlice _ | pcommon.ValueMap _ => False
  | _ => True
  end.

Definition flat (v : pcommon.Value) : Prop :=
  match v with
  | pcommon.ValueSlice l => Forall scalar l
  | pcommon.ValueMap _ => False
  | _ => scalar v
  end.


End attrs.

Module batch.

(** The scope lists of the resource nodes of a batch, the Scope nodes
    of a batch and its Span nodes, resource by resource and scope by
    scope. *)
Definition scopeLists (t : ptrace.Traces) : list (list ptrace.ScopeSpans) :=
  ptrace.ScopeSpansSlice <$> t.

Definition scopeNodes (t : ptrace.Traces) : list ptrace.ScopeSpans :=
  concat (scopeLists t).

Definition spanNodes (t : ptrace.Traces) : list ptrace.Span :=
  concat (ptrace.Spans <$> scopeNodes t).

(** A scope handle points to a Scope node of the tree. *)
Definition validScope (t : ptrace.Traces) (h : nat * nat) : Prop :=
  exists l, scopeLists t !! h.1 = Some l /\ (h.2 < length l)%nat.

(** Every handle kept in the two maps of [Spans] points to a node of
    the output tree. *)
Definition handlesValid (st : transform.State) : Prop :=
  (forall h ri, transform.resMap st !! h = Some ri ->
     (ri < length (transform.rss st))%nat) /\
  (forall h ss, transform.scopeMap st !! h = Some ss ->
     validScope (transform.rss st) ss).

(** [W'] has the scope lists of [W], possibly longer, and possibly
    more of them. *)
Definition extends (W W' : list (list ptrace.ScopeSpans)) : Prop :=
  forall i l, W !! i = Some l ->
    exists l', W' !! i = Some l' /\ (length l <= length l')%nat.

(** A Scope node as [AppendEmpty] leaves it: no name, no version, no
    attribute. *)
Definition scopeUnset (ss : ptrace.ScopeSpans) : Prop :=
  ptrace.Scope ss = ptrace.Scope ptrace.emptyScopeSpans.

(** The span node that [Spans] fills from a raw span. *)
Definition filled (raw : sdktrace.ReadOnlySpan) (sp : ptrace.Span) : Prop :=
  exists code,
    transform.statusCode (sdktrace.Code (sdktrace.SpanStatus raw)) = Some code /\
    sp = transform.fillSpan raw code.

End batch.

Module store.

Import sqliteexporter.

(** [db.Close()]: the handle refuses every later call. *)
Definition Close (db : sql.DB) : sql.DB :=
  {| sql.tables := sql.tables db; sql.prepares := sql.prepares db;
     sql.maxOpen := sql.maxOpen db; sql.inUse := sql.inUse db;
     sql.closed := true |}.

(** [db.SetMaxOpenConns(n)]. *)
Definition SetMaxOpenConns (n : nat) (db : sql.DB) : sql.DB :=
  {| sql.tables := sql.tables db; sql.prepares := sql.prepares db;
     sql.maxOpen := n; sql.inUse := sql.inUse db;
     sql.closed := sql.closed db |}.

(** [Shutdown]: [return e.db.Close()]. *)
Definition Shutdown (db : sql.DB) : sql.DB := Close db.

(** [respects R m]: whatever [m] returns, the tables it leaves are
    related by [R] to those it started from. *)
Definition respects (R : sql.Tables -> sql.Tables -> Prop) {A} (m : M A) : Prop :=
  forall tx tx' r, m tx = (tx', r) -> R tx tx'.

(** The three tables only gain rows, at their end. *)
Definition appended (tx tx' : sql.Tables) : Prop :=
  (exists new, sql.spans tx' = sql.spans tx ++ new) /\
  (exists new, sql.events tx' = sql.events tx ++ new) /\
  (exists new, sql.links tx' = sql.links tx ++ new).

(** The rows that [events] and [links] gain satisfy [P] and [Q]. *)
Definition gains (P : events.Row -> Prop) (Q : links.Row -> Prop)
    (tx tx' : sql.Tables) : Prop :=
  (exists new, sql.events tx' = sql.events tx ++ new /\ Forall P new) /\
  (exists new, sql.links tx' = sql.links tx ++ new /\ Forall Q new).

(** The primary key of a row of [spans], and the tables in which no two
    rows of [spans] have the same key. *)
Definition key (r : spans.Row) : list Byte.byte * list Byte.byte :=
  (spans.span_id r, spans.trace_id r).

Definition uniqueKeys (tx : sql.Tables) : Prop := NoDup (key <$> sql.spans tx).

(** The key under which a Span node is stored. *)
Definition spanKey (span : ptrace.Span) : list Byte.byte * list Byte.byte :=
  (ptrace.SpanID span, ptrace.TraceID span).

(** The rows that [spans] gains have keys that differ from one another
    and from the keys that were there. *)
Definition fresh (tx tx' : sql.Tables) : Prop :=
  exists new, sql.spans tx' = sql.spans tx ++ new /\
    NoDup (key <$> new) /\
    forall r, r ∈ new -> key r ∉ key <$> sql.spans tx.

(** The Span nodes of a batch with the Resource and Scope nodes that
    hold them, and its Event and Link nodes with the Span node that
    holds them, in the order of the three nested loops. *)
Definition spanTriples (traces : ptrace.Traces)
    : list (ptrace.ResourceSpans * ptrace.ScopeSpans * ptrace.Span) :=
  concat ((fun resource =>
             concat ((fun scope => (fun span => (resource, scope, span)) <$> ptrace.Spans scope)
                       <$> ptrace.ScopeSpansSlice resource))
            <$> traces).

Definition eventPairs (traces : ptrace.Traces) : list (ptrace.Span * ptrace.SpanEvent) :=
  concat ((fun span => (fun event => (span, event)) <$> ptrace.Events span)
            <$> batch.spanNodes traces).

Definition linkPairs (traces : ptrace.Traces) : list (ptrace.Span * ptrace.SpanLink) :=
  concat ((fun span => (fun link => (span, link)) <$> ptrace.Links span)
            <$> batch.spanNodes traces).

(** [runs ks m]: from tables in which none of the keys [ks], which
    differ from one another, is the key of a row of [spans], [m] ends
    without an error and has added rows with the keys [ks] to [spans]. *)
Definition runs (ks : list (list Byte.byte * list Byte.byte)) {A} (m : M A) : Prop :=
  forall tx, NoDup ks -> (forall k, k ∈ ks -> k ∉ key <$> sql.spans tx) ->
    exists tx' a, m tx = (tx', inr a) /\
                  key <$> sql.spans tx' = (key <$> sql.spans tx) ++ ks.

(** [refuses ks m], for the keys [ks] of the spans that [m] inserts, in
    order: [m] inserts no span and ends without an error, or the first
    key is the key of a row of [spans] and [m] stops on the refused
    insert; the tables are left as they were. *)
Definition refuses (ks : list (list Byte.byte * list Byte.byte)) {A} (m : M A) : Prop :=
  forall tx,
    match ks with
    | [] => exists a, m tx = (tx, inr a)
    | k :: _ => k ∈ key <$> sql.spans tx -> m tx = (tx, inl ErrInsertSpan)
    end.

(** [emits proj R xs m]: when [m] ends without an error, the table
    [proj] has gained one row for each element of [xs], in order, each
    related to its element by [R]. *)
Definition emits {Row X} (proj : sql.Tables -> list Row) (R : X -> Row -> Prop)
    (xs : list X) {A} (m : M A) : Prop :=
  forall tx tx' a, m tx = (tx', inr a) ->
    exists new, proj tx' = proj tx ++ new /\ Forall2 R xs new.

(** The time columns of the row of a span: the timestamps are read as
    signed 64-bit nanoseconds and divided by 1000 towards zero, the
    duration is their difference, kept within the range of an [int64],
    divided in the same way; below 2^63 these are the plain quotients,
    and 5ms give 5000. *)
Definition microseconds (span : ptrace.Span) (row : spans.Row) : Prop :=
  let t0 := ptrace.StartTimestamp span in
  let t1 := ptrace.EndTimestamp span in
  spans.start_time row = Z.quot (int64 t0) 1000 /\
  spans.end_time row = Z.quot (int64 t1) 1000 /\
  spans.__duration row = Z.quot (Sub (int64 t1) (int64 t0)) 1000 /\
  (0 <= t0 < 2 ^ 63 -> 0 <= t1 < 2 ^ 63 ->
     spans.start_time row = t0 / 1000 /\
     spans.end_time row = t1 / 1000 /\
     spans.__duration row = Z.quot (t1 - t0) 1000) /\
  (0 <= t0 -> t1 = t0 + 5000000 -> t1 < 2 ^ 63 ->
     spans.__duration row = 5000).

(** The identifier columns of the row of a span. *)
Definition identifiers (span : ptrace.Span) (row : spans.Row) : Prop :=
  spans.span_id row = ptrace.SpanID span /\
  spans.trace_id row = ptrace.TraceID span /\
  (Forall (fun b => b = Byte.x00) (ptrace.ParentSpanID span) ->
     spans.parent_span_id row = None) /\
  (Exists (fun b => b <> Byte.x00) (ptrace.ParentSpanID span) ->
     spans.parent_span_id row = Some (ptrace.ParentSpanID span)).

Section Rows.

Variable floatText : Z -> string.
Variable bytesText : string -> string.

(** [row] is the row inserted for an event, and for a link, of a span
    of the batch. *)
Definition eventRowOf (traces : ptrace.Traces) (row : events.Row) : Prop :=
  exists span event attrs,
    span ∈ batch.spanNodes traces /\
    event ∈ ptrace.Events span /\
    pcommonMapAsJSON floatText bytesText (ptrace.EventAttributes event) = Some attrs /\
    row = eventRow (ptrace.SpanID span) attrs event.

Definition linkRowOf (traces : ptrace.Traces) (row : links.Row) : Prop :=
  exists span link attrs,
    span ∈ batch.spanNodes traces /\
    link ∈ ptrace.Links span /\
    pcommonMapAsJSON floatText bytesText (ptrace.LinkAttributes link) = Some attrs /\
    row = linkRow (ptrace.SpanID span) attrs link.

(** The batches all of whose attribute maps can be written as JSON. *)
Definition marshalsSpan (span : ptrace.Span) : Prop :=
  is_Some (pcommonMapAsJSON floatText bytesText (ptrace.Attributes span)) /\
  Forall (fun event =>
            is_Some (pcommonMapAsJSON floatText bytesText (ptrace.EventAttributes event)))
         (ptrace.Events span) /\
  Forall (fun link =>
            is_Some (pcommonMapAsJSON floatText bytesText (ptrace.LinkAttributes link)))
         (ptrace.Links span).

Definition marshalsScope (scope : ptrace.ScopeSpans) : Prop :=
  is_Some (pcommonMapAsJSON floatText bytesText
             (ptrace.ScopeAttributes (ptrace.Scope scope))) /\
  Forall marshalsSpan (ptrace.Spans scope).

Definition marshalsResource (resource : ptrace.ResourceSpans) : Prop :=
  is_Some (pcommonMapAsJSON floatText bytesText
             (ptrace.ResourceAttributes (ptrace.Res resource))) /\
  Forall marshalsScope (ptrace.ScopeSpansSlice resource).

Definition marshals (traces : ptrace.Traces) : Prop := Forall marshalsResource traces.

(** An attribute map that the inserts accept: its values are scalars
    (no NaN, no infinity) or slices of scalars, so that [json.Marshal]
    writes it, and its JSON text is not taken for JSONB by [json(?)]. *)
Definition plain (m : pcommon.Map) : Prop :=
  Forall (fun e => attrs.flat e.2) m /\
  forall text, pcommonMapAsJSON floatText bytesText m = Some text ->
               sql.looksLikeJSONB text = false.

(** The batches all of whose attribute maps are accepted. *)
Definition bindsSpan (span : ptrace.Span) : Prop :=
  plain (ptrace.Attributes span) /\
  Forall (fun event => plain (ptrace.EventAttributes event)) (ptrace.Events span) /\
  Forall (fun link => plain (ptrace.LinkAttributes link)) (ptrace.Links span).

Definition bindsScope (scope : ptrace.ScopeSpans) : Prop :=
  plain (ptrace.ScopeAttributes (ptrace.Scope scope)) /\
  Forall bindsSpan (ptrace.Spans scope).

Definition bindsResource (resource : ptrace.ResourceSpans) : Prop :=
  plain (ptrace.ResourceAttributes (ptrace.Res resource)) /\
  Forall bindsScope (ptrace.ScopeSpansSlice resource).

Definition binds (traces : ptrace.Traces) : Prop := Forall bindsResource traces.

(** The attribute lists of a raw span whose JSON text, once they are
    transformed, is not taken for JSONB. *)
Definition textual (l : list attribute.KeyValue) : Prop :=
  forall text,
    pcommonMapAsJSON floatText bytesText (transform.transformAttributes l) = Some text ->
    sql.looksLikeJSONB text = false.

Definition textualSpan (raw : sdktrace.ReadOnlySpan) : Prop :=
  textual (sdktrace.Resource raw) /\
  textual (sdktrace.Attributes raw) /\
  Forall (fun e => textual (sdktrace.EventAttributes e)) (sdktrace.Events raw) /\
  Forall (fun l => textual (sdktrace.LinkAttributes l)) (sdktrace.Links raw).

(** The row of a Span node, of an Event node and of a Link node. *)
Definition spanRowFor (traces : ptrace.Traces)
    (x : ptrace.ResourceSpans * ptrace.ScopeSpans * ptrace.Span) (row : spans.Row) : Prop :=
  rowOf floatText bytesText traces x.1.1 x.1.2 x.2 row.

Definition eventRowFor (x : ptrace.Span * ptrace.SpanEvent) (row : events.Row) : Prop :=
  exists attrs,
    pcommonMapAsJSON floatText bytesText (ptrace.EventAttributes x.2) = Some attrs /\
    row = eventRow (ptrace.SpanID x.1) attrs x.2.

Definition linkRowFor (x : ptrace.Span * ptrace.SpanLink) (row : links.Row) : Prop :=
  exists attrs,
    pcommonMapAsJSON floatText bytesText (ptrace.LinkAttributes x.2) = Some attrs /\
    row = linkRow (ptrace.SpanID x.1) attrs x.2.

End Rows.

End store.

(* ===================================================================== *)
(** * Properties of the normalizer                                         *)
(* ===================================================================== *)

Section NormalizerFacts.

Import sdktrace transform.

Variable emitOther : attribute.Value -> string.

Local Abbreviation hashResource := (transform.hashResource emitOther).
Local Abbreviation step := (transform.step emitOther).
Local Abbreviation loop := (transform.loop emitOther).
Local Abbreviation Spans := (transform.Spans emitOther).

Lemma statusCode_known c : knownCode c <-> exists code, statusCode c = Some code.
Proof.
  unfold knownCode, statusCode, codes.Unset, codes.Ok, codes.Error.
  destruct (Z.eqb_spec c 0); [split; eauto|].
  destruct (Z.eqb_spec c 2); [split; eauto|].
  destruct (Z.eqb_spec c 1); [split; eauto|].
  split; [lia | intros [code H]; discriminate].
Qed.

Lemma step_returns st s :
  (exists st', step st s = Returned st') <->
  knownCode (Code (SpanStatus s)).
Proof.
  rewrite statusCode_known. unfold transform.step.
  destruct (resMap st !! _); destruct (scopeMap st !! _);
    destruct (statusCode _); split; intros [x H]; eauto; discriminate.
Qed.

Lemma loop_returns sdl : forall st,
  (exists st', loop st sdl = Returned st') <->
  Forall (fun s => knownCode (Code (SpanStatus s))) sdl.
Proof.
  induction sdl as [|s sdl IH]; intros st; simpl.
  - split; [constructor | eauto].
  - rewrite Forall_cons, <- (step_returns st s).
    destruct (step st s) as [st1|msg] eqn:E.
    + rewrite IH. split; [intros H; split; eauto | tauto].
    + split; [intros [? ?]; discriminate | intros [[? ?] _]; discriminate].
Qed.

Lemma step_first s code :
  statusCode (Code (SpanStatus s)) = Some code ->
  step initState s =
  Returned (grouped (transformAttributes (Resource s))
              (hashResource (Resource s)) (hashScope (InstrumentationScope s))
              [fillSpan s code]).
Proof.
  intros H. unfold transform.step, initState, grouped.
  cbn [rss resMap scopeMap]. rewrite !lookup_empty, H, !insert_empty.
  reflexivity.
Qed.

Lemma step_grouped ra hr hs sps s code :
  hashResource (Resource s) = hr ->
  hashScope (InstrumentationScope s) = hs ->
  statusCode (Code (SpanStatus s)) = Some code ->
  step (grouped ra hr hs sps) s =
  Returned (grouped (transformAttributes (Resource s)) hr hs (sps ++ [fillSpan s code])).
Proof.
  intros <- <- H. unfold transform.step, grouped.
  cbn [rss resMap scopeMap]. rewrite !lookup_singleton_eq, H.
  reflexivity.
Qed.

(** The scope map is not reset between resources: a second span with
    another resource fingerprint and the same scope fingerprint is put
    under the scope node of the first resource, and its own resource
    node is left without a scope node. *)
Lemma Spans_scope_reused s1 s2 c1 c2 :
  hashResource (Resource s1) <> hashResource (Resource s2) ->
  hashScope (InstrumentationScope s1) = hashScope (InstrumentationScope s2) ->
  statusCode (Code (SpanStatus s1)) = Some c1 ->
  statusCode (Code (SpanStatus s2)) = Some c2 ->
  Spans [s1; s2] =
  Returned
    [ {| ptrace.Res := {| ptrace.ResourceAttributes := transformAttributes (Resource s1);
                          ptrace.ResourceDroppedAttributesCount := 0 |};
         ptrace.ScopeSpansSlice :=
           [ {| ptrace.Scope := ptrace.Scope ptrace.emptyScopeSpans;
                ptrace.Spans := [fillSpan s1 c1; fillSpan s2 c2] |} ] |};
      {| ptrace.Res := {| ptrace.ResourceAttributes := transformAttributes (Resource s2);
                          ptrace.ResourceDroppedAttributesCount := 0 |};
         ptrace.ScopeSpansSlice := [] |} ].
Proof.
  intros Hr Hs H1 H2. unfold transform.Spans. cbn [transform.loop].
  rewrite (step_first s1 c1 H1). unfold transform.step, grouped.
  cbn [rss resMap scopeMap].
  rewrite lookup_singleton_ne by exact Hr.
  rewrite Hs, lookup_singleton_eq, H2. reflexivity.
Qed.

Lemma loop_grouped rest : forall ra hr hs sps st',
  Forall (fun s => transformAttributes (Resource s) = ra /\
                   hashResource (Resource s) = hr /\
                   hashScope (InstrumentationScope s) = hs) rest ->
  loop (grouped ra hr hs sps) rest = Returned st' ->
  exists tail,
    st' = grouped ra hr hs (sps ++ tail) /\
    Forall2 (fun raw sp => exists code,
               statusCode (Code (SpanStatus raw)) = Some code /\
               sp = fillSpan raw code) rest tail.
Proof.
  induction rest as [|s rest IH]; intros ra hr hs sps st' Hall Hloop.
  - exists []. simpl in Hloop. injection Hloop as <-.
    rewrite app_nil_r. split; [reflexivity | constructor].
  - apply Forall_cons in Hall as [(Hra & Hhr & Hhs) Hall].
    simpl in Hloop.
    destruct (statusCode (Code (SpanStatus s))) as [code|] eqn:Hcode.
    + rewrite (step_grouped ra hr hs sps s code Hhr Hhs Hcode), Hra in Hloop.
      destruct (IH _ _ _ _ _ Hall Hloop) as (tail & -> & Htail).
      exists (fillSpan s code :: tail). rewrite <- app_assoc. split; [reflexivity|].
      constructor; eauto.
    + assert (Hnone : step (grouped ra hr hs sps) s = Panic "unreachable").
      { unfold transform.step. rewrite Hcode.
        destruct (resMap _ !! _); destruct (scopeMap _ !! _); reflexivity. }
      rewrite Hnone in Hloop. discriminate.
Qed.

(** What an iteration does to the resource map and to the number of
    resource nodes. *)
Lemma step_resMap st s st' :
  step st s = Returned st' ->
  (resMap st !! hashResource (Resource s) = None /\
   resMap st' = <[hashResource (Resource s) := length (rss st)]> (resMap st) /\
   length (rss st') = S (length (rss st))) \/
  (is_Some (resMap st !! hashResource (Resource s)) /\
   resMap st' = resMap st /\
   length (rss st') = length (rss st)).
Proof.
  unfold transform.step. intros H.
  destruct (resMap st !! _) as [r|] eqn:Hr;
    destruct (scopeMap st !! _); destruct (statusCode _); try discriminate;
    injection H as <-; cbn [rss resMap];
    rewrite ?length_alter, ?length_app; simpl;
    [right | right | left | left]; repeat split; eauto; lia.
Qed.

Lemma loop_count sdl : forall st st',
  length (rss st) = size (resMap st) ->
  loop st sdl = Returned st' ->
  length (rss st') = size (resMap st') /\
  dom (resMap st') =
    dom (resMap st) ∪ list_to_set ((fun s => hashResource (Resource s)) <$> sdl).
Proof.
  induction sdl as [|s sdl IH]; intros st st' Hlen Hloop; simpl in Hloop.
  - injection Hloop as <-. split; [assumption | set_solver].
  - destruct (step st s) as [st1|] eqn:Hstep; [|discriminate].
    destruct (step_resMap _ _ _ Hstep) as [(Hnone & Hmap & Hl)|(Hsome & Hmap & Hl)].
    + destruct (IH st1 st') as [H1 H2]; [|assumption|].
      * rewrite Hl, Hmap, map_size_insert_None by assumption. congruence.
      * split; [assumption|]. rewrite H2, Hmap, dom_insert_L.
        rewrite fmap_cons, list_to_set_cons. set_solver.
    + destruct (IH st1 st') as [H1 H2]; [congruence|assumption|].
      split; [assumption|]. rewrite H2, Hmap.
      rewrite fmap_cons, list_to_set_cons.
      apply elem_of_dom in Hsome. set_solver.
Qed.

Lemma step_dropped st s st' :
  Forall ptrace.zeroDropped (rss st) ->
  step st s = Returned st' ->
  Forall ptrace.zeroDropped (rss st').
Proof.
  unfold transform.step. intros Hall H.
  assert (Hnew : Forall ptrace.zeroDropped (rss st ++ [ptrace.emptyResourceSpans])).
  { apply Forall_app. split; [assumption | repeat constructor]. }
  destruct (resMap st !! _); destruct (scopeMap st !! _);
    destruct (statusCode _); try discriminate; injection H as <-; cbn [rss];
    repeat (apply Forall_alter; [|intros x _ Hx; exact Hx || reflexivity]);
    assumption.
Qed.

Lemma loop_dropped sdl : forall st st',
  Forall ptrace.zeroDropped (rss st) ->
  loop st sdl = Returned st' ->
  Forall ptrace.zeroDropped (rss st').
Proof.
  induction sdl as [|s sdl IH]; intros st st' Hall Hloop; simpl in Hloop.
  - injection Hloop as <-. assumption.
  - destruct (step st s) as [st1|] eqn:Hstep; [|discriminate].
    eauto using step_dropped.
Qed.

Lemma Spans_dropped sdl b :
  Spans sdl = Returned b -> Forall ptrace.zeroDropped b.
Proof.
  unfold transform.Spans. intros H.
  destruct (loop initState sdl) as [st|] eqn:Hloop; [|discriminate].
  injection H as <-. eapply loop_dropped; [|eassumption]. constructor.
Qed.

(** The fingerprints of the resources of a batch. *)
Local Abbreviation fingerprints sdl :=
  (list_to_set ((fun s => hashResource (Resource s)) <$> sdl) : gset Z).

(** C5 (amended). [Spans] is a function of its input, and it returns a
    batch exactly when every span of the input carries one of the three
    status codes Unset, Ok, Error; on any other status-code value it
    takes the [default] branch and panics. *)
Theorem C5_Spans_returns_iff_known_codes (sdl : list ReadOnlySpan) :
  (exists b, Spans sdl = Returned b) <->
  Forall (fun s => knownCode (Code (SpanStatus s))) sdl.
Proof.
  rewrite <- (loop_returns sdl initState). unfold transform.Spans.
  destruct (loop initState sdl) as [st|msg]; split; intros [x H];
    eauto; discriminate.
Qed.

(** C3 (amended). For a batch of N >= 1 raw spans, a first one and the
    rest, that all share the same resource attribute set and the same
    scope identity, the batch returned by [Spans] is one Resource node,
    which carries the shared attribute set and holds one Scope node,
    which holds N Span nodes, the i-th filled from the i-th raw span. *)
Theorem C3_one_resource_one_scope
    (s : ReadOnlySpan) (rest : list ReadOnlySpan) (b : ptrace.Traces) :
  Forall (fun s' => Resource s' = Resource s /\
                    InstrumentationScope s' = InstrumentationScope s) rest ->
  Spans (s :: rest) = Returned b ->
  exists rs ss,
    b = [rs] /\
    ptrace.ResourceAttributes (ptrace.Res rs) = transformAttributes (Resource s) /\
    ptrace.ScopeSpansSlice rs = [ss] /\
    length (ptrace.Spans ss) = length (s :: rest) /\
    Forall2 (fun raw sp => exists code,
               statusCode (Code (SpanStatus raw)) = Some code /\
               sp = fillSpan raw code) (s :: rest) (ptrace.Spans ss).
Proof.
  intros Hsame Hret.
  assert (Hknown : knownCode (Code (SpanStatus s))).
  { assert (Hall : Forall (fun s => knownCode (Code (SpanStatus s))) (s :: rest))
      by (apply loop_returns with (st := initState); unfold transform.Spans in Hret;
          destruct (loop initState (s :: rest)); [eauto | discriminate]).
    apply Forall_cons in Hall as [Hs _]. exact Hs. }
  apply statusCode_known in Hknown as [code Hcode].
  unfold transform.Spans in Hret. simpl in Hret.
  rewrite (step_first s code Hcode) in Hret.
  destruct (loop _ rest) as [st|] eqn:Hloop; [|discriminate].
  injection Hret as <-.
  apply loop_grouped in Hloop as (tail & -> & Htail).
  - eexists _, _. repeat split; cbn [rss grouped ptrace.Res
      ptrace.ResourceAttributes ptrace.ScopeSpansSlice ptrace.Spans app].
    + simpl. f_equal. symmetry. eapply Forall2_length. eassumption.
    + constructor; eauto.
  - eapply Forall_impl; [exact Hsame|]. intros s' [-> ->]. auto.
Qed.

(** C4 (amended). [Spans] keeps one Resource node per distinct resource
    fingerprint (the FNV-1a hash of the encoded attribute set): the
    number of Resource nodes of the returned batch is the number of
    distinct fingerprints in the input, so two raw spans of a batch
    whose fingerprints differ give at least two Resource nodes, and two
    attribute sets with one fingerprint share a node. *)
Theorem C4_one_node_per_fingerprint (sdl : list ReadOnlySpan) (b : ptrace.Traces) :
  Spans sdl = Returned b ->
  length b = size (fingerprints sdl) /\
  (forall s1 s2, s1 ∈ sdl -> s2 ∈ sdl ->
     hashResource (Resource s1) <> hashResource (Resource s2) ->
     (2 <= length b)%nat).
Proof.
  unfold transform.Spans. intros H.
  destruct (loop initState sdl) as [st|] eqn:Hloop; [|discriminate].
  injection H as <-.
  apply loop_count in Hloop as [Hlen Hdom]; [|reflexivity].
  assert (Hsize : length (rss st) = size (fingerprints sdl)).
  { rewrite Hlen, <- size_dom, Hdom. cbn [initState resMap].
    rewrite dom_empty_L, (left_id_L ∅ (∪)). reflexivity. }
  split; [exact Hsize|].
  intros s1 s2 H1 H2 Hne. rewrite Hsize.
  assert (Hsub : ({[hashResource (Resource s1)]} ∪ {[hashResource (Resource s2)]} : gset Z)
                 ⊆ fingerprints sdl).
  { apply union_subseteq. split; apply singleton_subseteq_l, elem_of_list_to_set,
      list_elem_of_fmap; eauto. }
  apply subseteq_size in Hsub.
  rewrite size_union, !size_singleton in Hsub by set_solver. exact Hsub.
Qed.

End NormalizerFacts.

(* ===================================================================== *)
(** * Properties of the persister                                          *)
(* ===================================================================== *)

(** What a statement that is carried out has done. *)
Lemma execSpan_Some tx r tx' :
  sql.execSpan tx r = Some tx' ->
  sql.refusedSpan r = false /\
  existsb (sql.sameKey r) (sql.spans tx) = false /\
  tx' = {| sql.spans := sql.spans tx ++ [r]; sql.events := sql.events tx;
           sql.links := sql.links tx |}.
Proof.
  unfold sql.execSpan. destruct (sql.refusedSpan r); [discriminate|].
  destruct (existsb _ _); [discriminate|]. intros H. injection H as <-. auto.
Qed.

Lemma execEvent_Some tx r tx' :
  sql.execEvent tx r = Some tx' ->
  sql.looksLikeJSONB (events.attributes r) = false /\
  tx' = {| sql.spans := sql.spans tx; sql.events := sql.events tx ++ [r];
           sql.links := sql.links tx |}.
Proof.
  unfold sql.execEvent. destruct (sql.looksLikeJSONB _); [discriminate|].
  intros H. injection H as <-. auto.
Qed.

Lemma execLink_Some tx r tx' :
  sql.execLink tx r = Some tx' ->
  sql.looksLikeJSONB (links.attributes r) = false /\
  tx' = {| sql.spans := sql.spans tx; sql.events := sql.events tx;
           sql.links := sql.links tx ++ [r] |}.
Proof.
  unfold sql.execLink. destruct (sql.looksLikeJSONB _); [discriminate|].
  intros H. injection H as <-. auto.
Qed.

Ltac exec_inv H :=
  first [ apply execSpan_Some in H as (_ & _ & ->)
        | apply execEvent_Some in H as (_ & ->)
        | apply execLink_Some in H as (_ & ->) ].

Section PersisterFacts.

Import sqliteexporter.

Variable floatText : Z -> string.
Variable bytesText : string -> string.

Local Abbreviation pcommonMapAsJSON := (sqliteexporter.pcommonMapAsJSON floatText bytesText).
Local Abbreviation ConsumeTraces := (sqliteexporter.ConsumeTraces floatText bytesText).
Local Abbreviation rowOf := (sqliteexporter.rowOf floatText bytesText).

Section Keeps.

Variable P : spans.Row -> Prop.

Lemma grows_refl tx : grows P tx tx.
Proof. exists []. rewrite app_nil_r. split; [reflexivity | constructor]. Qed.

Lemma grows_trans tx1 tx2 tx3 :
  grows P tx1 tx2 -> grows P tx2 tx3 -> grows P tx1 tx3.
Proof.
  intros (n1 & E1 & F1) (n2 & E2 & F2). exists (n1 ++ n2).
  rewrite E2, E1, app_assoc. split; [reflexivity | apply Forall_app; auto].
Qed.

Lemma grows_same tx tx' : sql.spans tx' = sql.spans tx -> grows P tx tx'.
Proof. intros E. exists []. rewrite app_nil_r. split; [exact E | constructor]. Qed.

Lemma keeps_ret {A} (a : A) : keeps P (ret a).
Proof. intros tx tx' r H. injection H as <- _. apply grows_refl. Qed.

Lemma keeps_bind {A B} (m : M A) (k : A -> M B) :
  keeps P m -> (forall a, keeps P (k a)) -> keeps P (bind m k).
Proof.
  intros Hm Hk tx tx' r H. unfold bind in H.
  destruct (m tx) as [tx1 [e|a]] eqn:E.
  - injection H as <- _. eapply Hm; eassumption.
  - eapply grows_trans; [eapply Hm | eapply Hk]; eassumption.
Qed.

Lemma keeps_try_bind {A B} e (o : option A) (k : A -> M B) :
  (forall a, o = Some a -> keeps P (k a)) -> keeps P (bind (try e o) k).
Proof.
  intros Hk tx tx' r H. unfold bind, try in H. destruct o as [a|].
  - eapply Hk; [reflexivity | eassumption].
  - injection H as <- _. apply grows_refl.
Qed.

Lemma keeps_prepare prepares q e : keeps P (PrepareContext prepares q e).
Proof.
  intros tx tx' r H. unfold PrepareContext in H.
  destruct (prepares q); injection H as <- _; apply grows_refl.
Qed.

Lemma keeps_execEvent row e : keeps P (ExecContext sql.execEvent row e).
Proof.
  intros tx tx' r H. unfold ExecContext in H.
  destruct (sql.execEvent tx row) as [tx1|] eqn:E; injection H as <- _;
    [exec_inv E; apply grows_same; reflexivity | apply grows_refl].
Qed.

Lemma keeps_execLink row e : keeps P (ExecContext sql.execLink row e).
Proof.
  intros tx tx' r H. unfold ExecContext in H.
  destruct (sql.execLink tx row) as [tx1|] eqn:E; injection H as <- _;
    [exec_inv E; apply grows_same; reflexivity | apply grows_refl].
Qed.

Lemma keeps_execSpan row e : P row -> keeps P (ExecContext sql.execSpan row e).
Proof.
  intros Hrow tx tx' r H. unfold ExecContext in H.
  destruct (sql.execSpan tx row) as [tx1|] eqn:E; injection H as <- _.
  - exec_inv E. exists [row]. split; [reflexivity | repeat constructor; assumption].
  - apply grows_refl.
Qed.

Lemma keeps_forEach {A} (xs : list A) (body : A -> M unit) :
  (forall x, x ∈ xs -> keeps P (body x)) -> keeps P (forEach xs body).
Proof.
  induction xs as [|x xs IH]; intros Hbody; simpl.
  - apply keeps_ret.
  - apply keeps_bind.
    + apply Hbody, list_elem_of_here.
    + intros _. apply IH. intros y Hy. apply Hbody, list_elem_of_further, Hy.
Qed.

Lemma keeps_insertEvent prepares spanidbs event :
  keeps P (insertEvent floatText bytesText prepares spanidbs event).
Proof.
  apply keeps_try_bind. intros attrs _.
  apply keeps_bind; [apply keeps_prepare | intros _; apply keeps_execEvent].
Qed.

Lemma keeps_insertLink prepares spanidbs link :
  keeps P (insertLink floatText bytesText prepares spanidbs link).
Proof.
  apply keeps_try_bind. intros attrs _.
  apply keeps_bind; [apply keeps_prepare | intros _; apply keeps_execLink].
Qed.

End Keeps.

Lemma keeps_insertTraces prepares traces :
  keeps (fun row => exists resource scope span, rowOf traces resource scope span row)
        (insertTraces floatText bytesText prepares traces).
Proof.
  apply keeps_forEach. intros resource Hres.
  apply keeps_try_bind. intros rattrs Hrattrs.
  apply keeps_forEach. intros scope Hscope.
  apply keeps_try_bind. intros sattrs Hsattrs.
  apply keeps_forEach. intros span Hspan.
  apply keeps_bind; [apply keeps_prepare | intros _].
  apply keeps_try_bind. intros attrs Hattrs.
  apply keeps_bind.
  - apply keeps_execSpan. exists resource, scope, span.
    repeat split; try assumption. exists rattrs, sattrs, attrs. auto.
  - intros _. apply keeps_bind.
    + apply keeps_forEach. intros event _. apply keeps_insertEvent.
    + intros _. apply keeps_forEach. intros link _. apply keeps_insertLink.
Qed.

(** Every row that a call of [ConsumeTraces] adds to [spans] is the row
    of some span of the batch. *)
Lemma ConsumeTraces_rows db traces out db' :
  ConsumeTraces db traces = (out, db') ->
  grows (fun row => exists resource scope span, rowOf traces resource scope span row)
        (sql.tables db) (sql.tables db').
Proof.
  unfold sqliteexporter.ConsumeTraces, sql.Begin, sql.BeginTx. intros H.
  destruct (sql.closed db) eqn:Hclosed.
  { injection H as _ <-. apply grows_refl. }
  destruct (_ && _).
  { injection H as _ <-. apply grows_refl. }
  cbn [sql.closed sql.maxOpen sql.inUse sql.tables sql.prepares] in H.
  destruct (_ && _).
  { injection H as _ <-. apply grows_refl. }
  destruct (insertTraces _ _ _ _ _) as [tx' r] eqn:Hbody.
  injection H as _ <-. cbn [sql.Commit sql.tables].
  eapply keeps_insertTraces. eassumption.
Qed.

Lemma int64_small z : 0 <= z < 2 ^ 63 -> int64 z = z.
Proof.
  intros H. unfold int64, wrap64. rewrite Z.mod_small by lia.
  destruct (Z.ltb_spec z (2 ^ 63)); lia.
Qed.

Lemma Sub_exact t u :
  - 2 ^ 63 <= t - u <= 2 ^ 63 - 1 -> Sub t u = t - u.
Proof.
  intros H. unfold Sub.
  destruct (Z.ltb_spec (t - u) (- 2 ^ 63)); [lia|].
  destruct (Z.ltb_spec (2 ^ 63 - 1) (t - u)); lia.
Qed.

Lemma IsEmpty_true id :
  pcommon.IsEmpty id = true <-> Forall (fun b => b = Byte.x00) id.
Proof.
  unfold pcommon.IsEmpty. rewrite forallb_forall, Forall_forall.
  split; intros H b Hb.
  - apply Byte.byte_dec_bl, H, list_elem_of_In, Hb.
  - apply Byte.byte_dec_lb, H, list_elem_of_In, Hb.
Qed.

Lemma IsEmpty_false id :
  Exists (fun b => b <> Byte.x00) id -> pcommon.IsEmpty id = false.
Proof.
  intros H. destruct (pcommon.IsEmpty id) eqn:E; [|reflexivity].
  apply IsEmpty_true in E. apply Exists_exists in H as (b & Hb & Hne).
  rewrite Forall_forall in E. destruct (Hne (E b Hb)).
Qed.

(** [ConsumeTraces] commits the tables as its body leaves them, with or
    without an error: when a connection is free for the transaction and
    for the second [Begin], the committed tables are those of the body. *)
Lemma ConsumeTraces_commits_body db traces :
  sql.closed db = false ->
  sql.maxOpen db = 0%nat ->
  exists db',
    ConsumeTraces db traces =
      (Return (errorOf (insertTraces floatText bytesText (sql.prepares db) traces
                                     (sql.tables db)).2), db') /\
    sql.tables db' =
      (insertTraces floatText bytesText (sql.prepares db) traces (sql.tables db)).1.
Proof.
  intros Hclosed Hmax.
  unfold sqliteexporter.ConsumeTraces, sql.Begin, sql.BeginTx.
  rewrite Hclosed, Hmax.
  cbn [sql.closed sql.maxOpen sql.inUse sql.tables sql.prepares Nat.ltb Nat.leb andb].
  destruct (insertTraces _ _ _ _ _) as [tx' r]. eexists. split; reflexivity.
Qed.

Section Adds.

Lemma adds_ret {A} (a : A) : adds 0 (ret a).
Proof. intros tx tx' a' H. injection H as <- _. lia. Qed.

Lemma adds_bind {A B} n1 n2 (m : M A) (k : A -> M B) :
  adds n1 m -> (forall a, adds n2 (k a)) -> adds (n1 + n2) (bind m k).
Proof.
  intros Hm Hk tx tx' b H. unfold bind in H.
  destruct (m tx) as [tx1 [e|a]] eqn:E; [discriminate|].
  rewrite (Hk _ _ _ _ H), (Hm _ _ _ E). lia.
Qed.

Lemma adds_try_bind {A B} n e (o : option A) (k : A -> M B) :
  (forall a, adds n (k a)) -> adds n (bind (try e o) k).
Proof.
  intros Hk tx tx' b H. unfold bind, try in H.
  destruct o as [a|]; [|discriminate]. eapply Hk, H.
Qed.

Lemma adds_prepare_bind {B} n prepares q e (k : unit -> M B) :
  (forall a, adds n (k a)) -> adds n (bind (PrepareContext prepares q e) k).
Proof.
  intros Hk tx tx' b H. unfold bind, PrepareContext in H.
  destruct (prepares q); [|discriminate]. eapply Hk, H.
Qed.

Lemma adds_execSpan row e : adds 1 (ExecContext sql.execSpan row e).
Proof.
  intros tx tx' a H. unfold ExecContext in H.
  destruct (sql.execSpan tx row) as [tx1|] eqn:E; [|discriminate]. injection H as <- _.
  exec_inv E. cbn [sql.spans]. rewrite length_app. reflexivity.
Qed.

Lemma adds_execEvent row e : adds 0 (ExecContext sql.execEvent row e).
Proof.
  intros tx tx' a H. unfold ExecContext in H.
  destruct (sql.execEvent tx row) as [tx1|] eqn:E; [|discriminate]. injection H as <- _.
  exec_inv E. cbn [sql.spans]. lia.
Qed.

Lemma adds_execLink row e : adds 0 (ExecContext sql.execLink row e).
Proof.
  intros tx tx' a H. unfold ExecContext in H.
  destruct (sql.execLink tx row) as [tx1|] eqn:E; [|discriminate]. injection H as <- _.
  exec_inv E. cbn [sql.spans]. lia.
Qed.

Lemma adds_forEach {A} (f : A -> nat) (xs : list A) (body : A -> M unit) :
  (forall x, adds (f x) (body x)) -> adds (sum_list_with f xs) (forEach xs body).
Proof.
  intros Hbody. induction xs as [|x xs IH]; simpl.
  - apply adds_ret.
  - apply adds_bind; [apply Hbody | intros _; exact IH].
Qed.

Lemma adds_forEach_0 {A} (xs : list A) (body : A -> M unit) :
  (forall x, adds 0 (body x)) -> adds 0 (forEach xs body).
Proof.
  intros Hbody. induction xs as [|x xs IH]; simpl.
  - apply adds_ret.
  - apply (adds_bind 0 0); [apply Hbody | intros _; exact IH].
Qed.

Lemma adds_insertSpan prepares svc rattrs resource sattrs scope span :
  adds 1 (insertSpan floatText bytesText prepares svc rattrs resource sattrs scope span).
Proof.
  apply adds_prepare_bind. intros _. apply adds_try_bind. intros attrs.
  apply (adds_bind 1 0); [apply adds_execSpan | intros _].
  apply (adds_bind 0 0).
  - apply adds_forEach_0. intros event. apply adds_try_bind. intros a.
    apply adds_prepare_bind. intros _. apply adds_execEvent.
  - intros _. apply adds_forEach_0. intros link. apply adds_try_bind. intros a.
    apply adds_prepare_bind. intros _. apply adds_execLink.
Qed.

Lemma adds_insertTraces prepares traces :
  adds (spanCount traces) (insertTraces floatText bytesText prepares traces).
Proof.
  apply adds_forEach. intros resource. apply adds_try_bind. intros rattrs.
  apply adds_forEach. intros scope. apply adds_try_bind. intros sattrs.
  replace (length (ptrace.Spans scope))
    with (sum_list_with (fun _ : ptrace.Span => 1%nat) (ptrace.Spans scope)).
  - apply adds_forEach. intros span. apply adds_insertSpan.
  - induction (ptrace.Spans scope); simpl; congruence.
Qed.

End Adds.

(** When [ConsumeTraces] returns no error, it has added one row to
    [spans] for every Span node of the batch. *)
Lemma ConsumeTraces_success_count db traces db' :
  ConsumeTraces db traces = (Return None, db') ->
  length (sql.spans (sql.tables db')) =
  (length (sql.spans (sql.tables db)) + spanCount traces)%nat.
Proof.
  unfold sqliteexporter.ConsumeTraces, sql.Begin, sql.BeginTx. intros H.
  destruct (sql.closed db) eqn:Hclosed; [discriminate|].
  destruct (_ && _); [discriminate|].
  cbn [sql.closed sql.maxOpen sql.inUse sql.tables sql.prepares] in H.
  destruct (_ && _); [discriminate|].
  destruct (insertTraces _ _ _ _ _) as [tx' [e|[]]] eqn:Hbody; [discriminate|].
  injection H as <-. cbn [sql.Commit sql.tables].
  eapply adds_insertTraces, Hbody.
Qed.

(** C9 (amended). Every row that [ConsumeTraces] adds to [spans] is the
    row of a span of the batch: its [status_code] is the integer value
    of the span's status code, and its [kind] is the name that
    [ptrace.SpanKind.String] gives the span's kind, which is capitalised:
    Unspecified, Internal, Server, Client, Producer, Consumer, and the
    empty text for any other value. *)
Theorem C9_status_code_and_kind db traces out db' :
  ConsumeTraces db traces = (out, db') ->
  grows (fun row => exists resource scope span,
           rowOf traces resource scope span row /\
           spans.status_code row = ptrace.StatusCode span /\
           spans.kind row = ptrace.SpanKindString (ptrace.Kind span) /\
           (ptrace.Kind span = ptrace.SpanKindUnspecified -> spans.kind row = "Unspecified") /\
           (ptrace.Kind span = ptrace.SpanKindInternal -> spans.kind row = "Internal") /\
           (ptrace.Kind span = ptrace.SpanKindServer -> spans.kind row = "Server") /\
           (ptrace.Kind span = ptrace.SpanKindClient -> spans.kind row = "Client") /\
           (ptrace.Kind span = ptrace.SpanKindProducer -> spans.kind row = "Producer") /\
           (ptrace.Kind span = ptrace.SpanKindConsumer -> spans.kind row = "Consumer") /\
           (~ 0 <= ptrace.Kind span <= 5 -> spans.kind row = EmptyString))
        (sql.tables db) (sql.tables db').
Proof.
  intros H. destruct (ConsumeTraces_rows _ _ _ _ H) as (new & Hnew & Hall).
  exists new. split; [exact Hnew|].
  eapply Forall_impl; [exact Hall|].
  intros row (resource & scope & span & Hrow).
  exists resource, scope, span. split; [exact Hrow|].
  destruct Hrow as (_ & _ & _ & rattrs & sattrs & attrs & _ & _ & _ & ->).
  cbn [spanRow spans.status_code spans.kind].
  repeat split; try (intros ->; reflexivity).
  intros Hout. unfold ptrace.SpanKindString, ptrace.SpanKindUnspecified,
    ptrace.SpanKindInternal, ptrace.SpanKindServer, ptrace.SpanKindClient,
    ptrace.SpanKindProducer, ptrace.SpanKindConsumer.
  repeat match goal with
         | |- context [?a =? ?b] => destruct (Z.eqb_spec a b); [lia|]
         end.
  reflexivity.
Qed.

End PersisterFacts.

(* ===================================================================== *)
(** * Properties of the attribute-map serialization                        *)
(* ===================================================================== *)

Section JSONFacts.

Import json.

Lemma keyLt_trans a b c : keyLt a b -> keyLt b c -> keyLt a c.
Proof.
  unfold keyLt. intros H1 H2.
  apply String_as_OT.cmp_lt. apply String_as_OT.cmp_lt in H1, H2.
  eapply String_as_OT.lt_trans; eassumption.
Qed.

Lemma compare_Gt_keyLt a b : String.compare a b = Gt -> keyLt b a.
Proof.
  unfold keyLt. intros H. rewrite String.compare_antisym, H. reflexivity.
Qed.

Section Entries.

Context {A : Type}.
Implicit Types (m l : list (string * A)).

Lemma assign_keys m k v k' :
  k' ∈ (assign m k v).*1 <-> k' = k \/ k' ∈ m.*1.
Proof.
  induction m as [|[k0 v0] m IH]; simpl.
  - rewrite list_elem_of_singleton. set_solver.
  - destruct (String.eqb_spec k0 k) as [->|Hne]; simpl.
    + rewrite !elem_of_cons. tauto.
    + rewrite !elem_of_cons, IH. tauto.
Qed.

Lemma assign_NoDup m k v : NoDup m.*1 -> NoDup (assign m k v).*1.
Proof.
  induction m as [|[k0 v0] m IH]; simpl; intros Hnd.
  - apply NoDup_singleton.
  - apply NoDup_cons in Hnd as [Hnotin Hnd].
    destruct (String.eqb_spec k0 k) as [->|Hne]; simpl.
    + apply NoDup_cons. auto.
    + apply NoDup_cons. split; [|auto].
      rewrite assign_keys. intros [->|Hin]; [congruence | auto].
Qed.

Lemma AsRaw_from m : forall acc,
  NoDup acc.*1 ->
  let raw := fold_left (fun raw kv => assign raw kv.1 kv.2) m acc in
  NoDup raw.*1 /\ forall k, k ∈ raw.*1 <-> k ∈ acc.*1 \/ k ∈ m.*1.
Proof.
  induction m as [|[k v] m IH]; intros acc Hnd; simpl.
  - split; [assumption | set_solver].
  - destruct (IH (assign acc k v)) as [H1 H2]; [apply assign_NoDup, Hnd|].
    split; [exact H1|]. intros k'. rewrite H2, assign_keys, elem_of_cons. tauto.
Qed.

Lemma AsRaw_keys m :
  NoDup (AsRaw m).*1 /\ forall k, k ∈ (AsRaw m).*1 <-> k ∈ m.*1.
Proof.
  destruct (AsRaw_from m []) as [H1 H2]; [apply NoDup_nil_2|].
  split; [exact H1|]. intros k. unfold AsRaw. rewrite H2. set_solver.
Qed.

Lemma insertKey_keys e l k :
  k ∈ (insertKey e l).*1 <-> k = e.1 \/ k ∈ l.*1.
Proof.
  induction l as [|e' l IH]; simpl.
  - rewrite list_elem_of_singleton. set_solver.
  - destruct (String.compare e.1 e'.1); simpl; rewrite !elem_of_cons, ?IH; tauto.
Qed.

Lemma insertKey_sorted e l :
  StronglySorted keyLt l.*1 -> e.1 ∉ l.*1 ->
  StronglySorted keyLt (insertKey e l).*1.
Proof.
  induction l as [|e' l IH]; simpl; intros Hs Hnotin.
  - repeat constructor.
  - apply StronglySorted_inv in Hs as [Hs Hall].
    rewrite not_elem_of_cons in Hnotin. destruct Hnotin as [Hne Hnotin].
    destruct (String.compare e.1 e'.1) eqn:Hcmp; simpl.
    + apply String.compare_eq_iff in Hcmp. congruence.
    + constructor; [constructor; assumption|].
      constructor; [exact Hcmp|].
      eapply Forall_impl; [exact Hall|]. intros k. apply keyLt_trans, Hcmp.
    + constructor; [auto|].
      apply Forall_forall. intros k Hk. apply insertKey_keys in Hk.
      destruct Hk as [->|Hk]; [apply compare_Gt_keyLt, Hcmp|].
      rewrite Forall_forall in Hall. apply Hall, Hk.
Qed.

Lemma sortKeys_keys l k : k ∈ (sortKeys l).*1 <-> k ∈ l.*1.
Proof.
  induction l as [|e l IH]; simpl; [reflexivity|].
  rewrite insertKey_keys, elem_of_cons, IH. reflexivity.
Qed.

Lemma sortKeys_sorted l : NoDup l.*1 -> StronglySorted keyLt (sortKeys l).*1.
Proof.
  induction l as [|e l IH]; simpl; intros Hnd.
  - constructor.
  - apply NoDup_cons in Hnd as [Hnotin Hnd].
    apply insertKey_sorted; [auto|]. rewrite sortKeys_keys. exact Hnotin.
Qed.

End Entries.

Lemma collect_keys (l : list (string * option string)) es :
  collect (map (fun e => match e.2 with
                         | Some t => Some (e.1, t)
                         | None => None
                         end) l) = Some es ->
  es.*1 = l.*1.
Proof.
  revert es. induction l as [|[k [t|]] l IH]; simpl; intros es H.
  - injection H as <-. reflexivity.
  - destruct (collect _) as [r|]; [|discriminate].
    injection H as <-. simpl. f_equal. auto.
  - discriminate.
Qed.

Lemma entriesOf_keys m es :
  entriesOf m = Some es ->
  StronglySorted keyLt es.*1 /\ forall k, k ∈ es.*1 <-> k ∈ m.*1.
Proof.
  unfold entriesOf. intros H. apply collect_keys in H. rewrite H.
  destruct (AsRaw_keys m) as [Hnd Hkeys]. split.
  - apply sortKeys_sorted, Hnd.
  - intros k. rewrite sortKeys_keys. apply Hkeys.
Qed.

Variable floatText : Z -> string.
Variable bytesText : string -> string.

Local Abbreviation Marshal := (json.Marshal floatText bytesText).
Local Abbreviation pcommonMapAsJSON := (sqliteexporter.pcommonMapAsJSON floatText bytesText).

Lemma Marshal_map (m : pcommon.Map) :
  Marshal (pcommon.ValueMap m) =
  object <$> entriesOf (map (fun e => (e.1, Marshal e.2)) m).
Proof.
  simpl. do 2 f_equal.
  induction m as [|[k x] m IH]; simpl; [reflexivity | f_equal; exact IH].
Qed.

(** C7 (amended). [pcommonMapAsJSON] maps the empty attribute map to the
    text [{}], and the map that holds http.method = GET and
    http.status_code = 200 to the text
    [{"http.method":"GET","http.status_code":200}]. For every map that
    it serializes, the text is a JSON object whose keys are those of the
    map, written in strictly ascending byte-wise order, whatever the
    order in which they were inserted. *)
Theorem C7_attribute_map_json :
  pcommonMapAsJSON [] = Some "{}" /\
  pcommonMapAsJSON [("http.method", pcommon.ValueStr "GET");
                    ("http.status_code", pcommon.ValueInt 200)]
    = Some ("{" +:+ quoted "http.method" +:+ ":" +:+ quoted "GET" +:+ ","
                +:+ quoted "http.status_code" +:+ ":200}") /\
  forall (m : pcommon.Map) (text : string),
    pcommonMapAsJSON m = Some text ->
    exists entries,
      text = object entries /\
      StronglySorted keyLt entries.*1 /\
      forall k, k ∈ entries.*1 <-> k ∈ m.*1.
Proof.
  split; [reflexivity|]. split; [vm_compute; reflexivity|].
  intros m text H.
  unfold sqliteexporter.pcommonMapAsJSON, MarshalMap in H.
  rewrite Marshal_map in H.
  destruct (entriesOf _) as [entries|] eqn:He; [|discriminate].
  injection H as <-. exists entries. split; [reflexivity|].
  apply entriesOf_keys in He as [Hs Hk]. split; [exact Hs|].
  intros k. rewrite Hk, <- list_fmap_compose. reflexivity.
Qed.

End JSONFacts.

(* ===================================================================== *)
(** * Properties of the export path                                        *)
(* ===================================================================== *)

Section ExportFacts.

Import sqliteexporter.

Variable emitOther : attribute.Value -> string.
Variable floatText : Z -> string.
Variable bytesText : string -> string.

Local Abbreviation Spans := (transform.Spans emitOther).
Local Abbreviation ConsumeTraces := (sqliteexporter.ConsumeTraces floatText bytesText).
Local Abbreviation ExportSpans :=
  (sqliteexporter.ExportSpans floatText bytesText emitOther).

(** C10. Every Resource node of a batch returned by [Spans] has a
    dropped-attributes counter of zero, and every row that [ExportSpans]
    adds to [spans] has [resource_dropped_attributes_count] = 0. *)
Theorem C10_resource_dropped_count_zero (sdl : list sdktrace.ReadOnlySpan) :
  (forall b, Spans sdl = Returned b -> Forall ptrace.zeroDropped b) /\
  (forall db out db',
     ExportSpans db sdl = Returned (out, db') ->
     grows (fun row => spans.resource_dropped_attributes_count row = 0)
           (sql.tables db) (sql.tables db')).
Proof.
  split; [intros b; apply Spans_dropped|].
  intros db out db' H. unfold sqliteexporter.ExportSpans in H.
  destruct (Spans sdl) as [b|] eqn:Hb; [|discriminate].
  injection H as H. apply Spans_dropped in Hb.
  destruct (ConsumeTraces_rows _ _ _ _ _ _ H) as (new & Hnew & Hall).
  exists new. split; [exact Hnew|].
  eapply Forall_impl; [exact Hall|].
  intros row (resource & scope & span & Hres & _ & _ & rattrs & sattrs & attrs
              & _ & _ & _ & ->).
  cbn [spanRow spans.resource_dropped_attributes_count].
  rewrite Forall_forall in Hb. apply Hb, Hres.
Qed.

(** C1 (the defect). A batch of two spans with the same span and trace
    identifiers: the insert of the second row breaks the primary key of
    [spans], [ConsumeTraces] returns the error, and the deferred
    [tx.Commit()] has committed the first span's row and the row of its
    event. *)
Theorem C1_rows_committed_on_error :
  exists db',
    ConsumeTraces (sample.db 0)
      (sample.batch [sample.span Byte.x01 Byte.x00; sample.span Byte.x01 Byte.x00])
    = (Return (Some ErrInsertSpan), db') /\
    sql.spans (sql.tables (sample.db 0)) = [] /\
    spans.span_id <$> sql.spans (sql.tables db') = [sample.spanID Byte.x01] /\
    events.span_id <$> sql.events (sql.tables db') = [sample.spanID Byte.x01].
Proof.
  eexists. split; [vm_compute; reflexivity|]. repeat split.
Qed.

(** C2 (the defect). Two raw spans with the same scope identity and the
    resources [service.name=a] and [service.name=b]: the scope node
    created under the first Resource node is found again in [scopeMap]
    for the second span, so the first Resource node holds both spans and
    the second Resource node holds no Scope node; both rows are then
    persisted with the first resource's service name. *)
Theorem C2_scope_node_reused_across_resources :
  let s1 := sample.rawSpan Byte.x01 sample.serviceA codes.Unset in
  let s2 := sample.rawSpan Byte.x02 sample.serviceB codes.Unset in
  Spans [s1; s2] =
    Returned
      [ {| ptrace.Res :=
             {| ptrace.ResourceAttributes := [("service.name", pcommon.ValueStr "a")];
                ptrace.ResourceDroppedAttributesCount := 0 |};
           ptrace.ScopeSpansSlice :=
             [ {| ptrace.Scope := ptrace.Scope ptrace.emptyScopeSpans;
                  ptrace.Spans := [transform.fillSpan s1 ptrace.StatusCodeUnset;
                                   transform.fillSpan s2 ptrace.StatusCodeUnset] |} ] |};
        {| ptrace.Res :=
             {| ptrace.ResourceAttributes := [("service.name", pcommon.ValueStr "b")];
                ptrace.ResourceDroppedAttributesCount := 0 |};
           ptrace.ScopeSpansSlice := [] |} ] /\
  exists db',
    ExportSpans (sample.db 0) [s1; s2] = Returned (Return None, db') /\
    spans.__service_name <$> sql.spans (sql.tables db') = ["a"; "a"].
Proof.
  split; [vm_compute; reflexivity|].
  eexists. split; [vm_compute; reflexivity|]. reflexivity.
Qed.

End ExportFacts.

(* ===================================================================== *)
(** * Concrete instances                                                   *)
(* ===================================================================== *)

(** C3 as stated fails for N = 0: the empty batch, in which all spans
    trivially share their resource and scope, is normalized to a batch
    with no Resource node. *)
Lemma C3_counterexample_empty_batch :
  transform.Spans sample.emitOther [] = Returned [] /\
  ~ (exists rs : ptrace.ResourceSpans, [] = [rs]).
Proof.
  split; [reflexivity|]. intros [rs H]. discriminate.
Qed.

Lemma C3_witness :
  let s := sample.rawSpan Byte.x01 sample.serviceA codes.Ok in
  let s' := sample.rawSpan Byte.x02 sample.serviceA codes.Error in
  exists b,
    transform.Spans sample.emitOther [s; s'] = Returned b /\
    exists rs ss,
      b = [rs] /\
      ptrace.ResourceAttributes (ptrace.Res rs)
        = transform.transformAttributes (sdktrace.Resource s) /\
      ptrace.ScopeSpansSlice rs = [ss] /\
      length (ptrace.Spans ss) = length [s; s'] /\
      Forall2 (fun raw sp => exists code,
                 transform.statusCode (sdktrace.Code (sdktrace.SpanStatus raw)) = Some code /\
                 sp = transform.fillSpan raw code) [s; s'] (ptrace.Spans ss).
Proof.
  intros s s'. eexists. split; [vm_compute; reflexivity|].
  apply (C3_one_resource_one_scope sample.emitOther s [s']).
  - repeat constructor.
  - vm_compute. reflexivity.
Defined.

(** C4 as stated fails: the attribute sets [k = 5] (an integer) and
    [k = "5"] (a string) differ and have the same encoding, hence the
    same fingerprint; the two spans are put under one Resource node. *)
Lemma C4_counterexample_same_encoding :
  let s1 := sample.rawSpan Byte.x01 sample.intFive codes.Unset in
  let s2 := sample.rawSpan Byte.x02 sample.strFive codes.Unset in
  sdktrace.Resource s1 <> sdktrace.Resource s2 /\
  transform.Encoded sample.emitOther (sdktrace.Resource s1) = "k=5" /\
  transform.Encoded sample.emitOther (sdktrace.Resource s2) = "k=5" /\
  exists rs, transform.Spans sample.emitOther [s1; s2] = Returned [rs].
Proof.
  intros s1 s2. split; [discriminate|]. split; [reflexivity|].
  split; [reflexivity|]. eexists. vm_compute. reflexivity.
Qed.

Lemma C4_witness :
  let sdl := [sample.rawSpan Byte.x01 sample.serviceA codes.Unset;
              sample.rawSpan Byte.x02 sample.serviceB codes.Unset] in
  exists b,
    transform.Spans sample.emitOther sdl = Returned b /\
    length b =
      size (list_to_set
              ((fun s => transform.hashResource sample.emitOther (sdktrace.Resource s))
                 <$> sdl) : gset Z) /\
    (forall s1 s2, s1 ∈ sdl -> s2 ∈ sdl ->
       transform.hashResource sample.emitOther (sdktrace.Resource s1)
         <> transform.hashResource sample.emitOther (sdktrace.Resource s2) ->
       (2 <= length b)%nat).
Proof.
  intros sdl. eexists. split; [vm_compute; reflexivity|].
  apply (C4_one_node_per_fingerprint sample.emitOther sdl).
  vm_compute. reflexivity.
Defined.

(** Two resources that differ only in a byte that is not valid UTF-8
    have the same encoding, since the encoder writes U+FFFD for either
    byte, and so the same fingerprint: [Spans] gives them one Resource
    node. *)
Example hashResource_invalid_utf8 :
  let ra := [sample.attr "k" (attribute.STRING (String "255"%char "a"))] in
  let rb := [sample.attr "k" (attribute.STRING (String "254"%char "a"))] in
  ra <> rb /\
  transform.Encoded sample.emitOther ra = transform.Encoded sample.emitOther rb /\
  transform.hashResource sample.emitOther ra = transform.hashResource sample.emitOther rb /\
  exists b,
    transform.Spans sample.emitOther
      [sample.rawSpan Byte.x01 ra codes.Unset; sample.rawSpan Byte.x02 rb codes.Unset]
      = Returned b /\
    length b = 1%nat.
Proof.
  intros ra rb. split; [discriminate|]. split; [reflexivity|]. split; [reflexivity|].
  eexists. split; [vm_compute; reflexivity | reflexivity].
Qed.

(** C5 as stated fails: a span whose status code is 3 makes [Spans]
    take the [default] branch and panic. *)
Lemma C5_counterexample_unknown_status_code :
  transform.Spans sample.emitOther [sample.rawSpan Byte.x01 sample.serviceA 3]
  = Panic "unreachable".
Proof. vm_compute. reflexivity. Qed.

(** C7 as stated fails on the key order: a map filled with [b] and then
    [a] is written with [a] first. *)
Lemma C7_counterexample_key_order :
  let text :=
    sqliteexporter.pcommonMapAsJSON sample.floatText sample.bytesText
      [("b", pcommon.ValueInt 1); ("a", pcommon.ValueInt 2)] in
  text = Some ("{" +:+ quoted "a" +:+ ":2," +:+ quoted "b" +:+ ":1}") /\
  text <> Some ("{" +:+ quoted "b" +:+ ":1," +:+ quoted "a" +:+ ":2}").
Proof.
  split; [vm_compute; reflexivity | vm_compute; discriminate].
Qed.

Lemma C7_witness :
  let m := [("b", pcommon.ValueInt 1); ("a", pcommon.ValueStr "x")] in
  exists text,
    sqliteexporter.pcommonMapAsJSON sample.floatText sample.bytesText m = Some text /\
    exists entries,
      text = json.object entries /\
      StronglySorted json.keyLt entries.*1 /\
      forall k, k ∈ entries.*1 <-> k ∈ m.*1.
Proof.
  intros m. eexists. split; [vm_compute; reflexivity|].
  apply (C7_attribute_map_json sample.floatText sample.bytesText).
  vm_compute. reflexivity.
Defined.

(** C9 as stated fails on the kind: the row of a span of the server kind
    has the kind [Server], not [server]. *)
Lemma C9_counterexample_kind_capitalised :
  ptrace.Kind (sample.span Byte.x01 Byte.x00) = ptrace.SpanKindServer /\
  exists db',
    sqliteexporter.ConsumeTraces sample.floatText sample.bytesText (sample.db 0)
      (sample.batch [sample.span Byte.x01 Byte.x00]) = (sqliteexporter.Return None, db') /\
    spans.kind <$> sql.spans (sql.tables db') = ["Server"] /\
    "Server" <> "server".
Proof.
  split; [reflexivity|]. eexists. split; [vm_compute; reflexivity|].
  split; [reflexivity | discriminate].
Qed.

Lemma C9_witness :
  let db := sample.db 0 in
  let traces := sample.batch [sample.span Byte.x01 Byte.x00] in
  exists out db',
    sqliteexporter.ConsumeTraces sample.floatText sample.bytesText db traces = (out, db') /\
    sqliteexporter.grows
      (fun row => exists resource scope span,
         sqliteexporter.rowOf sample.floatText sample.bytesText
           traces resource scope span row /\
         spans.status_code row = ptrace.StatusCode span /\
         spans.kind row = ptrace.SpanKindString (ptrace.Kind span) /\
         (ptrace.Kind span = ptrace.SpanKindUnspecified -> spans.kind row = "Unspecified") /\
         (ptrace.Kind span = ptrace.SpanKindInternal -> spans.kind row = "Internal") /\
         (ptrace.Kind span = ptrace.SpanKindServer -> spans.kind row = "Server") /\
         (ptrace.Kind span = ptrace.SpanKindClient -> spans.kind row = "Client") /\
         (ptrace.Kind span = ptrace.SpanKindProducer -> spans.kind row = "Producer") /\
         (ptrace.Kind span = ptrace.SpanKindConsumer -> spans.kind row = "Consumer") /\
         (~ 0 <= ptrace.Kind span <= 5 -> spans.kind row = EmptyString))
      (sql.tables db) (sql.tables db').
Proof.
  intros db traces. eexists _, _. split; [vm_compute; reflexivity|].
  eapply (C9_status_code_and_kind sample.floatText sample.bytesText db traces).
  vm_compute. reflexivity.
Defined.

Lemma C10_witness :
  let sdl := [sample.rawSpan Byte.x01 sample.serviceA codes.Unset;
              sample.rawSpan Byte.x02 sample.serviceB codes.Ok] in
  exists b out db',
    transform.Spans sample.emitOther sdl = Returned b /\
    sqliteexporter.ExportSpans sample.floatText sample.bytesText sample.emitOther
      (sample.db 0) sdl = Returned (out, db') /\
    Forall ptrace.zeroDropped b /\
    sqliteexporter.grows
      (fun row => spans.resource_dropped_attributes_count row = 0)
      (sql.tables (sample.db 0)) (sql.tables db').
Proof.
  intros sdl. eexists _, _, _.
  split; [vm_compute; reflexivity|]. split; [vm_compute; reflexivity|].
  pose proof (C10_resource_dropped_count_zero sample.emitOther sample.floatText
                sample.bytesText sdl) as [Hnodes Hrows].
  split.
  - apply Hnodes. vm_compute. reflexivity.
  - eapply Hrows. vm_compute. reflexivity.
Defined.

(* ===================================================================== *)
(** * The repository's tests, on the embedding                             *)
(* ===================================================================== *)

(** The test vectors of FNV-1a: the empty input, [a] and [foobar]. *)
Example fnv64a_vectors :
  fnv.Sum64 (fnv.Write fnv.New64a EmptyString) = 0xcbf29ce484222325 /\
  fnv.Sum64 (fnv.Write fnv.New64a "a") = 0xaf63dc4c8601ec8c /\
  fnv.Sum64 (fnv.Write fnv.New64a "foobar") = 0x85944171f73967e8.
Proof. vm_compute. repeat split. Qed.

(** [TestTransformSpan]: what the test asserts of [Spans] on the stub. *)
Example TestTransformSpan (emitOther : attribute.Value -> string) :
  transform.Spans emitOther [tests.stub] =
  Returned
    [ {| ptrace.Res :=
           {| ptrace.ResourceAttributes :=
                [("service.name", pcommon.ValueStr "test-service")];
              ptrace.ResourceDroppedAttributesCount := 0 |};
         ptrace.ScopeSpansSlice :=
           [ {| ptrace.Scope := ptrace.Scope ptrace.emptyScopeSpans;
                ptrace.Spans :=
                  [ {| ptrace.TraceID := tests.stubTraceID;
                       ptrace.SpanID := repeat Byte.x00 7 ++ [Byte.x01];
                       ptrace.ParentSpanID := repeat Byte.x00 7 ++ [Byte.x11];
                       ptrace.TraceState := "foo=bar";
                       ptrace.Name := "span-stub";
                       ptrace.Kind := ptrace.SpanKindServer;
                       ptrace.StartTimestamp := 1000 * 10 ^ 9;
                       ptrace.EndTimestamp := 1005 * 10 ^ 9;
                       ptrace.StatusCode := ptrace.StatusCodeOk;
                       ptrace.StatusMessage := "OK";
                       ptrace.Attributes :=
                         [("stringkey", pcommon.ValueStr "stringval");
                          ("intkey", pcommon.ValueInt 123);
                          ("floatkey", pcommon.ValueDouble 0x405BCCCCCCCCCCCD);
                          ("boolkey", pcommon.ValueBool true);
                          ("stringslicekey",
                           pcommon.ValueSlice [pcommon.ValueStr "first";
                                               pcommon.ValueStr "second"]);
                          ("intslicekey",
                           pcommon.ValueSlice [pcommon.ValueInt 1; pcommon.ValueInt 2;
                                               pcommon.ValueInt 3]);
                          ("floatslicekey",
                           pcommon.ValueSlice
                             [pcommon.ValueDouble 0x3FF199999999999A;
                              pcommon.ValueDouble 0x400199999999999A;
                              pcommon.ValueDouble 0x400A666666666666]);
                          ("boolslicekey",
                           pcommon.ValueSlice [pcommon.ValueBool true;
                                               pcommon.ValueBool false])];
                       ptrace.DroppedAttributesCount := 1;
                       ptrace.DroppedEventsCount := 2;
                       ptrace.DroppedLinksCount := 3;
                       ptrace.Events :=
                         [ {| ptrace.EventTimestamp := 1500 * 10 ^ 9;
                              ptrace.EventName := "spanevent";
                              ptrace.EventAttributes :=
                                [("eventstringkey", pcommon.ValueStr "eventstringval")];
                              ptrace.EventDroppedAttributesCount := 4 |} ];
                       ptrace.Links :=
                         [ {| ptrace.LinkTraceID := tests.linkID ++ tests.linkID;
                              ptrace.LinkSpanID := tests.linkID;
                              ptrace.LinkTraceState := "foo=bar";
                              ptrace.LinkAttributes :=
                                [("linkstringkey", pcommon.ValueStr "linkstringval")];
                              ptrace.LinkDroppedAttributesCount := 5 |} ] |} ] |} ] |} ].
Proof. vm_compute. reflexivity. Qed.

(** [Test_ExporterExportSpan]: [ConsumeTraces] returns no error, and the
    store holds the two span rows the test expects, four event rows and
    one link row. *)
Example Test_ExporterExportSpan (floatText : Z -> string) (bytesText : string -> string) :
  exists db',
    sqliteexporter.ConsumeTraces floatText bytesText (sample.db 0) tests.testTrace
      = (sqliteexporter.Return None, db') /\
    sql.spans (sql.tables db') =
      [ tests.expectedRow Byte.x01 None "rojo=00f067aa0ba902b7" 5000 "span1"
          (ptrace.SpanKindString ptrace.SpanKindServer)
          (sqliteexporter.unixMicro (tests.now - 5 * tests.ms))
          (sqliteexporter.unixMicro tests.now)
          ("{" +:+ quoted "http.method" +:+ ":" +:+ quoted "GET" +:+ ","
               +:+ quoted "http.status_code" +:+ ":200}");
        tests.expectedRow Byte.x02 (Some (tests.spanID Byte.x01)) EmptyString 3000 "span2"
          (ptrace.SpanKindString ptrace.SpanKindInternal)
          (sqliteexporter.unixMicro (tests.now - 4 * tests.ms))
          (sqliteexporter.unixMicro (tests.now - 1 * tests.ms))
          ("{" +:+ quoted "custom.key" +:+ ":" +:+ quoted "custom-value" +:+ "}") ] /\
    length (sql.events (sql.tables db')) = 4%nat /\
    length (sql.links (sql.tables db')) = 1%nat.
Proof.
  eexists. split; [vm_compute; reflexivity|].
  split; [vm_compute; reflexivity|]. split; reflexivity.
Qed.

(* ===================================================================== *)
(** * Properties of the attribute transform                                *)
(* ===================================================================== *)

Section AttributeFacts.

Import transform.

Lemma Get_Put_eq (m : pcommon.Map) k v : pcommon.Get (pcommon.Put m k v) k = Some v.
Proof.
  induction m as [|[k0 v0] m IH]; simpl.
  - rewrite String.eqb_refl. reflexivity.
  - destruct (String.eqb_spec k0 k) as [->|Hne]; simpl.
    + rewrite String.eqb_refl. reflexivity.
    + destruct (String.eqb_spec k0 k); [congruence | exact IH].
Qed.

Lemma Get_Put_ne (m : pcommon.Map) k v k' :
  k <> k' -> pcommon.Get (pcommon.Put m k v) k' = pcommon.Get m k'.
Proof.
  intros Hne. induction m as [|[k0 v0] m IH]; simpl.
  - destruct (String.eqb_spec k k'); [congruence | reflexivity].
  - destruct (String.eqb_spec k0 k) as [->|Hne0]; simpl.
    + destruct (String.eqb_spec k k'); [congruence | reflexivity].
    + destruct (String.eqb_spec k0 k'); [reflexivity | exact IH].
Qed.

Lemma Put_keys (m : pcommon.Map) k v k' :
  k' ∈ (pcommon.Put m k v).*1 <-> k' = k \/ k' ∈ m.*1.
Proof.
  induction m as [|[k0 v0] m IH]; simpl.
  - rewrite list_elem_of_singleton. set_solver.
  - destruct (String.eqb_spec k0 k) as [->|Hne]; simpl.
    + rewrite !elem_of_cons. tauto.
    + rewrite !elem_of_cons, IH. tauto.
Qed.

Lemma Put_NoDup (m : pcommon.Map) k v : NoDup m.*1 -> NoDup (pcommon.Put m k v).*1.
Proof.
  induction m as [|[k0 v0] m IH]; simpl; intros Hnd.
  - apply NoDup_singleton.
  - apply NoDup_cons in Hnd as [Hnotin Hnd].
    destruct (String.eqb_spec k0 k) as [->|Hne]; simpl.
    + apply NoDup_cons. auto.
    + apply NoDup_cons. split; [|auto].
      rewrite Put_keys. intros [->|Hin]; [congruence | auto].
Qed.

Lemma Put_fresh (m : pcommon.Map) k v :
  k ∉ m.*1 -> pcommon.Put m k v = m ++ [(k, v)].
Proof.
  induction m as [|[k0 v0] m IH]; simpl; intros Hk; [reflexivity|].
  rewrite not_elem_of_cons in Hk. destruct Hk as [Hne Hk].
  destruct (String.eqb_spec k0 k); [congruence|]. rewrite IH by exact Hk. reflexivity.
Qed.

Lemma transformAttribute_entry (to : pcommon.Map) a :
  transformAttribute to a =
  match attrs.entry a with Some e => pcommon.Put to e.1 e.2 | None => to end.
Proof.
  unfold transformAttribute, attrs.entry, attrs.converted.
  destruct (attribute.Val a); reflexivity.
Qed.

Lemma transform_from_lookup from k : forall acc : pcommon.Map,
  pcommon.Get (fold_left transformAttribute from acc) k =
  match attrs.lastValue from k with
  | Some v => Some v
  | None => pcommon.Get acc k
  end.
Proof.
  unfold attrs.lastValue.
  induction from as [|a from IH]; intros acc; simpl; [reflexivity|].
  rewrite IH, transformAttribute_entry. unfold attrs.entry.
  destruct (String.eqb_spec (attribute.Key a) k) as [Hk|Hk];
    destruct (attrs.converted (attribute.Val a)) as [v|]; simpl.
  - rewrite last_cons. destruct (last _); [reflexivity|].
    rewrite Hk. apply Get_Put_eq.
  - reflexivity.
  - destruct (last _); [reflexivity|]. apply Get_Put_ne, Hk.
  - reflexivity.
Qed.

Lemma transform_from_keys from : forall acc : pcommon.Map,
  NoDup acc.*1 ->
  NoDup (fold_left transformAttribute from acc).*1 /\
  forall k, k ∈ (fold_left transformAttribute from acc).*1 <->
            k ∈ acc.*1 \/ k ∈ (omap attrs.entry from).*1.
Proof.
  induction from as [|a from IH]; intros acc Hnd; simpl.
  - split; [exact Hnd | set_solver].
  - rewrite transformAttribute_entry.
    destruct (attrs.entry a) as [[k0 v0]|]; simpl.
    + destruct (IH (pcommon.Put acc k0 v0)) as [H1 H2]; [apply Put_NoDup, Hnd|].
      split; [exact H1|]. intros k. rewrite H2, Put_keys, elem_of_cons. tauto.
    + apply IH, Hnd.
Qed.

Lemma transform_from_distinct from : forall acc : pcommon.Map,
  NoDup (acc ++ omap attrs.entry from).*1 ->
  fold_left transformAttribute from acc = acc ++ omap attrs.entry from.
Proof.
  induction from as [|a from IH]; intros acc Hnd.
  - simpl. rewrite app_nil_r. reflexivity.
  - cbn [fold_left]. rewrite transformAttribute_entry.
    change (omap attrs.entry (a :: from))
      with (match attrs.entry a with
            | Some e => e :: omap attrs.entry from
            | None => omap attrs.entry from
            end) in *.
    destruct (attrs.entry a) as [[k0 v0]|]; [|apply IH, Hnd].
    cbn [fst snd]. rewrite Put_fresh.
    + rewrite IH; rewrite <- (assoc_L (++)); [reflexivity | exact Hnd].
    + rewrite fmap_app in Hnd. apply NoDup_app in Hnd as (_ & Hdisj & _).
      intros Hin. apply (Hdisj k0 Hin). rewrite fmap_cons. apply list_elem_of_here.
Qed.

(** X1. In the map that [transformAttributes] builds, the value under a
    key is the converted value of the last attribute of the input that
    has this key and a type with a case: a later attribute overwrites an
    earlier one with the same key, and the key is absent when the input
    has no such attribute. *)
Theorem transformAttributes_last_write_wins
    (from : list attribute.KeyValue) (k : string) :
  pcommon.Get (transformAttributes from) k = attrs.lastValue from k.
Proof.
  unfold transformAttributes. rewrite transform_from_lookup.
  destruct (attrs.lastValue from k); reflexivity.
Qed.

(** X2. The map that [transformAttributes] builds has no key twice, and
    its keys are the keys of the attributes whose type has a case: an
    attribute of an invalid type leaves no entry. *)
Theorem transformAttributes_keys (from : list attribute.KeyValue) :
  NoDup (transformAttributes from).*1 /\
  forall k, k ∈ (transformAttributes from).*1 <->
            exists a, a ∈ from /\ attribute.Key a = k /\
                      attribute.Val a <> attribute.INVALID.
Proof.
  destruct (transform_from_keys from []) as [Hnd Hkeys]; [apply NoDup_nil_2|].
  split; [exact Hnd|]. intros k. unfold transformAttributes. rewrite Hkeys.
  split.
  - intros [Hin|Hin]; [inversion Hin|].
    apply list_elem_of_fmap in Hin as ([k0 v0] & -> & He).
    apply list_elem_of_omap in He as (a & Ha & He). exists a.
    unfold attrs.entry in He. destruct (attrs.converted _) eqn:Hc; [|discriminate].
    injection He as <- _. repeat split; [exact Ha|].
    intros Hinv. rewrite Hinv in Hc. discriminate.
  - intros (a & Ha & <- & Hv). right.
    destruct (attrs.converted (attribute.Val a)) as [v|] eqn:Hc.
    + apply list_elem_of_fmap. exists (attribute.Key a, v). split; [reflexivity|].
      apply list_elem_of_omap. exists a. split; [exact Ha|].
      unfold attrs.entry. rewrite Hc. reflexivity.
    + destruct (attribute.Val a); try discriminate. congruence.
Qed.

(** X3. When the attributes whose type has a case have pairwise distinct
    keys, [transformAttributes] keeps them all, in their order: the map
    is the list of their entries. *)
Theorem transformAttributes_keeps_order (from : list attribute.KeyValue) :
  NoDup (omap attrs.entry from).*1 ->
  transformAttributes from = omap attrs.entry from.
Proof.
  intros Hnd. unfold transformAttributes. apply (transform_from_distinct from []).
  exact Hnd.
Qed.

End AttributeFacts.

(* ===================================================================== *)
(** * Properties of the tree that the normalizer builds                    *)
(* ===================================================================== *)

Section TreeFacts.

Import sdktrace transform batch.

(** Lists of lists updated in place. *)
Lemma concat_alter_snoc {A} (W : list (list A)) i l x :
  W !! i = Some l ->
  concat (alter (fun l => l ++ [x]) i W) ≡ₚ concat W ++ [x].
Proof.
  revert i. induction W as [|l0 W IH]; intros [|i] H; simpl in *; try discriminate.
  - injection H as ->. rewrite <- !(assoc_L (++)).
    apply Permutation_app_head, Permutation_app_comm.
  - rewrite (IH i H), (assoc_L (++)). reflexivity.
Qed.

Lemma concat_alter_length {A} (g : list A -> list A) (W : list (list A)) i :
  (forall l, length (g l) = length l) ->
  length (concat (alter g i W)) = length (concat W).
Proof.
  intros Hg. revert i. induction W as [|l0 W IH]; intros [|i]; simpl; try reflexivity.
  - rewrite !length_app, Hg. reflexivity.
  - rewrite !length_app. f_equal. apply IH.
Qed.

Lemma concat_fmap_alter_perm {A B} (F : A -> list B) (g : A -> A) (l : list A) i x e :
  l !! i = Some x -> F (g x) ≡ₚ F x ++ e ->
  concat (F <$> alter g i l) ≡ₚ concat (F <$> l) ++ e.
Proof.
  intros Hx Hg. revert i Hx.
  induction l as [|x0 l IH]; intros [|i] Hx; simpl in *; try discriminate.
  - injection Hx as ->. rewrite Hg, <- !(assoc_L (++)).
    apply Permutation_app_head, Permutation_app_comm.
  - rewrite (IH i Hx), (assoc_L (++)). reflexivity.
Qed.

(** The scope lists after each of the four updates of an iteration. *)
Lemma scopeLists_append t :
  scopeLists (t ++ [ptrace.emptyResourceSpans]) = scopeLists t ++ [[]].
Proof. unfold scopeLists. rewrite fmap_app. reflexivity. Qed.

Lemma scopeLists_setResource ra i t :
  scopeLists (alter (setResource ra) i t) = scopeLists t.
Proof.
  unfold scopeLists.
  rewrite (list_fmap_alter ptrace.ScopeSpansSlice (setResource ra) id).
  - apply list_alter_id. reflexivity.
  - apply Forall_forall. reflexivity.
Qed.

Lemma scopeLists_appendScope i t :
  scopeLists (alter appendScope i t) =
  alter (fun l => l ++ [ptrace.emptyScopeSpans]) i (scopeLists t).
Proof.
  unfold scopeLists. apply list_fmap_alter. apply Forall_forall. reflexivity.
Qed.

Lemma scopeLists_atScope f si i t :
  scopeLists (alter (atScope f si) i t) = alter (alter f si) i (scopeLists t).
Proof.
  unfold scopeLists. apply list_fmap_alter. apply Forall_forall. reflexivity.
Qed.

Lemma scopesLen_scopeLists t i :
  scopesLen t i = from_option length 0%nat (scopeLists t !! i).
Proof.
  unfold scopesLen, scopeLists. rewrite list_lookup_fmap.
  destruct (t !! i); reflexivity.
Qed.

Lemma spans_concat (W : list (list ptrace.ScopeSpans)) :
  concat (ptrace.Spans <$> concat W) =
  concat ((fun l => concat (ptrace.Spans <$> l)) <$> W).
Proof.
  induction W as [|l W IH]; simpl; [reflexivity|].
  rewrite fmap_app, concat_app, IH. reflexivity.
Qed.

(** Appending a span to the scope node a valid handle points to. *)
Lemma spans_appendSpan W (h : nat * nat) l sp :
  W !! h.1 = Some l -> (h.2 < length l)%nat ->
  concat (ptrace.Spans <$> concat (alter (alter (appendSpan sp) h.2) h.1 W))
  ≡ₚ concat (ptrace.Spans <$> concat W) ++ [sp].
Proof.
  intros Hl Hlt. rewrite !spans_concat.
  apply lookup_lt_is_Some_2 in Hlt as [ss Hss].
  rewrite <- (list_fmap_id (alter _ _ W)).
  rewrite <- list_fmap_compose.
  apply (concat_fmap_alter_perm _ _ _ _ l); [exact Hl|].
  simpl. apply (concat_fmap_alter_perm _ _ _ _ ss); [exact Hss|].
  reflexivity.
Qed.

Lemma extends_refl W : extends W W.
Proof. intros i l H. eauto. Qed.

Lemma extends_trans W1 W2 W3 : extends W1 W2 -> extends W2 W3 -> extends W1 W3.
Proof.
  intros H12 H23 i l H. destruct (H12 i l H) as (l2 & H2 & Hle2).
  destruct (H23 i l2 H2) as (l3 & H3 & Hle3). exists l3. split; [exact H3 | lia].
Qed.

Lemma extends_app W W0 : extends W (W ++ W0).
Proof.
  intros i l H. exists l. split; [|lia].
  rewrite lookup_app_l; [exact H | eapply lookup_lt_Some, H].
Qed.

Lemma extends_alter (g : list ptrace.ScopeSpans -> list ptrace.ScopeSpans) j W :
  (forall l, (length l <= length (g l))%nat) -> extends W (alter g j W).
Proof.
  intros Hg i l H. destruct (decide (j = i)) as [->|Hne].
  - exists (g l). rewrite list_lookup_alter_eq, H. split; [reflexivity | apply Hg].
  - exists l. rewrite list_lookup_alter_ne by exact Hne. split; [exact H | lia].
Qed.

Lemma extends_snoc j W :
  extends W (alter (fun l => l ++ [ptrace.emptyScopeSpans]) j W).
Proof. apply extends_alter. intros l. rewrite length_app. lia. Qed.

Lemma extends_appendSpan sp si j W :
  extends W (alter (alter (appendSpan sp) si) j W).
Proof. apply extends_alter. intros l. rewrite length_alter. lia. Qed.

Lemma extends_length W W' : extends W W' -> (length W <= length W')%nat.
Proof.
  intros H. destruct W as [|l0 W0] using rev_ind; [simpl; lia|].
  destruct (H (length W0) l0) as (l' & Hl' & _).
  - rewrite lookup_app_r, Nat.sub_diag by lia. reflexivity.
  - apply lookup_lt_Some in Hl'. rewrite length_app. simpl. lia.
Qed.

Lemma valid_extends (W W' : list (list ptrace.ScopeSpans)) (h : nat * nat) :
  extends W W' ->
  (exists l, W !! h.1 = Some l /\ (h.2 < length l)%nat) ->
  exists l, W' !! h.1 = Some l /\ (h.2 < length l)%nat.
Proof.
  intros Hext (l & Hl & Hlt). destruct (Hext _ _ Hl) as (l' & Hl' & Hle).
  exists l'. split; [exact Hl' | lia].
Qed.

(** The handle of a scope node that has just been appended. *)
Lemma valid_fresh (W : list (list ptrace.ScopeSpans)) r l :
  W !! r = Some l ->
  exists l', alter (fun l => l ++ [ptrace.emptyScopeSpans]) r W !! r = Some l' /\
             (length l < length l')%nat.
Proof.
  intros H. exists (l ++ [ptrace.emptyScopeSpans]).
  rewrite list_lookup_alter_eq, H, length_app. split; [reflexivity | simpl; lia].
Qed.

Lemma spans_snoc_empty (W : list (list ptrace.ScopeSpans)) r l :
  W !! r = Some l ->
  concat (ptrace.Spans <$> concat (alter (fun l => l ++ [ptrace.emptyScopeSpans]) r W))
  ≡ₚ concat (ptrace.Spans <$> concat W).
Proof.
  intros H. rewrite (concat_alter_snoc W r l _ H), fmap_app, concat_app.
  simpl. rewrite app_nil_r. reflexivity.
Qed.

Lemma unset_snoc (W : list (list ptrace.ScopeSpans)) r :
  Forall (Forall scopeUnset) W ->
  Forall (Forall scopeUnset) (alter (fun l => l ++ [ptrace.emptyScopeSpans]) r W).
Proof.
  intros H. apply Forall_alter; [exact H|]. intros l _ Hl.
  apply Forall_app. split; [exact Hl | repeat constructor].
Qed.

Section Step.

Variable emitOther : attribute.Value -> string.

Local Abbreviation hashResource := (transform.hashResource emitOther).
Local Abbreviation step := (transform.step emitOther).
Local Abbreviation loop := (transform.loop emitOther).
Local Abbreviation Spans := (transform.Spans emitOther).

(** An iteration, seen on the scope lists [W] of the tree. It resolves
    a scope handle [ss]; [W3] are the scope lists once the nodes the
    iteration creates have been appended: they extend [W], hold the same
    spans, [ss] and every handle of the two maps point into them, and
    the span is appended where [ss] points. One Scope node is created
    exactly when the scope fingerprint is not yet in the scope map. *)
Lemma step_scopeLists st s st' :
  handlesValid st -> step st s = Returned st' ->
  let W := scopeLists (rss st) in
  let hs := hashScope (InstrumentationScope s) in
  exists sp ss W3,
    filled s sp /\
    scopeLists (rss st') = alter (alter (appendSpan sp) ss.2) ss.1 W3 /\
    extends W W3 /\
    (exists l, W3 !! ss.1 = Some l /\ (ss.2 < length l)%nat) /\
    concat (ptrace.Spans <$> concat W3) ≡ₚ concat (ptrace.Spans <$> concat W) /\
    (Forall (Forall scopeUnset) W -> Forall (Forall scopeUnset) W3) /\
    (forall h ri, resMap st' !! h = Some ri -> (ri < length W3)%nat) /\
    (forall h x, scopeMap st' !! h = Some x ->
       exists l, W3 !! x.1 = Some l /\ (x.2 < length l)%nat) /\
    ((scopeMap st !! hs = None /\ scopeMap st' = <[hs := ss]> (scopeMap st) /\
      length (concat W3) = S (length (concat W))) \/
     (is_Some (scopeMap st !! hs) /\ scopeMap st' = scopeMap st /\
      length (concat W3) = length (concat W))).
Proof.
  intros [Hres Hscope] H. unfold transform.step in H. intros W hs.
  assert (HlenW : length W = length (rss st)) by apply length_fmap.
  destruct (resMap st !! _) as [r|] eqn:Er;
    destruct (scopeMap st !! _) as [h|] eqn:Es;
    destruct (statusCode _) as [code|] eqn:Ec; try discriminate;
    injection H as <-; cbn [rss resMap scopeMap fst snd];
    exists (fillSpan s code).
  - (* both handles are found *)
    exists h, W. split; [exists code; auto|].
    rewrite scopeLists_atScope, scopeLists_setResource.
    split; [reflexivity|]. split; [apply extends_refl|].
    split; [apply (Hscope _ _ Es)|]. split; [reflexivity|].
    split; [auto|]. split; [intros h0 ri H0; rewrite HlenW; eauto|].
    split; [intros h0 x H0; apply (Hscope _ _ H0)|].
    right. eauto.
  - (* a new scope node under a resource node that is found *)
    pose proof (Hres _ _ Er) as Hr. rewrite <- HlenW in Hr.
    apply lookup_lt_is_Some_2 in Hr as [l0 Hl0].
    exists (r, scopesLen (alter (setResource (transformAttributes (Resource s))) r (rss st)) r),
           (alter (fun l => l ++ [ptrace.emptyScopeSpans]) r W).
    split; [exists code; auto|].
    rewrite scopeLists_atScope, scopeLists_appendScope, scopeLists_setResource.
    rewrite scopesLen_scopeLists, scopeLists_setResource. fold W. rewrite Hl0.
    cbn [from_option fst snd].
    split; [reflexivity|]. split; [apply extends_snoc|].
    split; [apply valid_fresh, Hl0|].
    split; [apply (spans_snoc_empty W r l0 Hl0)|].
    split; [apply unset_snoc|].
    split; [intros h0 ri H0; rewrite length_alter, HlenW; eauto|].
    split.
    + intros h0 x H0. destruct (decide (hashScope (InstrumentationScope s) = h0)) as [<-|Hne].
      * rewrite lookup_insert_eq in H0. injection H0 as <-. apply valid_fresh, Hl0.
      * rewrite lookup_insert_ne in H0 by exact Hne.
        apply (valid_extends W); [apply extends_snoc | apply (Hscope _ _ H0)].
    + left. split; [reflexivity|]. split; [reflexivity|].
      rewrite (Permutation_length (concat_alter_snoc W r l0 _ Hl0)), length_app.
      simpl. lia.
  - (* a new resource node, and a scope node that is found under another one *)
    exists h, (W ++ [[]]). split; [exists code; auto|].
    rewrite scopeLists_atScope, scopeLists_setResource, scopeLists_append. fold W.
    split; [reflexivity|]. split; [apply extends_app|].
    split; [apply (valid_extends W); [apply extends_app | apply (Hscope _ _ Es)]|].
    split; [rewrite concat_app; simpl; rewrite app_nil_r; reflexivity|].
    split; [intros HW; apply Forall_app; split; [exact HW | repeat constructor]|].
    split.
    + intros h0 ri H0. rewrite length_app. simpl.
      destruct (decide (hashResource (Resource s) = h0)) as [<-|Hne].
      * rewrite lookup_insert_eq in H0. injection H0 as <-. lia.
      * rewrite lookup_insert_ne in H0 by exact Hne.
        pose proof (Hres _ _ H0). lia.
    + split.
      * intros h0 x H0. apply (valid_extends W); [apply extends_app | apply (Hscope _ _ H0)].
      * right. split; [eauto|]. split; [reflexivity|].
        rewrite concat_app. simpl. rewrite app_nil_r. reflexivity.
  - (* a new resource node and a new scope node under it *)
    assert (Hl0 : (W ++ [[]]) !! length (rss st) = Some []).
    { rewrite <- HlenW. apply list_lookup_middle. reflexivity. }
    exists (length (rss st),
            scopesLen (alter (setResource (transformAttributes (Resource s)))
                         (length (rss st)) (rss st ++ [ptrace.emptyResourceSpans]))
                      (length (rss st))),
           (alter (fun l => l ++ [ptrace.emptyScopeSpans]) (length (rss st)) (W ++ [[]])).
    split; [exists code; auto|].
    rewrite scopeLists_atScope, scopeLists_appendScope, scopeLists_setResource,
      scopeLists_append.
    rewrite scopesLen_scopeLists, scopeLists_setResource, scopeLists_append.
    fold W. rewrite Hl0. cbn [from_option fst snd length].
    split; [reflexivity|].
    split; [eapply extends_trans; [apply extends_app | apply extends_snoc]|].
    split; [apply (valid_fresh _ _ _ Hl0)|].
    split.
    { rewrite (spans_snoc_empty _ _ _ Hl0), concat_app. simpl.
      rewrite app_nil_r. reflexivity. }
    split.
    { intros HW. apply unset_snoc, Forall_app. split; [exact HW | repeat constructor]. }
    split.
    { intros h0 ri H0. rewrite length_alter, length_app. simpl.
      destruct (decide (hashResource (Resource s) = h0)) as [<-|Hne].
      - rewrite lookup_insert_eq in H0. injection H0 as <-. lia.
      - rewrite lookup_insert_ne in H0 by exact Hne.
        pose proof (Hres _ _ H0). lia. }
    split.
    { intros h0 x H0. destruct (decide (hashScope (InstrumentationScope s) = h0)) as [<-|Hne].
      - rewrite lookup_insert_eq in H0. injection H0 as <-. apply (valid_fresh _ _ _ Hl0).
      - rewrite lookup_insert_ne in H0 by exact Hne.
        apply (valid_extends W);
          [eapply extends_trans; [apply extends_app | apply extends_snoc]
          | apply (Hscope _ _ H0)]. }
    left. split; [reflexivity|]. split; [reflexivity|].
    rewrite (Permutation_length (concat_alter_snoc _ _ _ _ Hl0)), length_app, concat_app.
    simpl. rewrite app_nil_r. lia.
Qed.

Lemma Forall_concat_lists {A} (P : A -> Prop) (W : list (list A)) :
  Forall P (concat W) <-> Forall (Forall P) W.
Proof.
  induction W as [|l W IH]; simpl.
  - split; constructor.
  - rewrite Forall_app, Forall_cons, IH. reflexivity.
Qed.

Lemma step_valid st s st' :
  handlesValid st -> step st s = Returned st' -> handlesValid st'.
Proof.
  intros Hv H.
  destruct (step_scopeLists st s st' Hv H)
    as (sp & ss & W3 & _ & HW & _ & _ & _ & _ & Hres & Hscope & _).
  split.
  - intros h ri Hh. apply Hres in Hh.
    replace (length (rss st')) with (length (scopeLists (rss st')))
      by apply length_fmap.
    rewrite HW, length_alter. exact Hh.
  - intros h x Hh. unfold validScope. rewrite HW.
    apply (valid_extends W3); [apply extends_appendSpan | eapply Hscope, Hh].
Qed.

Lemma step_spans st s st' :
  handlesValid st -> step st s = Returned st' ->
  exists sp, filled s sp /\ spanNodes (rss st') ≡ₚ spanNodes (rss st) ++ [sp].
Proof.
  intros Hv H.
  destruct (step_scopeLists st s st' Hv H)
    as (sp & ss & W3 & Hsp & HW & _ & (l & Hl & Hlt) & Hperm & _).
  exists sp. split; [exact Hsp|]. unfold spanNodes, scopeNodes.
  rewrite HW, (spans_appendSpan W3 ss l sp Hl Hlt), Hperm. reflexivity.
Qed.

Lemma step_unset st s st' :
  handlesValid st -> step st s = Returned st' ->
  Forall scopeUnset (scopeNodes (rss st)) ->
  Forall scopeUnset (scopeNodes (rss st')).
Proof.
  intros Hv H. unfold scopeNodes. rewrite !Forall_concat_lists.
  destruct (step_scopeLists st s st' Hv H)
    as (sp & ss & W3 & _ & HW & _ & _ & _ & Hunset & _).
  intros HW0. rewrite HW.
  apply Forall_alter; [apply Hunset, HW0|]. intros l _ Hl.
  apply Forall_alter; [exact Hl|]. intros x _ Hx. exact Hx.
Qed.

Lemma step_scope_count st s st' :
  handlesValid st -> step st s = Returned st' ->
  length (scopeNodes (rss st)) = size (scopeMap st) ->
  length (scopeNodes (rss st')) = size (scopeMap st') /\
  dom (scopeMap st') = dom (scopeMap st) ∪ {[hashScope (InstrumentationScope s)]}.
Proof.
  intros Hv H Hcount. unfold scopeNodes in *.
  destruct (step_scopeLists st s st' Hv H)
    as (sp & ss & W3 & _ & HW & _ & _ & _ & _ & _ & _ & Hcases).
  rewrite HW, concat_alter_length by (intros l; apply length_alter).
  destruct Hcases as [(Hnone & -> & Hlen)|(Hsome & -> & Hlen)].
  - rewrite Hlen, Hcount, map_size_insert_None by exact Hnone.
    split; [reflexivity|]. rewrite dom_insert_L. set_solver.
  - rewrite Hlen, Hcount. split; [reflexivity|].
    apply elem_of_dom in Hsome. set_solver.
Qed.

Lemma initState_valid : handlesValid initState.
Proof.
  split; intros h x H; cbn [initState resMap scopeMap] in H;
    rewrite lookup_empty in H; discriminate.
Qed.

Lemma loop_tree sdl : forall st st',
  handlesValid st -> loop st sdl = Returned st' ->
  handlesValid st' /\
  (exists sps, Forall2 filled sdl sps /\
               spanNodes (rss st') ≡ₚ spanNodes (rss st) ++ sps) /\
  (Forall scopeUnset (scopeNodes (rss st)) ->
   Forall scopeUnset (scopeNodes (rss st'))) /\
  (length (scopeNodes (rss st)) = size (scopeMap st) ->
   length (scopeNodes (rss st')) = size (scopeMap st') /\
   dom (scopeMap st') =
     dom (scopeMap st) ∪
     list_to_set ((fun s => hashScope (InstrumentationScope s)) <$> sdl)).
Proof.
  induction sdl as [|s sdl IH]; intros st st' Hv Hloop; simpl in Hloop.
  - injection Hloop as <-. split; [exact Hv|]. split.
    + exists []. split; [constructor | rewrite app_nil_r; reflexivity].
    + split; [auto|]. intros Hc. split; [exact Hc | set_solver].
  - destruct (step st s) as [st1|] eqn:Hstep; [|discriminate].
    pose proof (step_valid _ _ _ Hv Hstep) as Hv1.
    destruct (IH st1 st' Hv1 Hloop) as (Hv' & (sps & Hsps & Hperm) & Hunset & Hcount).
    split; [exact Hv'|]. split; [|split].
    + destruct (step_spans _ _ _ Hv Hstep) as (sp & Hsp & Hperm1).
      exists (sp :: sps). split; [constructor; assumption|].
      rewrite Hperm, Hperm1, <- (assoc_L (++)). reflexivity.
    + intros Hu. apply Hunset. exact (step_unset st s st1 Hv Hstep Hu).
    + intros Hc. destruct (step_scope_count _ _ _ Hv Hstep Hc) as [Hc1 Hd1].
      destruct (Hcount Hc1) as [Hc' Hd']. split; [exact Hc'|].
      rewrite Hd', Hd1, fmap_cons, list_to_set_cons. set_solver.
Qed.

(** X4. [Spans] neither loses nor repeats a span: the Span nodes of the
    batch it returns, taken over all Resource and Scope nodes, are the
    span nodes filled from the raw spans, each once; so the batch holds
    as many Span nodes as there are raw spans. *)
Theorem Spans_keeps_every_span (sdl : list ReadOnlySpan) (b : ptrace.Traces) :
  Spans sdl = Returned b ->
  (exists sps, Forall2 filled sdl sps /\ spanNodes b ≡ₚ sps) /\
  length (spanNodes b) = length sdl.
Proof.
  unfold transform.Spans. intros H.
  destruct (loop initState sdl) as [st|] eqn:Hloop; [|discriminate].
  injection H as <-.
  destruct (loop_tree sdl _ _ initState_valid Hloop) as (_ & (sps & Hsps & Hperm) & _).
  cbn [initState rss] in Hperm. change (spanNodes ptrace.NewTraces) with (@nil ptrace.Span) in Hperm.
  rewrite app_nil_l in Hperm. split; [eauto|].
  rewrite (Permutation_length Hperm). symmetry. eapply Forall2_length, Hsps.
Qed.

(** X5. [Spans] keeps one Scope node per distinct scope fingerprint of
    the batch, whatever the resources: the number of Scope nodes of the
    batch it returns, taken over all Resource nodes, is the number of
    distinct scope fingerprints of the raw spans. *)
Theorem Spans_one_scope_node_per_scope_fingerprint
    (sdl : list ReadOnlySpan) (b : ptrace.Traces) :
  Spans sdl = Returned b ->
  length (scopeNodes b) =
  size (list_to_set ((fun s => hashScope (InstrumentationScope s)) <$> sdl) : gset Z).
Proof.
  unfold transform.Spans. intros H.
  destruct (loop initState sdl) as [st|] eqn:Hloop; [|discriminate].
  injection H as <-.
  destruct (loop_tree sdl _ _ initState_valid Hloop) as (_ & _ & _ & Hcount).
  destruct Hcount as [Hc Hd]; [reflexivity|].
  rewrite Hc, <- size_dom, Hd. cbn [initState scopeMap].
  rewrite dom_empty_L, (left_id_L ∅ (∪)). reflexivity.
Qed.

Lemma Spans_scopes_unset (sdl : list ReadOnlySpan) (b : ptrace.Traces) :
  Spans sdl = Returned b -> Forall scopeUnset (scopeNodes b).
Proof.
  unfold transform.Spans. intros H.
  destruct (loop initState sdl) as [st|] eqn:Hloop; [|discriminate].
  injection H as <-.
  destruct (loop_tree sdl _ _ initState_valid Hloop) as (_ & _ & Hunset & _).
  apply Hunset. constructor.
Qed.

Lemma Spans_spans_filled (sdl : list ReadOnlySpan) (b : ptrace.Traces) sp :
  Spans sdl = Returned b -> sp ∈ spanNodes b ->
  exists raw, raw ∈ sdl /\ filled raw sp.
Proof.
  unfold transform.Spans. intros H Hsp.
  destruct (loop initState sdl) as [st|] eqn:Hloop; [|discriminate].
  injection H as <-.
  destruct (loop_tree sdl _ _ initState_valid Hloop) as (_ & (sps & Hsps & Hperm) & _).
  rewrite Hperm in Hsp. cbn in Hsp.
  apply list_elem_of_lookup in Hsp as [i Hi].
  destruct (Forall2_lookup_r _ _ _ _ _ Hsps Hi) as (raw & Hraw & Hf).
  exists raw. split; [eapply list_elem_of_lookup_2, Hraw | exact Hf].
Qed.

Lemma Spans_spans_perm (sdl : list ReadOnlySpan) (b : ptrace.Traces) :
  Spans sdl = Returned b ->
  exists sps, Forall2 filled sdl sps /\ spanNodes b ≡ₚ sps.
Proof.
  unfold transform.Spans. intros H.
  destruct (loop initState sdl) as [st|] eqn:Hloop; [|discriminate].
  injection H as <-.
  destruct (loop_tree sdl _ _ initState_valid Hloop) as (_ & (sps & Hsps & Hperm) & _).
  exists sps. split; [exact Hsps | exact Hperm].
Qed.

End Step.

End TreeFacts.

(* ===================================================================== *)
(** * Properties of the store after a call of the persister                *)
(* ===================================================================== *)

Section StoreFacts.

Import sqliteexporter store.

Variable floatText : Z -> string.
Variable bytesText : string -> string.

Local Abbreviation pcommonMapAsJSON := (sqliteexporter.pcommonMapAsJSON floatText bytesText).
Local Abbreviation ConsumeTraces := (sqliteexporter.ConsumeTraces floatText bytesText).
Local Abbreviation insertTraces := (sqliteexporter.insertTraces floatText bytesText).

Lemma elem_of_concat {A} (x : A) (W : list (list A)) :
  x ∈ concat W <-> exists l, l ∈ W /\ x ∈ l.
Proof.
  induction W as [|l W IH]; simpl.
  - split; [intros H; inversion H | intros (l & H & _); inversion H].
  - rewrite elem_of_app, IH. split.
    + intros [H|(l' & H1 & H2)]; [exists l | exists l'];
        (split; [|assumption]); [apply list_elem_of_here | apply list_elem_of_further, H1].
    + intros (l' & H1 & H2). apply elem_of_cons in H1 as [->|H1]; eauto.
Qed.

Lemma spanNodes_elem (traces : ptrace.Traces) resource scope span :
  resource ∈ traces -> scope ∈ ptrace.ScopeSpansSlice resource ->
  span ∈ ptrace.Spans scope -> span ∈ batch.spanNodes traces.
Proof.
  intros Hr Hs Hsp. unfold batch.spanNodes, batch.scopeNodes, batch.scopeLists.
  apply elem_of_concat. exists (ptrace.Spans scope). split; [|exact Hsp].
  apply list_elem_of_fmap. exists scope. split; [reflexivity|].
  apply elem_of_concat. exists (ptrace.ScopeSpansSlice resource). split; [|exact Hs].
  apply list_elem_of_fmap. eauto.
Qed.

Section Respects.

Variable R : sql.Tables -> sql.Tables -> Prop.
Hypothesis R_refl : forall tx, R tx tx.
Hypothesis R_trans : forall tx1 tx2 tx3, R tx1 tx2 -> R tx2 tx3 -> R tx1 tx3.

Lemma respects_ret {A} (a : A) : respects R (ret a).
Proof. intros tx tx' r H. injection H as <- _. apply R_refl. Qed.

Lemma respects_bind {A B} (m : M A) (k : A -> M B) :
  respects R m -> (forall a, respects R (k a)) -> respects R (bind m k).
Proof.
  intros Hm Hk tx tx' r H. unfold bind in H.
  destruct (m tx) as [tx1 [e|a]] eqn:E.
  - injection H as <- _. eapply Hm, E.
  - eapply R_trans; [eapply Hm, E | eapply Hk, H].
Qed.

Lemma respects_try_bind {A B} e (o : option A) (k : A -> M B) :
  (forall a, o = Some a -> respects R (k a)) -> respects R (bind (try e o) k).
Proof.
  intros Hk tx tx' r H. unfold bind, try in H. destruct o as [a|].
  - eapply Hk; [reflexivity | exact H].
  - injection H as <- _. apply R_refl.
Qed.

Lemma respects_prepare prepares q e : respects R (PrepareContext prepares q e).
Proof.
  intros tx tx' r H. unfold PrepareContext in H.
  destruct (prepares q); injection H as <- _; apply R_refl.
Qed.

Lemma respects_exec {Row} (exec : sql.Tables -> Row -> option sql.Tables) row e :
  (forall tx tx', exec tx row = Some tx' -> R tx tx') ->
  respects R (ExecContext exec row e).
Proof.
  intros Hexec tx tx' r H. unfold ExecContext in H.
  destruct (exec tx row) as [tx1|] eqn:E; injection H as <- _;
    [eapply Hexec, E | apply R_refl].
Qed.

Lemma respects_forEach {A} (xs : list A) (body : A -> M unit) :
  (forall x, x ∈ xs -> respects R (body x)) -> respects R (forEach xs body).
Proof.
  induction xs as [|x xs IH]; intros Hbody; simpl.
  - apply respects_ret.
  - apply respects_bind.
    + apply Hbody, list_elem_of_here.
    + intros _. apply IH. intros y Hy. apply Hbody, list_elem_of_further, Hy.
Qed.

(** The traversal of [ConsumeTraces]: a relation that every insert of
    the row of a span, of an event and of a link of the batch respects
    is respected by the whole body. *)
Lemma respects_insertTraces prepares (traces : ptrace.Traces) :
  (forall span row, span ∈ batch.spanNodes traces ->
     spans.span_id row = ptrace.SpanID span ->
     spans.trace_id row = ptrace.TraceID span ->
     forall tx tx', sql.execSpan tx row = Some tx' -> R tx tx') ->
  (forall row, eventRowOf floatText bytesText traces row ->
     forall tx tx', sql.execEvent tx row = Some tx' -> R tx tx') ->
  (forall row, linkRowOf floatText bytesText traces row ->
     forall tx tx', sql.execLink tx row = Some tx' -> R tx tx') ->
  respects R (insertTraces prepares traces).
Proof.
  intros Hspan Hevent Hlink.
  apply respects_forEach. intros resource Hres.
  apply respects_try_bind. intros rattrs _.
  apply respects_forEach. intros scope Hscope.
  apply respects_try_bind. intros sattrs _.
  apply respects_forEach. intros span Hsp.
  pose proof (spanNodes_elem _ _ _ _ Hres Hscope Hsp) as Hnode.
  apply respects_bind; [apply respects_prepare | intros _].
  apply respects_try_bind. intros attrs _.
  apply respects_bind.
  { apply respects_exec. apply (Hspan span); [exact Hnode | reflexivity | reflexivity]. }
  intros _. apply respects_bind.
  - apply respects_forEach. intros event Hev.
    apply respects_try_bind. intros eattrs Heattrs.
    apply respects_bind; [apply respects_prepare | intros _].
    apply respects_exec. apply Hevent. exists span, event, eattrs. auto.
  - intros _. apply respects_forEach. intros link Hln.
    apply respects_try_bind. intros lattrs Hlattrs.
    apply respects_bind; [apply respects_prepare | intros _].
    apply respects_exec. apply Hlink. exists span, link, lattrs. auto.
Qed.

Lemma respects_ConsumeTraces db (traces : ptrace.Traces) out db' :
  respects R (insertTraces (sql.prepares db) traces) ->
  ConsumeTraces db traces = (out, db') ->
  R (sql.tables db) (sql.tables db').
Proof.
  intros Hbody. unfold sqliteexporter.ConsumeTraces, sql.Begin, sql.BeginTx. intros H.
  destruct (sql.closed db) eqn:Hclosed.
  { injection H as _ <-. apply R_refl. }
  destruct (_ && _).
  { injection H as _ <-. apply R_refl. }
  cbn [sql.closed sql.maxOpen sql.inUse sql.tables sql.prepares] in H.
  destruct (_ && _).
  { injection H as _ <-. apply R_refl. }
  destruct (sqliteexporter.insertTraces _ _ _ _ _) as [tx' r] eqn:Hb.
  injection H as _ <-. cbn [sql.Commit sql.tables]. eapply Hbody, Hb.
Qed.

End Respects.

Lemma concat_fmap_nil {A B} (l : list A) : concat ((fun _ => @nil B) <$> l) = [].
Proof. induction l; simpl; auto. Qed.

Lemma concat_fmap_singleton {A B} (g : A -> B) (l : list A) :
  concat ((fun x => [g x]) <$> l) = g <$> l.
Proof. induction l; simpl; f_equal; auto. Qed.

Section Emits.

Context {Row X : Type}.
Variable proj : sql.Tables -> list Row.
Variable Rel : X -> Row -> Prop.

Lemma emits_ret {A} (a : A) : emits proj Rel [] (ret a).
Proof.
  intros tx tx' a' H. injection H as <- _. exists []. split.
  - symmetry. apply app_nil_r.
  - constructor.
Qed.

Lemma emits_bind {A B} xs ys (m : M A) (k : A -> M B) :
  emits proj Rel xs m -> (forall a, emits proj Rel ys (k a)) ->
  emits proj Rel (xs ++ ys) (bind m k).
Proof.
  intros Hm Hk tx tx' b H. unfold bind in H.
  destruct (m tx) as [tx1 [e|a]] eqn:E; [discriminate|].
  destruct (Hm _ _ _ E) as (new1 & E1 & F1).
  destruct (Hk _ _ _ _ H) as (new2 & E2 & F2).
  exists (new1 ++ new2). split.
  - rewrite E2, E1. symmetry. apply app_assoc.
  - apply Forall2_app; assumption.
Qed.

Lemma emits_try_bind {A B} xs e (o : option A) (k : A -> M B) :
  (forall a, o = Some a -> emits proj Rel xs (k a)) ->
  emits proj Rel xs (bind (try e o) k).
Proof.
  intros Hk tx tx' b H. unfold bind, try in H. destruct o as [a|]; [|discriminate].
  eapply Hk; [reflexivity | exact H].
Qed.

Lemma emits_prepare prepares q e : emits proj Rel [] (PrepareContext prepares q e).
Proof.
  intros tx tx' a H. unfold PrepareContext in H.
  destruct (prepares q); [|discriminate]. injection H as <- _.
  exists []. split; [symmetry; apply app_nil_r | constructor].
Qed.

Lemma emits_exec_here {Arg} (exec : sql.Tables -> Arg -> option sql.Tables) arg e x row :
  (forall tx tx', exec tx arg = Some tx' -> proj tx' = proj tx ++ [row]) ->
  Rel x row -> emits proj Rel [x] (ExecContext exec arg e).
Proof.
  intros Hexec Hrel tx tx' a H. unfold ExecContext in H.
  destruct (exec tx arg) as [tx1|] eqn:E; [|discriminate]. injection H as <- _.
  exists [row]. split; [eapply Hexec, E | repeat constructor; exact Hrel].
Qed.

Lemma emits_exec_other {Arg} (exec : sql.Tables -> Arg -> option sql.Tables) arg e :
  (forall tx tx', exec tx arg = Some tx' -> proj tx' = proj tx) ->
  emits proj Rel [] (ExecContext exec arg e).
Proof.
  intros Hexec tx tx' a H. unfold ExecContext in H.
  destruct (exec tx arg) as [tx1|] eqn:E; [|discriminate]. injection H as <- _.
  exists []. split; [rewrite app_nil_r; eapply Hexec, E | constructor].
Qed.

Lemma emits_forEach {A} (f : A -> list X) (l : list A) (body : A -> M unit) :
  (forall x, x ∈ l -> emits proj Rel (f x) (body x)) ->
  emits proj Rel (concat (f <$> l)) (forEach l body).
Proof.
  induction l as [|x l IH]; intros Hbody; simpl.
  - apply emits_ret.
  - apply emits_bind.
    + apply Hbody, list_elem_of_here.
    + intros _. apply IH. intros y Hy. apply Hbody, list_elem_of_further, Hy.
Qed.

Lemma emits_eq {A} xs ys (m : M A) : xs = ys -> emits proj Rel xs m -> emits proj Rel ys m.
Proof. intros <-. exact id. Qed.

Lemma emits_forEach_nil {A} (l : list A) (body : A -> M unit) :
  (forall x, x ∈ l -> emits proj Rel [] (body x)) ->
  emits proj Rel [] (forEach l body).
Proof.
  intros H. eapply emits_eq; [apply (concat_fmap_nil l)|].
  apply (emits_forEach (fun _ => [])), H.
Qed.

Lemma emits_forEach_singleton {A} (g : A -> X) (l : list A) (body : A -> M unit) :
  (forall x, x ∈ l -> emits proj Rel [g x] (body x)) ->
  emits proj Rel (g <$> l) (forEach l body).
Proof.
  intros H. eapply emits_eq; [apply (concat_fmap_singleton g l)|].
  apply (emits_forEach (fun x => [g x])), H.
Qed.

Lemma emits_ConsumeTraces db (traces : ptrace.Traces) xs :
  emits proj Rel xs (insertTraces (sql.prepares db) traces) ->
  (ConsumeTraces db traces).1 = Return None ->
  exists new, proj (sql.tables (ConsumeTraces db traces).2) = proj (sql.tables db) ++ new /\
    Forall2 Rel xs new.
Proof.
  intros Hbody. unfold sqliteexporter.ConsumeTraces, sql.Begin, sql.BeginTx.
  destruct (sql.closed db) eqn:Hclosed; [discriminate|].
  destruct (_ && _); [discriminate|].
  cbn [sql.closed sql.maxOpen sql.inUse sql.tables sql.prepares].
  destruct (_ && _); [discriminate|].
  destruct (sqliteexporter.insertTraces _ _ _ _ _) as [tx' [e|[]]] eqn:Hb; [discriminate|].
  intros _. cbn [snd sql.Commit sql.tables]. eapply Hbody, Hb.
Qed.

End Emits.

Lemma concat_fmap_concat {A B} (f : A -> list B) (W : list (list A)) :
  concat (f <$> concat W) = concat ((fun l => concat (f <$> l)) <$> W).
Proof.
  induction W as [|l W IH]; simpl; [reflexivity|].
  rewrite fmap_app, concat_app, IH. reflexivity.
Qed.

Lemma eventPairs_nested (traces : ptrace.Traces) :
  eventPairs traces =
  concat ((fun resource =>
     concat ((fun scope =>
        concat ((fun span => (fun event => (span, event)) <$> ptrace.Events span)
                  <$> ptrace.Spans scope))
        <$> ptrace.ScopeSpansSlice resource)) <$> traces).
Proof.
  unfold eventPairs, batch.spanNodes, batch.scopeNodes, batch.scopeLists.
  rewrite concat_fmap_concat, <- list_fmap_compose.
  rewrite concat_fmap_concat, <- !list_fmap_compose. reflexivity.
Qed.

Lemma linkPairs_nested (traces : ptrace.Traces) :
  linkPairs traces =
  concat ((fun resource =>
     concat ((fun scope =>
        concat ((fun span => (fun link => (span, link)) <$> ptrace.Links span)
                  <$> ptrace.Spans scope))
        <$> ptrace.ScopeSpansSlice resource)) <$> traces).
Proof.
  unfold linkPairs, batch.spanNodes, batch.scopeNodes, batch.scopeLists.
  rewrite concat_fmap_concat, <- list_fmap_compose.
  rewrite concat_fmap_concat, <- !list_fmap_compose. reflexivity.
Qed.

Lemma spanTriples_spanNodes (traces : ptrace.Traces) :
  snd <$> spanTriples traces = batch.spanNodes traces.
Proof.
  unfold spanTriples, batch.spanNodes, batch.scopeNodes, batch.scopeLists.
  induction traces as [|resource traces IH]; [reflexivity|].
  rewrite !fmap_cons. cbn [concat]. rewrite !fmap_app, concat_app, IH. f_equal.
  induction (ptrace.ScopeSpansSlice resource) as [|scope l IHl]; [reflexivity|].
  rewrite !fmap_cons. cbn [concat]. rewrite fmap_app, IHl. f_equal.
  rewrite <- list_fmap_compose. apply list_fmap_id.
Qed.

Lemma emits_spans prepares (traces : ptrace.Traces) :
  emits sql.spans (spanRowFor floatText bytesText traces) (spanTriples traces)
        (insertTraces prepares traces).
Proof.
  unfold spanTriples. apply emits_forEach. intros resource Hres.
  apply emits_try_bind. intros rattrs Hrattrs.
  apply emits_forEach. intros scope Hscope.
  apply emits_try_bind. intros sattrs Hsattrs.
  apply emits_forEach_singleton. intros span Hsp.
  apply (emits_bind _ _ [] _); [apply emits_prepare | intros _].
  apply emits_try_bind. intros attrs Hattrs.
  eapply emits_eq; [apply app_nil_r|].
  apply emits_bind.
  { eapply emits_exec_here.
    - intros tx tx' H. exec_inv H. reflexivity.
    - unfold spanRowFor, rowOf. cbn [fst snd]. repeat (split; [assumption|]).
      exists rattrs, sattrs, attrs. auto. }
  intros _. apply (emits_bind _ _ [] []).
  - apply emits_forEach_nil. intros event _.
    apply emits_try_bind. intros eattrs _.
    apply (emits_bind _ _ [] []); [apply emits_prepare | intros _].
    apply emits_exec_other. intros tx tx' H. exec_inv H. reflexivity.
  - intros _. apply emits_forEach_nil. intros link _.
    apply emits_try_bind. intros lattrs _.
    apply (emits_bind _ _ [] []); [apply emits_prepare | intros _].
    apply emits_exec_other. intros tx tx' H. exec_inv H. reflexivity.
Qed.

Lemma emits_events prepares (traces : ptrace.Traces) :
  emits sql.events (eventRowFor floatText bytesText) (eventPairs traces)
        (insertTraces prepares traces).
Proof.
  rewrite eventPairs_nested. apply emits_forEach. intros resource _.
  apply emits_try_bind. intros rattrs _.
  apply emits_forEach. intros scope _.
  apply emits_try_bind. intros sattrs _.
  apply emits_forEach. intros span _.
  apply (emits_bind _ _ [] _); [apply emits_prepare | intros _].
  apply emits_try_bind. intros attrs _.
  apply (emits_bind _ _ [] _).
  { apply emits_exec_other. intros tx tx' H. exec_inv H. reflexivity. }
  intros _. eapply emits_eq; [apply app_nil_r|]. apply emits_bind.
  - apply emits_forEach_singleton. intros event _.
    apply emits_try_bind. intros eattrs Heattrs.
    apply (emits_bind _ _ [] _); [apply emits_prepare | intros _].
    eapply emits_exec_here.
    + intros tx tx' H. exec_inv H. reflexivity.
    + exists eattrs. auto.
  - intros _. apply emits_forEach_nil. intros link _.
    apply emits_try_bind. intros lattrs _.
    apply (emits_bind _ _ [] []); [apply emits_prepare | intros _].
    apply emits_exec_other. intros tx tx' H. exec_inv H. reflexivity.
Qed.

Lemma emits_links prepares (traces : ptrace.Traces) :
  emits sql.links (linkRowFor floatText bytesText) (linkPairs traces)
        (insertTraces prepares traces).
Proof.
  rewrite linkPairs_nested. apply emits_forEach. intros resource _.
  apply emits_try_bind. intros rattrs _.
  apply emits_forEach. intros scope _.
  apply emits_try_bind. intros sattrs _.
  apply emits_forEach. intros span _.
  apply (emits_bind _ _ [] _); [apply emits_prepare | intros _].
  apply emits_try_bind. intros attrs _.
  apply (emits_bind _ _ [] _).
  { apply emits_exec_other. intros tx tx' H. exec_inv H. reflexivity. }
  intros _. apply (emits_bind _ _ [] _).
  - apply emits_forEach_nil. intros event _.
    apply emits_try_bind. intros eattrs _.
    apply (emits_bind _ _ [] []); [apply emits_prepare | intros _].
    apply emits_exec_other. intros tx tx' H. exec_inv H. reflexivity.
  - intros _. apply emits_forEach_singleton. intros link _.
    apply emits_try_bind. intros lattrs Hlattrs.
    apply (emits_bind _ _ [] _); [apply emits_prepare | intros _].
    eapply emits_exec_here.
    + intros tx tx' H. exec_inv H. reflexivity.
    + exists lattrs. auto.
Qed.

Lemma eqBytes_eq a b : sql.eqBytes a b = true <-> a = b.
Proof.
  revert b. induction a as [|x a IH]; intros [|y b]; simpl; try (split; [discriminate|discriminate]);
    [split; reflexivity|].
  rewrite andb_true_iff, IH. split.
  - intros [H ->]. apply Byte.byte_dec_bl in H. subst. reflexivity.
  - intros H. injection H as -> ->. split; [apply Byte.byte_dec_lb|]; reflexivity.
Qed.

Lemma sameKey_key a b : sql.sameKey a b = true <-> key a = key b.
Proof.
  unfold sql.sameKey, key. rewrite andb_true_iff, !eqBytes_eq. split.
  - intros [-> ->]. reflexivity.
  - intros H. injection H as -> ->. auto.
Qed.

Lemma execSpan_fresh tx row tx' :
  sql.execSpan tx row = Some tx' ->
  tx' = {| sql.spans := sql.spans tx ++ [row]; sql.events := sql.events tx;
           sql.links := sql.links tx |} /\
  key row ∉ key <$> sql.spans tx.
Proof.
  intros H. apply execSpan_Some in H as (_ & E & ->). split; [reflexivity|].
  intros Hin. apply list_elem_of_fmap in Hin as (r & Hk & Hr).
  assert (existsb (sql.sameKey row) (sql.spans tx) = true); [|congruence].
  apply existsb_exists. exists r. split; [apply list_elem_of_In, Hr | apply sameKey_key, Hk].
Qed.

Lemma appended_refl tx : appended tx tx.
Proof. repeat split; exists []; symmetry; apply app_nil_r. Qed.

Lemma appended_trans tx1 tx2 tx3 : appended tx1 tx2 -> appended tx2 tx3 -> appended tx1 tx3.
Proof.
  intros ((a & Ha) & (b & Hb) & (c & Hc)) ((a' & Ha') & (b' & Hb') & (c' & Hc')).
  repeat split; [exists (a ++ a') | exists (b ++ b') | exists (c ++ c')];
    rewrite app_assoc; congruence.
Qed.

Lemma gains_refl P Q tx : gains P Q tx tx.
Proof. split; exists []; (split; [symmetry; apply app_nil_r | constructor]). Qed.

Lemma gains_trans P Q tx1 tx2 tx3 : gains P Q tx1 tx2 -> gains P Q tx2 tx3 -> gains P Q tx1 tx3.
Proof.
  intros ((a & Ha & Fa) & (b & Hb & Fb)) ((a' & Ha' & Fa') & (b' & Hb' & Fb')).
  split; [exists (a ++ a') | exists (b ++ b')];
    (split; [rewrite app_assoc; congruence | apply Forall_app; auto]).
Qed.

Lemma fresh_refl tx : fresh tx tx.
Proof.
  exists []. split; [symmetry; apply app_nil_r|]. split; [constructor|].
  intros r H. inversion H.
Qed.

Lemma fresh_trans tx1 tx2 tx3 : fresh tx1 tx2 -> fresh tx2 tx3 -> fresh tx1 tx3.
Proof.
  intros (a & Ha & Na & Da) (b & Hb & Nb & Db). exists (a ++ b). split.
  { rewrite app_assoc. congruence. }
  split.
  - rewrite fmap_app. apply NoDup_app. split; [exact Na|]. split; [|exact Nb].
    intros k Hka Hkb. apply list_elem_of_fmap in Hkb as (r & -> & Hr).
    apply (Db r Hr). rewrite Ha, fmap_app. apply elem_of_app. auto.
  - intros r Hr Hin. apply elem_of_app in Hr as [Hr|Hr].
    + exact (Da r Hr Hin).
    + apply (Db r Hr). rewrite Ha, fmap_app. apply elem_of_app. auto.
Qed.

(** Whatever a call returns, [spans] has only gained rows whose keys
    differ from one another and from those that were there. *)
Lemma ConsumeTraces_fresh db (traces : ptrace.Traces) :
  fresh (sql.tables db) (sql.tables (ConsumeTraces db traces).2).
Proof.
  destruct (ConsumeTraces db traces) as [out db'] eqn:E.
  refine (respects_ConsumeTraces fresh fresh_refl db traces out db' _ E).
  apply (respects_insertTraces fresh fresh_refl fresh_trans).
  - intros span row _ _ _ tx tx' H. apply execSpan_fresh in H as [-> H2].
    exists [row]. split; [reflexivity|]. split.
    + apply NoDup_singleton.
    + intros r Hr. apply list_elem_of_singleton in Hr as ->. exact H2.
  - intros row _ tx tx' H. exec_inv H. exact (fresh_refl tx).
  - intros row _ tx tx' H. exec_inv H. exact (fresh_refl tx).
Qed.

Lemma Forall2_spanRowFor_keys traces xs new :
  Forall2 (spanRowFor floatText bytesText traces) xs new ->
  key <$> new = spanKey <$> (snd <$> xs).
Proof.
  induction 1 as [|x row xs new Hrow _ IH]; [reflexivity|].
  rewrite !fmap_cons, IH. f_equal.
  destruct Hrow as (_ & _ & _ & rattrs & sattrs & attrs & _ & _ & _ & ->). reflexivity.
Qed.

(** X6 (ConsumeTraces never removes or changes a row). Whatever a call of
    ConsumeTraces returns (nil, an error, or no return because it waits
    for a connection), each of the tables spans, events and links is
    afterwards the table as it was before the call, followed by zero or
    more new rows. *)
Theorem ConsumeTraces_only_appends db (traces : ptrace.Traces) :
  appended (sql.tables db) (sql.tables (ConsumeTraces db traces).2).
Proof.
  destruct (ConsumeTraces db traces) as [out db'] eqn:E.
  refine (respects_ConsumeTraces appended appended_refl db traces out db' _ E).
  apply (respects_insertTraces appended appended_refl appended_trans).
  - intros span row _ _ _ tx tx' H. apply execSpan_fresh in H as [-> _].
    repeat split; [exists [row] | exists [] | exists []]; cbn; try reflexivity;
      symmetry; apply app_nil_r.
  - intros row _ tx tx' H. exec_inv H.
    repeat split; [exists [] | exists [row] | exists []]; cbn; try reflexivity;
      symmetry; apply app_nil_r.
  - intros row _ tx tx' H. exec_inv H.
    repeat split; [exists [] | exists [] | exists [row]]; cbn; try reflexivity;
      symmetry; apply app_nil_r.
Qed.

Lemma ConsumeTraces_gains db (traces : ptrace.Traces) :
  gains (eventRowOf floatText bytesText traces) (linkRowOf floatText bytesText traces)
        (sql.tables db) (sql.tables (ConsumeTraces db traces).2).
Proof.
  destruct (ConsumeTraces db traces) as [out db'] eqn:E.
  refine (respects_ConsumeTraces _ (gains_refl _ _) db traces out db' _ E).
  apply (respects_insertTraces _ (gains_refl _ _) (gains_trans _ _)).
  - intros span row _ _ _ tx tx' H. apply execSpan_fresh in H as [-> _].
    exact (gains_refl _ _ tx).
  - intros row Hrow tx tx' H. exec_inv H. split; cbn.
    + exists [row]. split; [reflexivity | repeat constructor; exact Hrow].
    + exists []. split; [symmetry; apply app_nil_r | constructor].
  - intros row Hrow tx tx' H. exec_inv H. split; cbn.
    + exists []. split; [symmetry; apply app_nil_r | constructor].
    + exists [row]. split; [reflexivity | repeat constructor; exact Hrow].
Qed.




(** X10 (the primary key is kept). If no two rows of spans have the same
    (span_id, trace_id) before a call of ConsumeTraces, then none have
    after it, whatever the call returns. *)
Theorem ConsumeTraces_keeps_keys_unique db (traces : ptrace.Traces) :
  uniqueKeys (sql.tables db) ->
  uniqueKeys (sql.tables (ConsumeTraces db traces).2).
Proof.
  intros Hu. destruct (ConsumeTraces_fresh db traces) as (new & E & Hn & Hd).
  unfold uniqueKeys. rewrite E, fmap_app. apply NoDup_app.
  split; [exact Hu|]. split; [|exact Hn].
  intros k Hk Hk'. apply list_elem_of_fmap in Hk' as (r & -> & Hr). exact (Hd r Hr Hk).
Qed.

(** X11 (a batch with a repeated or a stored span id is never accepted).
    When ConsumeTraces returns nil, the Span nodes of the batch have
    pairwise distinct (span_id, trace_id) pairs, and none of these pairs
    was the key of a row of spans before the call. *)
Theorem ConsumeTraces_success_distinct_ids db (traces : ptrace.Traces) :
  (ConsumeTraces db traces).1 = Return None ->
  NoDup (spanKey <$> batch.spanNodes traces) /\
  forall span, span ∈ batch.spanNodes traces ->
    spanKey span ∉ key <$> sql.spans (sql.tables db).
Proof.
  intros H.
  destruct (emits_ConsumeTraces _ _ db traces _ (emits_spans _ traces) H) as (new & E & F).
  destruct (ConsumeTraces_fresh db traces) as (new' & E' & Hn & Hd).
  rewrite E in E'. apply app_inv_head in E'. subst new'.
  pose proof (Forall2_spanRowFor_keys _ _ _ F) as Hk.
  rewrite spanTriples_spanNodes in Hk. split.
  - rewrite <- Hk. exact Hn.
  - intros span Hsp Hin.
    assert (spanKey span ∈ key <$> new) as Hin'.
    { rewrite Hk. apply list_elem_of_fmap. eauto. }
    apply list_elem_of_fmap in Hin' as (r & Hr & Hrn). rewrite Hr in Hin.
    exact (Hd r Hrn Hin).
Qed.

(** X12 (a pool of one connection, a context that is never cancelled).
    The model of [BeginTx] is that of a call whose context is never
    cancelled, such as [context.Background()]. For such a call, on a
    handle that is open and whose ceiling of open connections is reached
    once the call holds one connection (the ceiling 1 that
    newSqliteExporter sets, with no connection in use), ConsumeTraces
    does not return: after BeginTx has taken a connection, e.db.Begin()
    waits for another one, and as long as the context lives nothing
    gives one back. Nothing has been written at that point. *)
Theorem ConsumeTraces_waits_at_pool_ceiling db (traces : ptrace.Traces) :
  sql.closed db = false ->
  (0 < sql.maxOpen db <= sql.inUse db + 1)%nat ->
  (ConsumeTraces db traces).1 = Waits /\
  sql.tables (ConsumeTraces db traces).2 = sql.tables db.
Proof.
  intros Hc Hm. unfold sqliteexporter.ConsumeTraces, sql.Begin, sql.BeginTx. rewrite Hc.
  destruct ((0 <? sql.maxOpen db)%nat && (sql.maxOpen db <=? sql.inUse db)%nat) eqn:E1;
    [split; reflexivity|].
  cbn [sql.closed sql.maxOpen sql.inUse sql.tables sql.prepares].
  assert ((0 <? sql.maxOpen db)%nat && (sql.maxOpen db <=? S (sql.inUse db))%nat = true) as ->.
  { apply andb_true_iff. split; [apply Nat.ltb_lt | apply Nat.leb_le]; lia. }
  split; reflexivity.
Qed.

Lemma ConsumeTraces_inUse db (traces : ptrace.Traces) err :
  sql.closed db = false ->
  (ConsumeTraces db traces).1 = Return err ->
  sql.inUse (ConsumeTraces db traces).2 = S (sql.inUse db).
Proof.
  intros Hc. unfold sqliteexporter.ConsumeTraces, sql.Begin, sql.BeginTx. rewrite Hc.
  destruct ((0 <? sql.maxOpen db)%nat && (sql.maxOpen db <=? sql.inUse db)%nat);
    [discriminate|].
  cbn [sql.closed sql.maxOpen sql.inUse sql.tables sql.prepares].
  destruct ((0 <? sql.maxOpen db)%nat && (sql.maxOpen db <=? S (sql.inUse db))%nat);
    [discriminate|].
  destruct (sqliteexporter.insertTraces _ _ _ _ _) as [tx' r]. intros _. reflexivity.
Qed.

(** X13 (every returning call keeps a connection). When ConsumeTraces
    returns on an open handle (with nil or with an error of the body),
    the pool has one more connection in use than before the call: the
    transaction begun by e.db.Begin() is neither committed nor rolled
    back. *)
Theorem ConsumeTraces_keeps_a_connection db (traces : ptrace.Traces) err :
  sql.closed db = false ->
  (ConsumeTraces db traces).1 = Return err ->
  sql.inUse (ConsumeTraces db traces).2 = S (sql.inUse db).
Proof. exact (ConsumeTraces_inUse db traces err). Qed.


End StoreFacts.

(* ===================================================================== *)
(** * From the raw spans to the rows: ExportSpans                          *)
(* ===================================================================== *)

Section ExporterFacts.

Import sdktrace sqliteexporter store.

Variable emitOther : attribute.Value -> string.
Variable floatText : Z -> string.
Variable bytesText : string -> string.

Local Abbreviation pcommonMapAsJSON := (sqliteexporter.pcommonMapAsJSON floatText bytesText).
Local Abbreviation ConsumeTraces := (sqliteexporter.ConsumeTraces floatText bytesText).
Local Abbreviation ExportSpans := (sqliteexporter.ExportSpans floatText bytesText emitOther).
Local Abbreviation Spans := (transform.Spans emitOther).
Local Abbreviation rowOf := (sqliteexporter.rowOf floatText bytesText).

Lemma grows_impl (P Q : spans.Row -> Prop) tx tx' :
  (forall row, P row -> Q row) -> grows P tx tx' -> grows Q tx tx'.
Proof.
  intros H (new & E & F). exists new. split; [exact E|].
  eapply Forall_impl; [exact F | exact H].
Qed.

Lemma int64_uint64 t : - 2 ^ 63 <= t < 2 ^ 63 -> int64 (uint64 t) = t.
Proof.
  intros H. unfold int64, uint64, wrap64. rewrite Z.mod_mod by lia.
  destruct (Z.leb_spec 0 t).
  - rewrite Z.mod_small by lia. destruct (Z.ltb_spec t (2 ^ 63)); lia.
  - replace (t mod 2 ^ 64) with (t + 2 ^ 64).
    + destruct (Z.ltb_spec (t + 2 ^ 64) (2 ^ 63)); lia.
    + apply (Z.mod_unique _ _ (-1)); lia.
Qed.

Lemma rowOf_spanNodes traces resource scope span row :
  rowOf traces resource scope span row ->
  scope ∈ batch.scopeNodes traces /\ span ∈ batch.spanNodes traces.
Proof.
  intros (Hres & Hscope & Hsp & _). split.
  - unfold batch.scopeNodes, batch.scopeLists. apply elem_of_concat.
    exists (ptrace.ScopeSpansSlice resource). split; [|exact Hscope].
    apply list_elem_of_fmap. eauto.
  - eapply spanNodes_elem; eassumption.
Qed.

Lemma length_concat_fmap {A B} (f : A -> list B) (l : list A) :
  length (concat (f <$> l)) = sum_list_with (fun x => length (f x)) l.
Proof.
  induction l as [|x l IH]; [reflexivity|].
  rewrite fmap_cons. cbn [concat sum_list_with]. rewrite length_app, IH. reflexivity.
Qed.

Lemma sum_list_with_Forall2 {A B} (f : A -> nat) (g : B -> nat) l k :
  Forall2 (fun x y => f x = g y) l k -> sum_list_with f l = sum_list_with g k.
Proof. induction 1; simpl; congruence. Qed.

(** X15 (the scope's identity does not reach the store). Spans registers
    a Scope node under the fingerprint of the raw span's instrumentation
    scope but never sets the node's name, version or attributes, so
    every row that ExportSpans adds to spans has the empty string as
    instrumentation_library_name and instrumentation_library_version and
    the empty object as instrumentation_library_attributes, whatever the
    instrumentation scopes of the raw spans. *)
Theorem ExportSpans_drops_scope_identity db (sdl : list ReadOnlySpan) r :
  ExportSpans db sdl = Returned r ->
  grows (fun row =>
           spans.instrumentation_library_name row = EmptyString /\
           spans.instrumentation_library_version row = EmptyString /\
           spans.instrumentation_library_attributes row = "{}")
        (sql.tables db) (sql.tables r.2).
Proof.
  unfold sqliteexporter.ExportSpans.
  destruct (Spans sdl) as [b|] eqn:Hb; [|discriminate]. intros H. injection H as <-.
  destruct (ConsumeTraces db b) as [out db'] eqn:E.
  eapply grows_impl; [|exact (ConsumeTraces_rows _ _ _ _ _ _ E)].
  intros row (resource & scope & span & Hrow).
  destruct (rowOf_spanNodes _ _ _ _ _ Hrow) as [Hscope _].
  pose proof (Spans_scopes_unset _ _ _ Hb) as Hu.
  rewrite Forall_forall in Hu. specialize (Hu _ Hscope). unfold batch.scopeUnset in Hu.
  destruct Hrow as (_ & _ & _ & rattrs & sattrs & attrs & _ & Hs & _ & ->).
  cbn [spanRow spans.instrumentation_library_name spans.instrumentation_library_version
       spans.instrumentation_library_attributes].
  rewrite Hu in Hs |- *. split; [reflexivity|]. split; [reflexivity|].
  vm_compute in Hs. injection Hs as <-. reflexivity.
Qed.


(** X17 (one row per raw span, event and link). When ExportSpans returns
    nil, spans has gained as many rows as there are raw spans, events as
    many rows as the raw spans have events, and links as many rows as
    the raw spans have links. *)
Theorem ExportSpans_success_row_counts db (sdl : list ReadOnlySpan) r :
  ExportSpans db sdl = Returned r ->
  r.1 = Return None ->
  length (sql.spans (sql.tables r.2)) =
    (length (sql.spans (sql.tables db)) + length sdl)%nat /\
  length (sql.events (sql.tables r.2)) =
    (length (sql.events (sql.tables db)) +
     sum_list_with (fun raw => length (Events raw)) sdl)%nat /\
  length (sql.links (sql.tables r.2)) =
    (length (sql.links (sql.tables db)) +
     sum_list_with (fun raw => length (Links raw)) sdl)%nat.
Proof.
  unfold sqliteexporter.ExportSpans.
  destruct (Spans sdl) as [b|] eqn:Hb; [|discriminate]. intros H. injection H as <-.
  intros Hok.
  destruct (Spans_spans_perm _ _ _ Hb) as (sps & Hsps & Hperm).
  destruct (emits_ConsumeTraces floatText bytesText _ _ db b _
              (emits_spans floatText bytesText _ b) Hok) as (new1 & E1 & F1).
  destruct (emits_ConsumeTraces floatText bytesText _ _ db b _
              (emits_events floatText bytesText _ b) Hok) as (new2 & E2 & F2).
  destruct (emits_ConsumeTraces floatText bytesText _ _ db b _
              (emits_links floatText bytesText _ b) Hok) as (new3 & E3 & F3).
  rewrite E1, E2, E3, !length_app.
  rewrite <- (Forall2_length _ _ _ F1), <- (Forall2_length _ _ _ F2),
          <- (Forall2_length _ _ _ F3).
  split; [|split]; f_equal.
  - rewrite <- (length_fmap snd), spanTriples_spanNodes, (Permutation_length Hperm).
    symmetry. eapply Forall2_length, Hsps.
  - unfold eventPairs. rewrite length_concat_fmap.
    rewrite (sum_list_with_Permutation_proper _ _ _ Hperm). symmetry.
    apply sum_list_with_Forall2. eapply Forall2_impl; [exact Hsps|].
    intros raw sp (code & _ & ->). cbn. rewrite length_fmap, length_map. reflexivity.
  - unfold linkPairs. rewrite length_concat_fmap.
    rewrite (sum_list_with_Permutation_proper _ _ _ Hperm). symmetry.
    apply sum_list_with_Forall2. eapply Forall2_impl; [exact Hsps|].
    intros raw sp (code & _ & ->). cbn. rewrite length_fmap, length_map. reflexivity.
Qed.

Lemma gains_impl (P P' : events.Row -> Prop) (Q Q' : links.Row -> Prop) tx tx' :
  (forall row, P row -> P' row) -> (forall row, Q row -> Q' row) ->
  gains P Q tx tx' -> gains P' Q' tx tx'.
Proof.
  intros HP HQ ((a & Ea & Fa) & (b & Eb & Fb)). split.
  - exists a. split; [exact Ea | eapply Forall_impl; [exact Fa | exact HP]].
  - exists b. split; [exact Eb | eapply Forall_impl; [exact Fb | exact HQ]].
Qed.


Lemma serviceName_Get (attrs : pcommon.Map) :
  serviceName "unknown" attrs =
  match pcommon.Get attrs "service.name" with
  | Some (pcommon.ValueStr s) => if String.eqb s EmptyString then "unknown" else s
  | _ => "unknown"
  end.
Proof.
  induction attrs as [|[k v] attrs IH]; [reflexivity|].
  cbn [serviceName pcommon.Get]. destruct (String.eqb k "service.name"); [|exact IH].
  destruct v; reflexivity.
Qed.

(** X18 (the service name of a row). Whatever a call of ConsumeTraces
    returns, the __service_name of every row it adds to spans is never
    empty: it is the value of the first service.name attribute of one of
    the Resource nodes of the batch when that value is a non-empty
    string, and the text unknown when the node has no such attribute or
    its value is the empty string or not a string. *)
Theorem ConsumeTraces_service_name db (traces : ptrace.Traces) :
  grows (fun row => exists resource, resource ∈ traces /\
           spans.__service_name row <> EmptyString /\
           spans.__service_name row =
             match pcommon.Get (ptrace.ResourceAttributes (ptrace.Res resource))
                               "service.name" with
             | Some (pcommon.ValueStr s) =>
                 if String.eqb s EmptyString then "unknown" else s
             | _ => "unknown"
             end)
        (sql.tables db) (sql.tables (ConsumeTraces db traces).2).
Proof.
  destruct (ConsumeTraces db traces) as [out db'] eqn:E.
  eapply grows_impl; [|exact (ConsumeTraces_rows _ _ _ _ _ _ E)].
  intros row (resource & scope & span & Hres & _ & _ & rattrs & sattrs & attrs & _ & _ & _ & ->).
  exists resource. split; [exact Hres|].
  cbn [spanRow spans.__service_name]. rewrite serviceName_Get. split; [|reflexivity].
  destruct (pcommon.Get _ _) as [[]|]; try discriminate.
  destruct (String.eqb_spec s EmptyString); [discriminate | assumption].
Qed.

(** X19 (duration against the two time columns). For a stored span whose
    start is not after its end (timestamps below 2^63 nanoseconds),
    start_time is at most end_time, and __duration is end_time minus
    start_time or one microsecond less: the two columns are truncated
    one by one, the duration is truncated after the subtraction. *)
Theorem stored_duration_within_one_microsecond traces resource scope span row :
  rowOf traces resource scope span row ->
  0 <= ptrace.StartTimestamp span <= ptrace.EndTimestamp span ->
  ptrace.EndTimestamp span < 2 ^ 63 ->
  spans.start_time row <= spans.end_time row /\
  spans.__duration row <= spans.end_time row - spans.start_time row <=
    spans.__duration row + 1.
Proof.
  intros (_ & _ & _ & rattrs & sattrs & attrs & _ & _ & _ & ->) Hse He.
  cbn [spanRow spans.start_time spans.end_time spans.__duration].
  unfold pcommon.AsTime, unixMicro, Microseconds.
  rewrite !int64_small by lia. rewrite Sub_exact by lia.
  rewrite !Z.quot_div_nonneg by lia.
  Z.div_mod_to_equations. lia.
Qed.

End ExporterFacts.

Section FingerprintFacts.

Import transform.

Lemma Write_app h a b : fnv.Write h (a +:+ b) = fnv.Write (fnv.Write h a) b.
Proof. revert h. induction a as [|c a IH]; intros h; simpl; [reflexivity | apply IH]. Qed.

(** X20 (scope fingerprints ignore where a field ends). hashScope writes
    the name, the schema URL and the version into the hash one after the
    other with nothing between them, so two instrumentation scopes for
    which the three texts put end to end are the same text have the same
    fingerprint. *)
Theorem hashScope_of_concatenation (s1 s2 : instrumentation.Scope) :
  instrumentation.Name s1 +:+ instrumentation.SchemaURL s1 +:+ instrumentation.Version s1 =
  instrumentation.Name s2 +:+ instrumentation.SchemaURL s2 +:+ instrumentation.Version s2 ->
  hashScope s1 = hashScope s2.
Proof.
  intros H. unfold hashScope. cbv zeta. rewrite <- !Write_app, H. reflexivity.
Qed.

End FingerprintFacts.

(* ===================================================================== *)
(** * When the attribute maps can be written as JSON                       *)
(* ===================================================================== *)

Section MarshalFacts.

Import json transform.

Variable floatText : Z -> string.
Variable bytesText : string -> string.

Local Abbreviation Marshal := (json.Marshal floatText bytesText).
Local Abbreviation pcommonMapAsJSON := (sqliteexporter.pcommonMapAsJSON floatText bytesText).

Lemma collect_all {A} (l : list (option A)) :
  Forall is_Some l -> is_Some (collect l).
Proof.
  induction 1 as [|o l [x ->] _ [r IH]]; simpl; [eauto|]. rewrite IH. eauto.
Qed.

Lemma Marshal_scalar v : attrs.scalar v -> is_Some (Marshal v).
Proof.
  destruct v; cbn [json.Marshal attrs.scalar]; intros H; try contradiction;
    try (eexists; reflexivity).
  rewrite H. eexists. reflexivity.
Qed.

Lemma Marshal_flat v : attrs.flat v -> is_Some (Marshal v).
Proof.
  destruct v; try (apply Marshal_scalar); cbn [json.Marshal attrs.flat]; [contradiction|].
  intros H. apply fmap_is_Some, collect_all.
  induction H as [|x l Hx _ IH]; constructor; [apply Marshal_scalar, Hx | exact IH].
Qed.

Lemma assign_elem {A} (m : list (string * A)) k v e :
  e ∈ assign m k v -> e = (k, v) \/ e ∈ m.
Proof.
  induction m as [|[k0 v0] m IH]; simpl.
  - intros H. apply list_elem_of_singleton in H. auto.
  - destruct (String.eqb_spec k0 k) as [->|Hne]; rewrite !elem_of_cons; [tauto|].
    intros [H|H]; [tauto|]. destruct (IH H); tauto.
Qed.

Lemma AsRaw_elem {A} (m : list (string * A)) e : e ∈ AsRaw m -> e ∈ m.
Proof.
  unfold AsRaw. assert (forall acc, e ∈ fold_left (fun raw kv => assign raw kv.1 kv.2) m acc ->
                                    e ∈ acc \/ e ∈ m) as H.
  { induction m as [|[k v] m IH]; intros acc; simpl; [auto|].
    intros H. apply IH in H as [H|H]; [|right; apply list_elem_of_further, H].
    apply assign_elem in H as [->|H]; [right; apply list_elem_of_here | auto]. }
  intros He. apply H in He as [He|He]; [inversion He | exact He].
Qed.

Lemma insertKey_elem {A} (e0 : string * A) l e :
  e ∈ insertKey e0 l -> e = e0 \/ e ∈ l.
Proof.
  induction l as [|e' l IH]; simpl.
  - intros H. apply list_elem_of_singleton in H. auto.
  - destruct (String.compare e0.1 e'.1); rewrite !elem_of_cons; tauto.
Qed.

Lemma sortKeys_elem {A} (l : list (string * A)) e : e ∈ sortKeys l -> e ∈ l.
Proof.
  induction l as [|e0 l IH]; simpl; [auto|].
  intros H. apply insertKey_elem in H as [->|H];
    [apply list_elem_of_here | apply list_elem_of_further, IH, H].
Qed.

Lemma entriesOf_all (m : list (string * option string)) :
  Forall (fun e => is_Some e.2) m -> is_Some (entriesOf m).
Proof.
  intros H. unfold entriesOf. apply collect_all.
  apply Forall_forall. intros o Ho. apply list_elem_of_In, in_map_iff in Ho as (e & <- & He).
  apply list_elem_of_In, sortKeys_elem, AsRaw_elem in He.
  rewrite Forall_forall in H. destruct (H e He) as [t ->]. eauto.
Qed.

Lemma MarshalMap_flat (m : pcommon.Map) :
  Forall (fun e => attrs.flat e.2) m -> is_Some (pcommonMapAsJSON m).
Proof.
  intros H. unfold sqliteexporter.pcommonMapAsJSON, MarshalMap. rewrite Marshal_map.
  apply fmap_is_Some, entriesOf_all.
  induction H as [|e m He _ IH]; constructor; [apply Marshal_flat, He | exact IH].
Qed.

Lemma Put_flat (m : pcommon.Map) k v :
  Forall (fun e => attrs.flat e.2) m -> attrs.flat v ->
  Forall (fun e => attrs.flat e.2) (pcommon.Put m k v).
Proof.
  intros H Hv. induction H as [|[k0 v0] m He Hm IH]; simpl.
  - constructor; [exact Hv | constructor].
  - destruct (String.eqb k0 k); constructor; assumption.
Qed.

Lemma sliceOf_flat {A} (mk : A -> pcommon.Value) (raw : list A) :
  Forall (fun x => attrs.scalar (mk x)) raw -> attrs.flat (sliceOf mk raw).
Proof. intros H. simpl. apply Forall_map. exact H. Qed.

Lemma transformAttribute_flat (to : pcommon.Map) a :
  Forall (fun e => attrs.flat e.2) to -> attrs.finite (attribute.Val a) ->
  Forall (fun e => attrs.flat e.2) (transformAttribute to a).
Proof.
  intros Hto Ha. unfold transformAttribute.
  destruct (attribute.Val a); try exact Hto; apply Put_flat; try exact Hto;
    try exact I; try exact Ha; apply sliceOf_flat;
    try (apply Forall_forall; intros; exact I); exact Ha.
Qed.

Lemma transformAttributes_flat from :
  Forall (fun a => attrs.finite (attribute.Val a)) from ->
  Forall (fun e => attrs.flat e.2) (transformAttributes from).
Proof.
  unfold transformAttributes.
  assert (forall acc : pcommon.Map,
            Forall (fun a => attrs.finite (attribute.Val a)) from ->
            Forall (fun e => attrs.flat e.2) acc ->
            Forall (fun e => attrs.flat e.2) (fold_left transformAttribute from acc)) as H.
  { induction from as [|a from IH]; intros acc Hf Hacc; simpl; [exact Hacc|].
    apply Forall_cons in Hf as [Ha Hf]. apply IH; [exact Hf|].
    apply transformAttribute_flat; assumption. }
  intros Hf. apply H; [exact Hf|]. unfold pcommon.NewMap. constructor.
Qed.

Lemma transformAttributes_marshal from :
  Forall (fun a => attrs.finite (attribute.Val a)) from ->
  is_Some (pcommonMapAsJSON (transformAttributes from)).
Proof. intros H. apply MarshalMap_flat, transformAttributes_flat, H. Qed.

(** X21 (attributes without NaN or infinity can always be written). For
    a list of attributes none of which holds a float that is NaN or an
    infinity (as a value or in a slice), the JSON serialization of the
    map that transformAttributes builds succeeds: encoding/json refuses
    nothing else that the transformation can produce. *)
Theorem finite_attributes_marshal from :
  Forall (fun a => attrs.finite (attribute.Val a)) from ->
  exists text, pcommonMapAsJSON (transformAttributes from) = Some text.
Proof. intros H. exact (transformAttributes_marshal from H). Qed.

End MarshalFacts.

(* ===================================================================== *)
(** * When a call returns nil                                              *)
(* ===================================================================== *)

Section SuccessFacts.

Import sdktrace sqliteexporter store.

Variable emitOther : attribute.Value -> string.
Variable floatText : Z -> string.
Variable bytesText : string -> string.

Local Abbreviation pcommonMapAsJSON := (sqliteexporter.pcommonMapAsJSON floatText bytesText).
Local Abbreviation ConsumeTraces := (sqliteexporter.ConsumeTraces floatText bytesText).
Local Abbreviation insertTraces := (sqliteexporter.insertTraces floatText bytesText).
Local Abbreviation ExportSpans := (sqliteexporter.ExportSpans floatText bytesText emitOther).
Local Abbreviation Spans := (transform.Spans emitOther).
Local Abbreviation step := (transform.step emitOther).
Local Abbreviation loop := (transform.loop emitOther).
Local Abbreviation marshals := (store.marshals floatText bytesText).
Local Abbreviation marshalsSpan := (store.marshalsSpan floatText bytesText).
Local Abbreviation marshalsScope := (store.marshalsScope floatText bytesText).
Local Abbreviation marshalsResource := (store.marshalsResource floatText bytesText).
Local Abbreviation binds := (store.binds floatText bytesText).

Lemma runs_ret {A} (a : A) : runs [] (ret a).
Proof. intros tx _ _. exists tx, a. split; [reflexivity | symmetry; apply app_nil_r]. Qed.

Lemma runs_bind {A B} ks1 ks2 (m : M A) (k : A -> M B) :
  runs ks1 m -> (forall a, runs ks2 (k a)) -> runs (ks1 ++ ks2) (bind m k).
Proof.
  intros Hm Hk tx Hnd Hfresh. apply NoDup_app in Hnd as (Hn1 & Hdis & Hn2).
  destruct (Hm tx Hn1) as (tx1 & a & E1 & K1).
  { intros k0 Hk0. apply Hfresh, elem_of_app. auto. }
  destruct (Hk a tx1 Hn2) as (tx2 & b & E2 & K2).
  { intros k0 Hk0. rewrite K1. intros Hin. apply elem_of_app in Hin as [Hin|Hin].
    - revert Hin. apply Hfresh, elem_of_app. auto.
    - exact (Hdis k0 Hin Hk0). }
  exists tx2, b. split.
  - unfold bind. rewrite E1. exact E2.
  - rewrite K2, K1. symmetry. apply app_assoc.
Qed.

Lemma runs_try_bind {A B} ks e (o : option A) (k : A -> M B) :
  is_Some o -> (forall a, o = Some a -> runs ks (k a)) -> runs ks (bind (try e o) k).
Proof. intros [a ->] Hk tx Hnd Hfresh. exact (Hk a eq_refl tx Hnd Hfresh). Qed.

Lemma runs_prepare prepares q e : prepares q = true -> runs [] (PrepareContext prepares q e).
Proof.
  intros Hp tx _ _. exists tx, tt. unfold PrepareContext. rewrite Hp.
  split; [reflexivity | symmetry; apply app_nil_r].
Qed.

Lemma runs_execSpan row e :
  sql.refusedSpan row = false -> runs [key row] (ExecContext sql.execSpan row e).
Proof.
  intros Hjson tx _ Hfresh. unfold ExecContext, sql.execSpan. rewrite Hjson.
  destruct (existsb (sql.sameKey row) (sql.spans tx)) eqn:E.
  - exfalso. apply existsb_exists in E as (r & Hr & Hk).
    apply (Hfresh (key row)); [apply list_elem_of_here|].
    apply list_elem_of_fmap. exists r. split; [apply sameKey_key, Hk | apply list_elem_of_In, Hr].
  - eexists _, tt. split; [reflexivity|]. cbn [sql.spans]. rewrite fmap_app. reflexivity.
Qed.

Lemma runs_execEvent row e :
  sql.looksLikeJSONB (events.attributes row) = false ->
  runs [] (ExecContext sql.execEvent row e).
Proof.
  intros Hjson tx _ _. unfold ExecContext, sql.execEvent. rewrite Hjson.
  eexists _, tt. split; [reflexivity|]. cbn. symmetry. apply app_nil_r.
Qed.

Lemma runs_execLink row e :
  sql.looksLikeJSONB (links.attributes row) = false ->
  runs [] (ExecContext sql.execLink row e).
Proof.
  intros Hjson tx _ _. unfold ExecContext, sql.execLink. rewrite Hjson.
  eexists _, tt. split; [reflexivity|]. cbn. symmetry. apply app_nil_r.
Qed.

Lemma runs_forEach {A} (f : A -> list (list Byte.byte * list Byte.byte))
    (l : list A) (body : A -> M unit) :
  (forall x, x ∈ l -> runs (f x) (body x)) -> runs (concat (f <$> l)) (forEach l body).
Proof.
  induction l as [|x l IH]; intros Hbody.
  - apply runs_ret.
  - rewrite fmap_cons. cbn [concat forEach]. apply runs_bind.
    + apply Hbody, list_elem_of_here.
    + intros _. apply IH. intros y Hy. apply Hbody, list_elem_of_further, Hy.
Qed.

Lemma runs_eq {A} ks ks' (m : M A) : ks = ks' -> runs ks m -> runs ks' m.
Proof. intros <-. exact id. Qed.

Lemma runs_forEach_nil {A} (l : list A) (body : A -> M unit) :
  (forall x, x ∈ l -> runs [] (body x)) -> runs [] (forEach l body).
Proof.
  intros H. eapply runs_eq; [apply (concat_fmap_nil l)|].
  apply (runs_forEach (fun _ => [])), H.
Qed.

Lemma runs_forEach_singleton {A} g (l : list A) (body : A -> M unit) :
  (forall x, x ∈ l -> runs [g x] (body x)) -> runs (g <$> l) (forEach l body).
Proof.
  intros H. eapply runs_eq; [apply (concat_fmap_singleton g l)|].
  apply (runs_forEach (fun x => [g x])), H.
Qed.

Lemma spanKeys_nested (traces : ptrace.Traces) :
  concat ((fun resource =>
             concat ((fun scope => spanKey <$> ptrace.Spans scope)
                       <$> ptrace.ScopeSpansSlice resource)) <$> traces) =
  spanKey <$> batch.spanNodes traces.
Proof.
  unfold batch.spanNodes, batch.scopeNodes, batch.scopeLists.
  induction traces as [|resource traces IH]; [reflexivity|].
  rewrite !fmap_cons. cbn [concat]. rewrite !fmap_app, concat_app, fmap_app, IH. f_equal.
  induction (ptrace.ScopeSpansSlice resource) as [|scope l IHl]; [reflexivity|].
  rewrite !fmap_cons. cbn [concat]. rewrite fmap_app, IHl. reflexivity.
Qed.

Lemma plain_marshals (m : pcommon.Map) :
  store.plain floatText bytesText m -> is_Some (pcommonMapAsJSON m).
Proof. intros [Hflat _]. apply MarshalMap_flat, Hflat. Qed.

Lemma runs_insertTraces prepares (traces : ptrace.Traces) :
  (forall q, prepares q = true) -> binds traces ->
  runs (spanKey <$> batch.spanNodes traces) (insertTraces prepares traces).
Proof.
  intros Hp Hm. rewrite <- spanKeys_nested. unfold store.binds in Hm.
  rewrite Forall_forall in Hm.
  apply runs_forEach. intros resource Hres. destruct (Hm _ Hres) as [Hr Hscopes].
  rewrite Forall_forall in Hscopes.
  apply runs_try_bind; [exact (plain_marshals _ Hr) | intros rattrs Hrattrs].
  apply runs_forEach. intros scope Hscope. destruct (Hscopes _ Hscope) as [Hs Hspans].
  rewrite Forall_forall in Hspans.
  apply runs_try_bind; [exact (plain_marshals _ Hs) | intros sattrs Hsattrs].
  apply runs_forEach_singleton. intros span Hsp.
  destruct (Hspans _ Hsp) as (Ha & Hev & Hln).
  rewrite Forall_forall in Hev. rewrite Forall_forall in Hln.
  apply (runs_bind [] _); [apply runs_prepare, Hp | intros _].
  apply runs_try_bind; [exact (plain_marshals _ Ha) | intros attrs Hattrs].
  eapply runs_eq; [apply app_nil_r|]. apply runs_bind; [|intros _].
  { match goal with
    | |- runs _ (ExecContext _ ?row _) => refine (runs_execSpan row _ _)
    end.
    unfold sql.refusedSpan.
    cbn [spanRow spans.attributes spans.resource_attributes
         spans.instrumentation_library_attributes].
    rewrite (proj2 Ha _ Hattrs), (proj2 Hr _ Hrattrs), (proj2 Hs _ Hsattrs). reflexivity. }
  apply (runs_bind [] []).
  - apply runs_forEach_nil. intros event Hevent.
    apply runs_try_bind; [exact (plain_marshals _ (Hev _ Hevent)) | intros eattrs Heattrs].
    apply (runs_bind [] []); [apply runs_prepare, Hp | intros _].
    apply runs_execEvent. exact (proj2 (Hev _ Hevent) _ Heattrs).
  - intros _. apply runs_forEach_nil. intros link Hlink.
    apply runs_try_bind; [exact (plain_marshals _ (Hln _ Hlink)) | intros lattrs Hlattrs].
    apply (runs_bind [] []); [apply runs_prepare, Hp | intros _].
    apply runs_execLink. exact (proj2 (Hln _ Hlink) _ Hlattrs).
Qed.

Lemma ConsumeTraces_runs db (traces : ptrace.Traces) :
  sql.closed db = false ->
  (sql.maxOpen db = 0 \/ sql.inUse db + 2 <= sql.maxOpen db)%nat ->
  (forall q, sql.prepares db q = true) ->
  binds traces ->
  NoDup (spanKey <$> batch.spanNodes traces) ->
  (forall span, span ∈ batch.spanNodes traces ->
     spanKey span ∉ key <$> sql.spans (sql.tables db)) ->
  (ConsumeTraces db traces).1 = Return None.
Proof.
  intros Hc Hpool Hp Hm Hnd Hfresh.
  unfold sqliteexporter.ConsumeTraces, sql.Begin, sql.BeginTx. rewrite Hc.
  assert ((0 <? sql.maxOpen db)%nat && (sql.maxOpen db <=? sql.inUse db)%nat = false) as ->.
  { apply andb_false_iff. destruct Hpool as [H|H];
      [left; apply Nat.ltb_ge | right; apply Nat.leb_gt]; lia. }
  cbn [sql.closed sql.maxOpen sql.inUse sql.tables sql.prepares].
  assert ((0 <? sql.maxOpen db)%nat && (sql.maxOpen db <=? S (sql.inUse db))%nat = false) as ->.
  { apply andb_false_iff. destruct Hpool as [H|H];
      [left; apply Nat.ltb_ge | right; apply Nat.leb_gt]; lia. }
  destruct (runs_insertTraces (sql.prepares db) traces Hp Hm (sql.tables db) Hnd)
    as (tx' & [] & E & _).
  { intros k Hk. apply list_elem_of_fmap in Hk as (span & -> & Hsp). exact (Hfresh span Hsp). }
  rewrite E. reflexivity.
Qed.


Lemma step_resource_attrs (Q : pcommon.Map -> Prop) st s st' :
  Q [] -> Q (transform.transformAttributes (Resource s)) ->
  Forall (fun rs => Q (ptrace.ResourceAttributes (ptrace.Res rs))) (transform.rss st) ->
  step st s = Returned st' ->
  Forall (fun rs => Q (ptrace.ResourceAttributes (ptrace.Res rs))) (transform.rss st').
Proof.
  unfold transform.step. intros Hnil Hs Hall H.
  assert (Hnew : Forall (fun rs => Q (ptrace.ResourceAttributes (ptrace.Res rs)))
                        (transform.rss st ++ [ptrace.emptyResourceSpans])).
  { apply Forall_app. split; [assumption | repeat constructor; exact Hnil]. }
  destruct (transform.resMap st !! _); destruct (transform.scopeMap st !! _);
    destruct (transform.statusCode _); try discriminate; injection H as <-;
    cbn [transform.rss];
    repeat (apply Forall_alter; [|intros x _ Hx; exact Hx || exact Hs]);
    assumption.
Qed.

Lemma loop_resource_attrs (Q : pcommon.Map -> Prop) sdl : forall st st',
  Q [] -> Forall (fun s => Q (transform.transformAttributes (Resource s))) sdl ->
  Forall (fun rs => Q (ptrace.ResourceAttributes (ptrace.Res rs))) (transform.rss st) ->
  loop st sdl = Returned st' ->
  Forall (fun rs => Q (ptrace.ResourceAttributes (ptrace.Res rs))) (transform.rss st').
Proof.
  induction sdl as [|s sdl IH]; intros st st' Hnil Hs Hall Hloop; simpl in Hloop.
  - injection Hloop as <-. assumption.
  - destruct (step st s) as [st1|] eqn:Hstep; [|discriminate].
    apply Forall_cons in Hs as [Hs1 Hs].
    eapply IH; [exact Hnil | exact Hs | | exact Hloop].
    eapply step_resource_attrs; eassumption.
Qed.

Lemma elem_of_scopeNodes (traces : ptrace.Traces) resource scope :
  resource ∈ traces -> scope ∈ ptrace.ScopeSpansSlice resource ->
  scope ∈ batch.scopeNodes traces.
Proof.
  intros Hres Hscope. unfold batch.scopeNodes, batch.scopeLists. apply elem_of_concat.
  exists (ptrace.ScopeSpansSlice resource). split; [|exact Hscope].
  apply list_elem_of_fmap. eauto.
Qed.

Lemma Spans_marshals (sdl : list ReadOnlySpan) (b : ptrace.Traces) :
  Forall attrs.finiteSpan sdl -> Spans sdl = Returned b -> marshals b.
Proof.
  intros Hfin Hb.
  assert (Forall (fun rs => is_Some (pcommonMapAsJSON
                                       (ptrace.ResourceAttributes (ptrace.Res rs)))) b) as Hres.
  { revert Hb. unfold transform.Spans.
    destruct (loop transform.initState sdl) as [st|] eqn:Hloop; [|discriminate].
    intros H. injection H as <-.
    eapply (loop_resource_attrs (fun m => is_Some (pcommonMapAsJSON m)));
      [| | |exact Hloop].
    - eexists. vm_compute. reflexivity.
    - eapply Forall_impl; [exact Hfin|]. intros raw (Hr & _).
      apply transformAttributes_marshal, Hr.
    - constructor. }
  pose proof (Spans_scopes_unset emitOther _ _ Hb) as Hunset.
  rewrite Forall_forall in Hres. rewrite Forall_forall in Hunset.
  rewrite Forall_forall in Hfin.
  apply Forall_forall. intros resource Hresource. split; [exact (Hres _ Hresource)|].
  apply Forall_forall. intros scope Hscope. split.
  - rewrite (Hunset scope (elem_of_scopeNodes _ _ _ Hresource Hscope)).
    eexists. vm_compute. reflexivity.
  - apply Forall_forall. intros span Hspan.
    destruct (Spans_spans_filled emitOther _ _ _ Hb
                (spanNodes_elem _ _ _ _ Hresource Hscope Hspan))
      as (raw & Hraw & code & _ & ->).
    destruct (Hfin _ Hraw) as (_ & Ha & He & Hl).
    split; [|split]; cbn [transform.fillSpan ptrace.Attributes ptrace.Events ptrace.Links].
    + apply transformAttributes_marshal, Ha.
    + apply Forall_map. eapply Forall_impl; [exact He|]. intros e Hfe.
      apply transformAttributes_marshal, Hfe.
    + apply Forall_map. eapply Forall_impl; [exact Hl|]. intros l Hfl.
      apply transformAttributes_marshal, Hfl.
Qed.

Lemma transformed_plain l :
  attrs.allFinite l -> store.textual floatText bytesText l ->
  store.plain floatText bytesText (transform.transformAttributes l).
Proof. intros Hf Ht. split; [apply transformAttributes_flat, Hf | exact Ht]. Qed.

Lemma empty_plain : store.plain floatText bytesText [].
Proof.
  split; [constructor|]. intros text H. vm_compute in H. injection H as <-. reflexivity.
Qed.

Lemma Spans_binds (sdl : list ReadOnlySpan) (b : ptrace.Traces) :
  Forall attrs.finiteSpan sdl -> Forall (store.textualSpan floatText bytesText) sdl ->
  Spans sdl = Returned b -> binds b.
Proof.
  intros Hfin Htext Hb.
  assert (Forall (fun rs => store.plain floatText bytesText
                              (ptrace.ResourceAttributes (ptrace.Res rs))) b) as Hres.
  { revert Hb. unfold transform.Spans.
    destruct (loop transform.initState sdl) as [st|] eqn:Hloop; [|discriminate].
    intros H. injection H as <-.
    apply (loop_resource_attrs (store.plain floatText bytesText) sdl transform.initState st);
      [exact empty_plain | | constructor | exact Hloop].
    apply Forall_forall. intros raw Hraw.
    rewrite Forall_forall in Hfin. rewrite Forall_forall in Htext.
    apply transformed_plain; [apply (Hfin raw Hraw) | apply (Htext raw Hraw)]. }
  pose proof (Spans_scopes_unset emitOther _ _ Hb) as Hunset.
  rewrite Forall_forall in Hres. rewrite Forall_forall in Hunset.
  rewrite Forall_forall in Hfin. rewrite Forall_forall in Htext.
  apply Forall_forall. intros resource Hresource. split; [exact (Hres _ Hresource)|].
  apply Forall_forall. intros scope Hscope. split.
  - rewrite (Hunset scope (elem_of_scopeNodes _ _ _ Hresource Hscope)). exact empty_plain.
  - apply Forall_forall. intros span Hspan.
    destruct (Spans_spans_filled emitOther _ _ _ Hb
                (spanNodes_elem _ _ _ _ Hresource Hscope Hspan))
      as (raw & Hraw & code & _ & ->).
    destruct (Hfin _ Hraw) as (_ & Ha & He & Hl).
    destruct (Htext _ Hraw) as (_ & Ta & Te & Tl).
    rewrite Forall_forall in He. rewrite Forall_forall in Hl.
    rewrite Forall_forall in Te. rewrite Forall_forall in Tl.
    split; [|split]; cbn [transform.fillSpan ptrace.Attributes ptrace.Events ptrace.Links].
    + apply transformed_plain; assumption.
    + apply Forall_map, Forall_forall. intros e Hin.
      apply transformed_plain; [apply (He e Hin) | apply (Te e Hin)].
    + apply Forall_map, Forall_forall. intros l Hin.
      apply transformed_plain; [apply (Hl l Hin) | apply (Tl l Hin)].
Qed.

Lemma Spans_keys (sdl : list ReadOnlySpan) (b : ptrace.Traces) :
  Spans sdl = Returned b ->
  spanKey <$> batch.spanNodes b ≡ₚ attrs.rawKey <$> sdl.
Proof.
  intros Hb. destruct (Spans_spans_perm emitOther _ _ Hb) as (sps & Hsps & Hperm).
  rewrite Hperm. clear Hperm Hb.
  assert (spanKey <$> sps = attrs.rawKey <$> sdl) as ->; [|reflexivity].
  induction Hsps as [|raw sp sdl sps Hf _ IH]; [reflexivity|].
  destruct Hf as (code & _ & ->). rewrite !fmap_cons, IH. reflexivity.
Qed.

Lemma refuses_ret {A} (a : A) : refuses [] (ret a).
Proof. intros tx. exists a. reflexivity. Qed.

Lemma refuses_bind {A B} ks1 ks2 (m : M A) (k : A -> M B) :
  refuses ks1 m -> (forall a, refuses ks2 (k a)) -> refuses (ks1 ++ ks2) (bind m k).
Proof.
  intros Hm Hk tx. specialize (Hm tx). destruct ks1 as [|k1 ks1]; cbn [app].
  - destruct Hm as [a E]. specialize (Hk a tx). unfold bind. rewrite E. exact Hk.
  - intros Hin. unfold bind. rewrite (Hm Hin). reflexivity.
Qed.

Lemma refuses_try_bind {A B} ks e (o : option A) (k : A -> M B) :
  is_Some o -> (forall a, refuses ks (k a)) -> refuses ks (bind (try e o) k).
Proof. intros [a ->] Hk tx. exact (Hk a tx). Qed.

Lemma refuses_prepare prepares q e :
  prepares q = true -> refuses [] (PrepareContext prepares q e).
Proof. intros Hp tx. exists tt. unfold PrepareContext. rewrite Hp. reflexivity. Qed.

Lemma refuses_forEach {A} (f : A -> list (list Byte.byte * list Byte.byte))
    (l : list A) (body : A -> M unit) :
  (forall x, x ∈ l -> refuses (f x) (body x)) -> refuses (concat (f <$> l)) (forEach l body).
Proof.
  induction l as [|x l IH]; intros Hbody.
  - apply refuses_ret.
  - rewrite fmap_cons. cbn [concat forEach]. apply refuses_bind.
    + apply Hbody, list_elem_of_here.
    + intros _. apply IH. intros y Hy. apply Hbody, list_elem_of_further, Hy.
Qed.

Lemma refuses_eq {A} ks ks' (m : M A) : ks = ks' -> refuses ks m -> refuses ks' m.
Proof. intros <-. exact id. Qed.

Lemma refuses_insertSpan prepares svc rattrs resource sattrs scope span :
  prepares sql.insertSpanQ = true ->
  is_Some (pcommonMapAsJSON (ptrace.Attributes span)) ->
  refuses [spanKey span]
    (sqliteexporter.insertSpan floatText bytesText prepares svc rattrs resource sattrs
       scope span).
Proof.
  intros Hp [attrs Ha] tx Hin. unfold sqliteexporter.insertSpan, bind, PrepareContext, try.
  rewrite Hp, Ha. unfold ExecContext, sql.execSpan.
  destruct (sql.refusedSpan _); [reflexivity|].
  assert (existsb (sql.sameKey (spanRow svc rattrs resource sattrs scope attrs span))
                  (sql.spans tx) = true) as ->; [|reflexivity].
  apply list_elem_of_fmap in Hin as (r & Hk & Hr).
  apply existsb_exists. exists r. split; [apply list_elem_of_In, Hr|].
  apply sameKey_key. rewrite <- Hk. reflexivity.
Qed.

Lemma refuses_insertTraces prepares (traces : ptrace.Traces) :
  (forall q, prepares q = true) -> marshals traces ->
  refuses (spanKey <$> batch.spanNodes traces) (insertTraces prepares traces).
Proof.
  intros Hp Hm. rewrite <- spanKeys_nested. unfold store.marshals in Hm.
  rewrite Forall_forall in Hm.
  apply refuses_forEach. intros resource Hres. destruct (Hm _ Hres) as [Hr Hscopes].
  rewrite Forall_forall in Hscopes.
  apply refuses_try_bind; [exact Hr | intros rattrs].
  apply refuses_forEach. intros scope Hscope. destruct (Hscopes _ Hscope) as [Hs Hspans].
  rewrite Forall_forall in Hspans.
  apply refuses_try_bind; [exact Hs | intros sattrs].
  eapply refuses_eq; [apply concat_fmap_singleton|].
  apply (refuses_forEach (fun span => [spanKey span])). intros span Hsp.
  destruct (Hspans _ Hsp) as (Ha & _). apply refuses_insertSpan; [apply Hp | exact Ha].
Qed.

Lemma ConsumeTraces_handle db (traces : ptrace.Traces) :
  sql.closed (ConsumeTraces db traces).2 = sql.closed db /\
  sql.maxOpen (ConsumeTraces db traces).2 = sql.maxOpen db /\
  sql.prepares (ConsumeTraces db traces).2 = sql.prepares db.
Proof.
  unfold sqliteexporter.ConsumeTraces, sql.Begin, sql.BeginTx.
  destruct (sql.closed db) eqn:Hc; [auto|].
  destruct ((0 <? sql.maxOpen db)%nat && (sql.maxOpen db <=? sql.inUse db)%nat);
    [auto|].
  cbn [sql.closed sql.maxOpen sql.inUse sql.tables sql.prepares].
  destruct ((0 <? sql.maxOpen db)%nat && (sql.maxOpen db <=? S (sql.inUse db))%nat);
    [cbn; auto|].
  destruct (sqliteexporter.insertTraces _ _ _ _ _) as [tx' r]. cbn. auto.
Qed.

Lemma ConsumeTraces_refuses db (traces : ptrace.Traces) span rest :
  sql.closed db = false ->
  (sql.maxOpen db = 0 \/ sql.inUse db + 2 <= sql.maxOpen db)%nat ->
  (forall q, sql.prepares db q = true) ->
  marshals traces ->
  batch.spanNodes traces = span :: rest ->
  spanKey span ∈ key <$> sql.spans (sql.tables db) ->
  (ConsumeTraces db traces).1 = Return (Some ErrInsertSpan) /\
  sql.tables (ConsumeTraces db traces).2 = sql.tables db.
Proof.
  intros Hc Hpool Hp Hm Hnodes Hin.
  pose proof (refuses_insertTraces (sql.prepares db) traces Hp Hm (sql.tables db)) as H.
  rewrite Hnodes, fmap_cons in H. specialize (H Hin).
  unfold sqliteexporter.ConsumeTraces, sql.Begin, sql.BeginTx. rewrite Hc.
  assert ((0 <? sql.maxOpen db)%nat && (sql.maxOpen db <=? sql.inUse db)%nat = false) as ->.
  { apply andb_false_iff. destruct Hpool as [H0|H0];
      [left; apply Nat.ltb_ge | right; apply Nat.leb_gt]; lia. }
  cbn [sql.closed sql.maxOpen sql.inUse sql.tables sql.prepares].
  assert ((0 <? sql.maxOpen db)%nat && (sql.maxOpen db <=? S (sql.inUse db))%nat = false) as ->.
  { apply andb_false_iff. destruct Hpool as [H0|H0];
      [left; apply Nat.ltb_ge | right; apply Nat.leb_gt]; lia. }
  rewrite H. split; reflexivity.
Qed.

(** X25 (a batch that starts with a stored span). On an open handle
    with room in its pool and a schema that compiles the inserts, for a
    batch whose attribute maps can be written as JSON and whose first
    Span node has the (span_id, trace_id) of a row that spans holds,
    ConsumeTraces returns the error error occured while inserting span
    and leaves the three tables as they were. *)
Theorem ConsumeTraces_refuses_stored_span db (traces : ptrace.Traces) span rest :
  sql.closed db = false ->
  (sql.maxOpen db = 0 \/ sql.inUse db + 2 <= sql.maxOpen db)%nat ->
  (forall q, sql.prepares db q = true) ->
  marshals traces ->
  batch.spanNodes traces = span :: rest ->
  spanKey span ∈ key <$> sql.spans (sql.tables db) ->
  (ConsumeTraces db traces).1 = Return (Some ErrInsertSpan) /\
  sql.tables (ConsumeTraces db traces).2 = sql.tables db.
Proof. exact (ConsumeTraces_refuses db traces span rest). Qed.


(** X14 (after Shutdown). On a handle that Shutdown has closed, no call
    writes anything: ConsumeTraces returns the error failed to start
    transaction and leaves the handle as it was, and so does ExportSpans
    for raw spans whose status codes are Unset, Ok or Error (for any
    other status code it still panics, since the spans are normalized
    before the transaction is begun). *)
Theorem calls_after_Shutdown db (traces : ptrace.Traces) (sdl : list ReadOnlySpan) :
  Forall (fun raw => transform.knownCode (Code (SpanStatus raw))) sdl ->
  ConsumeTraces (Shutdown db) traces = (Return (Some ErrBeginTx), Shutdown db) /\
  ExportSpans (Shutdown db) sdl = Returned (Return (Some ErrBeginTx), Shutdown db).
Proof.
  intros Hcodes. split; [reflexivity|].
  destruct (proj2 (loop_returns emitOther sdl transform.initState) Hcodes) as [st Hloop].
  unfold sqliteexporter.ExportSpans, transform.Spans. rewrite Hloop. reflexivity.
Qed.


End SuccessFacts.

(* ===================================================================== *)
(** * The time and identifier columns of the stored rows                   *)
(* ===================================================================== *)

Section StoredRowFacts.

Import sqliteexporter store.

Variable floatText : Z -> string.
Variable bytesText : string -> string.

Local Abbreviation ConsumeTraces := (sqliteexporter.ConsumeTraces floatText bytesText).
Local Abbreviation rowOf := (sqliteexporter.rowOf floatText bytesText).

Lemma rowOf_microseconds traces resource scope span row :
  rowOf traces resource scope span row -> microseconds span row.
Proof.
  intros (_ & _ & _ & rattrs & sattrs & attrs & _ & _ & _ & ->).
  unfold microseconds. cbn [spanRow spans.start_time spans.end_time spans.__duration].
  unfold unixMicro, Microseconds, pcommon.AsTime.
  repeat split.
  - rewrite !int64_small by lia. apply Z.quot_div_nonneg; lia.
  - rewrite !int64_small by lia. apply Z.quot_div_nonneg; lia.
  - rewrite !int64_small, Sub_exact by lia. reflexivity.
  - intros H0 -> H1. rewrite !int64_small, Sub_exact by lia.
    replace (ptrace.StartTimestamp span + 5000000 - ptrace.StartTimestamp span)
      with 5000000 by lia.
    reflexivity.
Qed.

Lemma rowOf_identifiers traces resource scope span row :
  rowOf traces resource scope span row -> identifiers span row.
Proof.
  intros (_ & _ & _ & rattrs & sattrs & attrs & _ & _ & _ & ->).
  unfold identifiers. cbn [spanRow spans.span_id spans.trace_id spans.parent_span_id].
  repeat split.
  - intros Hz. apply IsEmpty_true in Hz. rewrite Hz. reflexivity.
  - intros Hnz. rewrite (IsEmpty_false _ Hnz). reflexivity.
Qed.

(** What [ConsumeTraces] stores in [spans], for a property [P] of the
    row of a span: every row it adds, whatever it returns, is the row of
    a span of the batch and has [P]; and when it returns nil, [spans]
    has gained exactly one row for each span of the batch, in the order
    of the loops, and the row of each span has [P]. *)
Lemma ConsumeTraces_stores (P : ptrace.Span -> spans.Row -> Prop) db traces out db' :
  (forall resource scope span row, rowOf traces resource scope span row -> P span row) ->
  ConsumeTraces db traces = (out, db') ->
  grows (fun row => exists resource scope span,
           rowOf traces resource scope span row /\ P span row)
        (sql.tables db) (sql.tables db') /\
  (out = Return None ->
   exists new,
     sql.spans (sql.tables db') = sql.spans (sql.tables db) ++ new /\
     Forall2 (fun x row => P x.2 row) (spanTriples traces) new).
Proof.
  intros HP H. split.
  - destruct (ConsumeTraces_rows _ _ _ _ _ _ H) as (new & Hnew & Hall).
    exists new. split; [exact Hnew|].
    eapply Forall_impl; [exact Hall|].
    intros row (resource & scope & span & Hrow).
    exists resource, scope, span. split; [exact Hrow | eapply HP, Hrow].
  - intros ->.
    destruct (emits_ConsumeTraces floatText bytesText _ _ db traces _
                (emits_spans floatText bytesText _ traces)) as (new & E & F).
    { rewrite H. reflexivity. }
    rewrite H in E. exists new. split; [exact E|].
    eapply Forall2_impl; [exact F|]. intros [[resource scope] span] row Hrow.
    eapply HP, Hrow.
Qed.


(** C8. Every row that [ConsumeTraces] adds to [spans], whatever it
    returns, is the row of a span of the batch: its [span_id] and
    [trace_id] are the span's identifiers, byte for byte; its
    [parent_span_id] is NULL when every byte of the span's parent
    identifier is zero, and is the parent identifier, byte for byte,
    when some byte is not zero. When the call returns nil, [spans] has
    gained exactly one such row for each span of the batch, in the
    order of the loops: every span of the batch is stored with these
    columns. *)
Theorem C8_parent_span_id_sentinel db traces out db' :
  ConsumeTraces db traces = (out, db') ->
  grows (fun row => exists resource scope span,
           rowOf traces resource scope span row /\ identifiers span row)
        (sql.tables db) (sql.tables db') /\
  (out = Return None ->
   exists new,
     sql.spans (sql.tables db') = sql.spans (sql.tables db) ++ new /\
     Forall2 (fun x row => identifiers x.2 row) (spanTriples traces) new).
Proof.
  apply (ConsumeTraces_stores identifiers).
  intros resource scope span row. apply rowOf_identifiers.
Qed.

End StoredRowFacts.

(* ===================================================================== *)
(** * The order of the spans inside a Scope node                           *)
(* ===================================================================== *)

Section OrderFacts.

Import sdktrace transform batch.

Variable emitOther : attribute.Value -> string.

Local Abbreviation step := (transform.step emitOther).
Local Abbreviation loop := (transform.loop emitOther).
Local Abbreviation Spans := (transform.Spans emitOther).

(** Every Scope node of the tree holds spans that satisfy [P]. *)
Local Abbreviation everyScope P t :=
  (Forall (fun rs => Forall (fun scope => P (ptrace.Spans scope))
                            (ptrace.ScopeSpansSlice rs)) t).

Lemma Forall_alter_to {A} (P P' : A -> Prop) (f : A -> A) i (l : list A) :
  Forall P l -> (forall x, P x -> P' x) -> (forall x, P x -> P' (f x)) ->
  Forall P' (alter f i l).
Proof.
  intros Hl Hkeep Hf. apply Forall_lookup. intros j y Hy.
  rewrite Forall_lookup in Hl. destruct (decide (i = j)) as [->|Hne].
  - rewrite list_lookup_alter_eq in Hy.
    destruct (l !! j) as [x|] eqn:Hx; [|discriminate]. injection Hy as <-.
    apply Hf, (Hl j x Hx).
  - rewrite list_lookup_alter_ne in Hy by exact Hne. apply Hkeep, (Hl j y Hy).
Qed.

Lemma step_scope_spans (P P' : list ptrace.Span -> Prop) st s st' :
  P [] -> (forall l, P l -> P' l) ->
  (forall l code, statusCode (Code (SpanStatus s)) = Some code ->
                  P l -> P' (l ++ [fillSpan s code])) ->
  everyScope P (rss st) -> step st s = Returned st' -> everyScope P' (rss st').
Proof.
  intros Hnil Hkeep Hadd Hall H. unfold transform.step in H.
  assert (Hnew : everyScope P (rss st ++ [ptrace.emptyResourceSpans])).
  { apply Forall_app. split; [exact Hall | repeat constructor]. }
  assert (Hscope : forall i t, everyScope P t -> everyScope P (alter appendScope i t)).
  { intros i t Ht. apply Forall_alter; [exact Ht|]. intros rs _ Hrs.
    cbn [appendScope ptrace.ScopeSpansSlice]. apply Forall_app.
    split; [exact Hrs | repeat constructor; exact Hnil]. }
  assert (Hres : forall ra i t, everyScope P t -> everyScope P (alter (setResource ra) i t)).
  { intros ra i t Ht. apply Forall_alter; [exact Ht|]. intros rs _ Hrs. exact Hrs. }
  assert (Hspan : forall code, statusCode (Code (SpanStatus s)) = Some code ->
            forall i j t, everyScope P t ->
              everyScope P' (alter (atScope (appendSpan (fillSpan s code)) j) i t)).
  { intros code Hcode i j t Ht.
    apply (Forall_alter_to
             (fun rs => Forall (fun scope => P (ptrace.Spans scope)) (ptrace.ScopeSpansSlice rs))
             (fun rs => Forall (fun scope => P' (ptrace.Spans scope)) (ptrace.ScopeSpansSlice rs)));
      [exact Ht | |].
    - intros rs Hrs. eapply Forall_impl; [exact Hrs|]. intros scope. apply Hkeep.
    - intros rs Hrs. cbn [atScope ptrace.ScopeSpansSlice].
      apply (Forall_alter_to (fun scope => P (ptrace.Spans scope))
                             (fun scope => P' (ptrace.Spans scope))); [exact Hrs | |].
      + intros scope. apply Hkeep.
      + intros scope Hsc. cbn [appendSpan ptrace.Spans]. apply Hadd; assumption. }
  destruct (resMap st !! _) as [r|]; destruct (scopeMap st !! _) as [h|];
    destruct (statusCode _) as [code|] eqn:Hcode; try discriminate;
    injection H as <-; cbn [rss fst snd]; apply (Hspan code eq_refl); auto.
Qed.

(** The spans filled so far, in arrival order, contain the spans of
    every Scope node as a subsequence. *)
Lemma loop_order sdl : forall st st' done,
  everyScope (fun l => l `sublist_of` done) (rss st) ->
  loop st sdl = Returned st' ->
  exists sps, Forall2 filled sdl sps /\
    everyScope (fun l => l `sublist_of` done ++ sps) (rss st').
Proof.
  induction sdl as [|s sdl IH]; intros st st' done Hall Hloop; simpl in Hloop.
  - injection Hloop as <-. exists []. split; [constructor|]. rewrite app_nil_r. exact Hall.
  - destruct (step st s) as [st1|] eqn:Hstep; [|discriminate].
    destruct (statusCode (Code (SpanStatus s))) as [code|] eqn:Hcode.
    2:{ unfold transform.step in Hstep. rewrite Hcode in Hstep.
        destruct (resMap st !! _); destruct (scopeMap st !! _); discriminate. }
    assert (everyScope (fun l => l `sublist_of` done ++ [fillSpan s code]) (rss st1)) as H1.
    { apply (step_scope_spans (fun l => l `sublist_of` done)
                              (fun l => l `sublist_of` done ++ [fillSpan s code]) st s st1);
        [| | |exact Hall|exact Hstep].
      - apply sublist_nil_l.
      - intros l Hl. apply sublist_inserts_r, Hl.
      - intros l code' Hc Hl. rewrite Hcode in Hc. injection Hc as <-.
        apply sublist_app; [exact Hl | reflexivity]. }
    destruct (IH st1 st' _ H1 Hloop) as (sps & Hsps & Hall').
    exists (fillSpan s code :: sps). split.
    + constructor; [exists code; auto | exact Hsps].
    + rewrite <- (assoc_L (++)) in Hall'. exact Hall'.
Qed.

(** X24 (arrival order inside a Scope node). In the batch that Spans
    returns, the Span nodes of every Scope node are in the order in
    which their raw spans arrived: the span list of each Scope node is a
    subsequence of the list of the span nodes filled from the raw spans,
    taken in input order. *)
Theorem Spans_keeps_arrival_order (sdl : list ReadOnlySpan) (b : ptrace.Traces) :
  Spans sdl = Returned b ->
  exists sps, Forall2 filled sdl sps /\
    forall scope, scope ∈ scopeNodes b -> ptrace.Spans scope `sublist_of` sps.
Proof.
  unfold transform.Spans. intros H.
  destruct (loop initState sdl) as [st|] eqn:Hloop; [|discriminate].
  injection H as <-.
  destruct (loop_order sdl initState st [] (Forall_nil_2 _) Hloop) as (sps & Hsps & Hall).
  exists sps. split; [exact Hsps|]. intros scope Hscope.
  unfold scopeNodes, scopeLists in Hscope.
  apply elem_of_concat in Hscope as (l & Hl & Hscope).
  apply list_elem_of_fmap in Hl as (rs & -> & Hrs).
  rewrite Forall_forall in Hall. specialize (Hall rs Hrs).
  rewrite Forall_forall in Hall. exact (Hall scope Hscope).
Qed.

Lemma step_resource_nodes (Q : pcommon.Map -> Prop) st s st' :
  Q (transformAttributes (Resource s)) ->
  (forall h r, resMap st !! h = Some r -> (r < length (rss st))%nat) ->
  Forall (fun rs => Q (ptrace.ResourceAttributes (ptrace.Res rs))) (rss st) ->
  step st s = Returned st' ->
  Forall (fun rs => Q (ptrace.ResourceAttributes (ptrace.Res rs))) (rss st').
Proof.
  unfold transform.step. intros Hs Hvalid Hall H.
  assert (Hnew : Forall (fun rs => Q (ptrace.ResourceAttributes (ptrace.Res rs)))
                   (alter (setResource (transformAttributes (Resource s))) (length (rss st))
                          (rss st ++ [ptrace.emptyResourceSpans]))).
  { replace (length (rss st)) with (length (rss st) + 0)%nat by lia.
    rewrite alter_app_r. apply Forall_app. split; [exact Hall|]. repeat constructor. exact Hs. }
  destruct (resMap st !! _); destruct (scopeMap st !! _);
    destruct (statusCode _); try discriminate; injection H as <-; cbn [rss];
    repeat first [ exact Hnew | exact Hall
                 | apply Forall_alter; [|intros x _ Hx; exact Hx || exact Hs] ].
Qed.

Lemma loop_resource_nodes (Q : pcommon.Map -> Prop) sdl : forall st st',
  Forall (fun s => Q (transformAttributes (Resource s))) sdl ->
  handlesValid st ->
  Forall (fun rs => Q (ptrace.ResourceAttributes (ptrace.Res rs))) (rss st) ->
  loop st sdl = Returned st' ->
  Forall (fun rs => Q (ptrace.ResourceAttributes (ptrace.Res rs))) (rss st').
Proof.
  induction sdl as [|s sdl IH]; intros st st' Hs Hv Hall Hloop; simpl in Hloop.
  - injection Hloop as <-. assumption.
  - destruct (step st s) as [st1|] eqn:Hstep; [|discriminate].
    apply Forall_cons in Hs as [Hs1 Hs].
    apply (IH st1 st' Hs); [eapply step_valid; eassumption | | exact Hloop].
    eapply step_resource_nodes; [exact Hs1 | apply Hv | exact Hall | exact Hstep].
Qed.

(** X27 (the attributes of a Resource node). In the batch that Spans
    returns, every Resource node carries the transformed resource
    attributes of one of the raw spans: no Resource node is left as
    AppendEmpty created it. *)
Theorem Spans_resource_nodes_from_raw_spans (sdl : list ReadOnlySpan) (b : ptrace.Traces) :
  Spans sdl = Returned b ->
  forall rs, rs ∈ b ->
    exists raw, raw ∈ sdl /\
      ptrace.ResourceAttributes (ptrace.Res rs) = transformAttributes (Resource raw).
Proof.
  unfold transform.Spans. intros H.
  destruct (loop initState sdl) as [st|] eqn:Hloop; [|discriminate].
  injection H as <-. apply Forall_forall.
  apply (loop_resource_nodes
           (fun m => exists raw, raw ∈ sdl /\ m = transformAttributes (Resource raw))
           sdl initState st); [|apply initState_valid|constructor|exact Hloop].
  apply Forall_forall. intros raw Hraw. exists raw. auto.
Qed.

End OrderFacts.

(* ===================================================================== *)
(** * Concrete instances of the properties above                           *)
(* ===================================================================== *)

(** Decides, on closed inputs, that attribute maps are accepted by the
    inserts. *)
Ltac accepted :=
  repeat (cbv beta;
          match goal with
          | |- store.plain _ _ _ =>
              split; [ repeat first [exact I | reflexivity | constructor]
                     | let H := fresh in
                       intros ? H; vm_compute in H; injection H as <-;
                       vm_compute; reflexivity ]
          | |- store.textual _ _ _ =>
              let H := fresh in
              intros ? H; vm_compute in H; injection H as <-; vm_compute; reflexivity
          | |- _ => first [split | constructor]
          end).

Lemma transformAttributes_keeps_order_witness :
  let from := sdktrace.Attributes tests.stub in
  NoDup (omap attrs.entry from).*1 /\
  transform.transformAttributes from = omap attrs.entry from.
Proof.
  intros from.
  assert (NoDup (omap attrs.entry from).*1) as Hnd.
  { vm_compute. repeat (apply NoDup_cons; split; [set_solver|]). apply NoDup_nil_2. }
  split; [exact Hnd | exact (transformAttributes_keeps_order from Hnd)].
Defined.

Lemma Spans_keeps_every_span_witness :
  let sdl := [sample.rawSpan Byte.x01 sample.serviceA codes.Unset;
              sample.rawSpan Byte.x02 sample.serviceB codes.Ok;
              sample.rawSpan Byte.x03 sample.serviceA codes.Error] in
  exists b,
    transform.Spans sample.emitOther sdl = Returned b /\
    (exists sps, Forall2 batch.filled sdl sps /\ batch.spanNodes b ≡ₚ sps) /\
    length (batch.spanNodes b) = length sdl.
Proof.
  intros sdl. eexists. split; [vm_compute; reflexivity|].
  apply (Spans_keeps_every_span sample.emitOther sdl). vm_compute. reflexivity.
Defined.

Lemma Spans_one_scope_node_per_scope_fingerprint_witness :
  let sdl := [sample.rawSpan Byte.x01 sample.serviceA codes.Unset;
              sample.rawSpan Byte.x02 sample.serviceB codes.Ok] in
  exists b,
    transform.Spans sample.emitOther sdl = Returned b /\
    length (batch.scopeNodes b) =
    size (list_to_set ((fun s => transform.hashScope (sdktrace.InstrumentationScope s))
                         <$> sdl) : gset Z).
Proof.
  intros sdl. eexists. split; [vm_compute; reflexivity|].
  apply (Spans_one_scope_node_per_scope_fingerprint sample.emitOther sdl).
  vm_compute. reflexivity.
Defined.



Lemma ConsumeTraces_keeps_keys_unique_witness :
  let db := (sqliteexporter.ConsumeTraces sample.floatText sample.bytesText
               (sample.db 0) tests.testTrace).2 in
  let traces := sample.batch [sample.span Byte.x01 Byte.x00; sample.span Byte.x01 Byte.x00] in
  store.uniqueKeys (sql.tables db) /\
  store.uniqueKeys
    (sql.tables (sqliteexporter.ConsumeTraces sample.floatText sample.bytesText db traces).2).
Proof.
  intros db traces.
  assert (store.uniqueKeys (sql.tables db)) as Hu.
  { vm_compute. apply NoDup_cons. split.
    - intros H. apply list_elem_of_singleton in H. discriminate H.
    - apply NoDup_singleton. }
  split; [exact Hu|].
  exact (ConsumeTraces_keeps_keys_unique sample.floatText sample.bytesText db traces Hu).
Defined.

Lemma ConsumeTraces_success_distinct_ids_witness :
  let db := sample.db 0 in
  let traces := tests.testTrace in
  (sqliteexporter.ConsumeTraces sample.floatText sample.bytesText db traces).1 =
    sqliteexporter.Return None /\
  NoDup (store.spanKey <$> batch.spanNodes traces) /\
  forall span, span ∈ batch.spanNodes traces ->
    store.spanKey span ∉ store.key <$> sql.spans (sql.tables db).
Proof.
  intros db traces. split; [vm_compute; reflexivity|].
  apply (ConsumeTraces_success_distinct_ids sample.floatText sample.bytesText db traces).
  vm_compute. reflexivity.
Defined.

Lemma ConsumeTraces_waits_at_pool_ceiling_witness :
  let db := store.SetMaxOpenConns 1 (sample.db 0) in
  let traces := tests.testTrace in
  sql.closed db = false /\
  (0 < sql.maxOpen db <= sql.inUse db + 1)%nat /\
  (sqliteexporter.ConsumeTraces sample.floatText sample.bytesText db traces).1 =
    sqliteexporter.Waits /\
  sql.tables (sqliteexporter.ConsumeTraces sample.floatText sample.bytesText db traces).2 =
    sql.tables db.
Proof.
  intros db traces.
  assert (sql.closed db = false) as Hc by reflexivity.
  assert (0 < sql.maxOpen db <= sql.inUse db + 1)%nat as Hm by (cbn; lia).
  split; [exact Hc|]. split; [exact Hm|].
  exact (ConsumeTraces_waits_at_pool_ceiling sample.floatText sample.bytesText
           db traces Hc Hm).
Defined.

Lemma ConsumeTraces_keeps_a_connection_witness :
  let db := sample.db 0 in
  let traces := sample.batch [sample.span Byte.x01 Byte.x00; sample.span Byte.x01 Byte.x00] in
  sql.closed db = false /\
  (sqliteexporter.ConsumeTraces sample.floatText sample.bytesText db traces).1 =
    sqliteexporter.Return (Some sqliteexporter.ErrInsertSpan) /\
  sql.inUse (sqliteexporter.ConsumeTraces sample.floatText sample.bytesText db traces).2 =
    S (sql.inUse db).
Proof.
  intros db traces.
  assert (sql.closed db = false) as Hc by reflexivity.
  assert ((sqliteexporter.ConsumeTraces sample.floatText sample.bytesText db traces).1 =
            sqliteexporter.Return (Some sqliteexporter.ErrInsertSpan)) as Hr
    by (vm_compute; reflexivity).
  split; [exact Hc|]. split; [exact Hr|].
  exact (ConsumeTraces_keeps_a_connection sample.floatText sample.bytesText
           db traces _ Hc Hr).
Defined.

Lemma ExportSpans_drops_scope_identity_witness :
  let sdl := [tests.stub] in
  exists r,
    sqliteexporter.ExportSpans sample.floatText sample.bytesText sample.emitOther
      (sample.db 0) sdl = Returned r /\
    sqliteexporter.grows
      (fun row =>
         spans.instrumentation_library_name row = EmptyString /\
         spans.instrumentation_library_version row = EmptyString /\
         spans.instrumentation_library_attributes row = "{}")
      (sql.tables (sample.db 0)) (sql.tables r.2).
Proof.
  intros sdl. eexists. split; [vm_compute; reflexivity|].
  apply (ExportSpans_drops_scope_identity sample.emitOther sample.floatText sample.bytesText
           (sample.db 0) sdl).
  vm_compute. reflexivity.
Defined.


Lemma ExportSpans_success_row_counts_witness :
  let sdl := [tests.stub] in
  exists r,
    sqliteexporter.ExportSpans sample.floatText sample.bytesText sample.emitOther
      (sample.db 0) sdl = Returned r /\
    r.1 = sqliteexporter.Return None /\
    length (sql.spans (sql.tables r.2)) =
      (length (sql.spans (sql.tables (sample.db 0))) + length sdl)%nat /\
    length (sql.events (sql.tables r.2)) =
      (length (sql.events (sql.tables (sample.db 0))) +
       sum_list_with (fun raw => length (sdktrace.Events raw)) sdl)%nat /\
    length (sql.links (sql.tables r.2)) =
      (length (sql.links (sql.tables (sample.db 0))) +
       sum_list_with (fun raw => length (sdktrace.Links raw)) sdl)%nat.
Proof.
  intros sdl. eexists. split; [vm_compute; reflexivity|].
  split; [vm_compute; reflexivity|].
  apply (ExportSpans_success_row_counts sample.emitOther sample.floatText sample.bytesText
           (sample.db 0) sdl).
  - vm_compute. reflexivity.
  - vm_compute. reflexivity.
Defined.

Lemma stored_duration_within_one_microsecond_witness :
  let span := tests.span1 in
  let traces := tests.testTrace in
  exists resource scope row,
    sqliteexporter.rowOf sample.floatText sample.bytesText traces resource scope span row /\
    0 <= ptrace.StartTimestamp span <= ptrace.EndTimestamp span /\
    ptrace.EndTimestamp span < 2 ^ 63 /\
    spans.start_time row <= spans.end_time row /\
    spans.__duration row <= spans.end_time row - spans.start_time row <=
      spans.__duration row + 1.
Proof.
  intros span traces. eexists _, _, _.
  assert (0 <= ptrace.StartTimestamp span <= ptrace.EndTimestamp span) as Hse
    by (vm_compute; split; discriminate).
  assert (ptrace.EndTimestamp span < 2 ^ 63) as He by (vm_compute; reflexivity).
  refine ((fun Hrow => conj Hrow (conj Hse (conj He
            (stored_duration_within_one_microsecond sample.floatText sample.bytesText
               traces _ _ span _ Hrow Hse He)))) _).
  unfold traces, tests.testTrace.
  split; [apply list_elem_of_here|]. cbn [ptrace.ScopeSpansSlice].
  split; [apply list_elem_of_here|]. cbn [ptrace.Spans].
  split; [apply list_elem_of_here|].
  eexists _, _, _. split; [vm_compute; reflexivity|].
  split; [vm_compute; reflexivity|]. split; [vm_compute; reflexivity|]. reflexivity.
Defined.

Lemma hashScope_of_concatenation_witness :
  let s1 := {| instrumentation.Name := "otel";
               instrumentation.Version := "1";
               instrumentation.SchemaURL := "http" |} in
  let s2 := {| instrumentation.Name := "otelhttp";
               instrumentation.Version := "1";
               instrumentation.SchemaURL := EmptyString |} in
  instrumentation.Name s1 +:+ instrumentation.SchemaURL s1 +:+ instrumentation.Version s1 =
  instrumentation.Name s2 +:+ instrumentation.SchemaURL s2 +:+ instrumentation.Version s2 /\
  transform.hashScope s1 = transform.hashScope s2.
Proof.
  intros s1 s2.
  assert (instrumentation.Name s1 +:+ instrumentation.SchemaURL s1 +:+
            instrumentation.Version s1 =
          instrumentation.Name s2 +:+ instrumentation.SchemaURL s2 +:+
            instrumentation.Version s2) as H by reflexivity.
  split; [exact H | exact (hashScope_of_concatenation s1 s2 H)].
Defined.

Lemma finite_attributes_marshal_witness :
  let from := sdktrace.Attributes tests.stub in
  Forall (fun a => attrs.finite (attribute.Val a)) from /\
  exists text,
    sqliteexporter.pcommonMapAsJSON sample.floatText sample.bytesText
      (transform.transformAttributes from) = Some text.
Proof.
  intros from.
  assert (Forall (fun a => attrs.finite (attribute.Val a)) from) as H.
  { repeat first [exact I | reflexivity | constructor]. }
  split; [exact H|].
  exact (finite_attributes_marshal sample.floatText sample.bytesText from H).
Defined.



Lemma Spans_keeps_arrival_order_witness :
  let sdl := [sample.rawSpan Byte.x01 sample.serviceA codes.Unset;
              sample.rawSpan Byte.x02 sample.serviceB codes.Ok;
              sample.rawSpan Byte.x03 sample.serviceA codes.Error] in
  exists b,
    transform.Spans sample.emitOther sdl = Returned b /\
    exists sps, Forall2 batch.filled sdl sps /\
      forall scope, scope ∈ batch.scopeNodes b -> ptrace.Spans scope `sublist_of` sps.
Proof.
  intros sdl. eexists. split; [vm_compute; reflexivity|].
  apply (Spans_keeps_arrival_order sample.emitOther sdl). vm_compute. reflexivity.
Defined.

Lemma ConsumeTraces_refuses_stored_span_witness :
  let db := (sqliteexporter.ConsumeTraces sample.floatText sample.bytesText
               (sample.db 0) tests.testTrace).2 in
  let traces := tests.testTrace in
  sql.closed db = false /\
  (sql.maxOpen db = 0 \/ sql.inUse db + 2 <= sql.maxOpen db)%nat /\
  (forall q, sql.prepares db q = true) /\
  store.marshals sample.floatText sample.bytesText traces /\
  batch.spanNodes traces = [tests.span1; tests.span2] /\
  store.spanKey tests.span1 ∈ store.key <$> sql.spans (sql.tables db) /\
  (sqliteexporter.ConsumeTraces sample.floatText sample.bytesText db traces).1 =
    sqliteexporter.Return (Some sqliteexporter.ErrInsertSpan) /\
  sql.tables (sqliteexporter.ConsumeTraces sample.floatText sample.bytesText db traces).2 =
    sql.tables db.
Proof.
  intros db traces.
  assert (sql.closed db = false) as Hc by (vm_compute; reflexivity).
  assert (sql.maxOpen db = 0 \/ sql.inUse db + 2 <= sql.maxOpen db)%nat as Hpool
    by (left; vm_compute; reflexivity).
  assert (forall q, sql.prepares db q = true) as Hp by (intros q; vm_compute; reflexivity).
  assert (store.marshals sample.floatText sample.bytesText traces) as Hm.
  { repeat first [ split | constructor | (eexists; vm_compute; reflexivity) ]. }
  assert (batch.spanNodes traces = [tests.span1; tests.span2]) as Hnodes by reflexivity.
  assert (store.spanKey tests.span1 ∈ store.key <$> sql.spans (sql.tables db)) as Hin.
  { vm_compute. constructor. }
  repeat (split; [assumption|]).
  exact (ConsumeTraces_refuses_stored_span sample.floatText sample.bytesText db traces
           tests.span1 [tests.span2] Hc Hpool Hp Hm Hnodes Hin).
Defined.


Lemma Spans_resource_nodes_from_raw_spans_witness :
  let sdl := [sample.rawSpan Byte.x01 sample.serviceA codes.Unset;
              sample.rawSpan Byte.x02 sample.serviceB codes.Ok] in
  exists b rs,
    transform.Spans sample.emitOther sdl = Returned b /\
    rs ∈ b /\
    exists raw, raw ∈ sdl /\
      ptrace.ResourceAttributes (ptrace.Res rs) =
      transform.transformAttributes (sdktrace.Resource raw).
Proof.
  intros sdl.
  refine ((fun b rs (Hb : transform.Spans sample.emitOther sdl = Returned b) (Hrs : rs ∈ b) =>
             ex_intro _ b (ex_intro _ rs (conj Hb (conj Hrs
               (Spans_resource_nodes_from_raw_spans sample.emitOther sdl b Hb rs Hrs)))))
            _ _ _ _).
  - vm_compute. reflexivity.
  - apply list_elem_of_here.
Defined.


Lemma calls_after_Shutdown_witness :
  let db := (sqliteexporter.ConsumeTraces sample.floatText sample.bytesText
               (sample.db 0) tests.testTrace).2 in
  let sdl := [tests.stub] in
  Forall (fun raw => transform.knownCode (sdktrace.Code (sdktrace.SpanStatus raw))) sdl /\
  sqliteexporter.ConsumeTraces sample.floatText sample.bytesText
    (store.Shutdown db) tests.testTrace =
    (sqliteexporter.Return (Some sqliteexporter.ErrBeginTx), store.Shutdown db) /\
  sqliteexporter.ExportSpans sample.floatText sample.bytesText sample.emitOther
    (store.Shutdown db) sdl =
    Returned (sqliteexporter.Return (Some sqliteexporter.ErrBeginTx), store.Shutdown db).
Proof.
  intros db sdl.
  assert (Forall (fun raw => transform.knownCode (sdktrace.Code (sdktrace.SpanStatus raw)))
                 sdl) as Hcodes.
  { repeat constructor; right; left; reflexivity. }
  split; [exact Hcodes|].
  exact (calls_after_Shutdown sample.emitOther sample.floatText sample.bytesText
           db tests.testTrace sdl Hcodes).
Defined.



Lemma C8_witness :
  let db := sample.db 0 in
  let traces := sample.batch [sample.span Byte.x01 Byte.x00;
                              sample.span Byte.x02 Byte.x01] in
  exists out db',
    sqliteexporter.ConsumeTraces sample.floatText sample.bytesText db traces = (out, db') /\
    out = sqliteexporter.Return None /\
    (exists row1 row2,
       sql.spans (sql.tables db') = [row1; row2] /\
       spans.span_id row1 = sample.spanID Byte.x01 /\
       spans.trace_id row1 = sample.traceID /\
       spans.parent_span_id row1 = None /\
       spans.span_id row2 = sample.spanID Byte.x02 /\
       spans.trace_id row2 = sample.traceID /\
       spans.parent_span_id row2 = Some (sample.spanID Byte.x01)) /\
    sqliteexporter.grows
      (fun row => exists resource scope span,
         sqliteexporter.rowOf sample.floatText sample.bytesText
           traces resource scope span row /\ store.identifiers span row)
      (sql.tables db) (sql.tables db') /\
    exists new,
      sql.spans (sql.tables db') = sql.spans (sql.tables db) ++ new /\
      Forall2 (fun x row => store.identifiers x.2 row) (store.spanTriples traces) new.
Proof.
  intros db traces.
  pose (r := sqliteexporter.ConsumeTraces sample.floatText sample.bytesText db traces).
  assert (sqliteexporter.ConsumeTraces sample.floatText sample.bytesText db traces =
            (r.1, r.2)) as Hrun by (unfold r; apply surjective_pairing).
  assert (r.1 = sqliteexporter.Return None) as Hnone by (vm_compute; reflexivity).
  exists r.1, r.2. split; [exact Hrun|]. split; [exact Hnone|].
  split; [eexists _, _; split; [vm_compute; reflexivity|]; repeat split|].
  destruct (C8_parent_span_id_sentinel sample.floatText sample.bytesText db traces _ _ Hrun)
    as [Hrows Hnil].
  split; [exact Hrows | exact (Hnil Hnone)].
Defined.

(** A JSON text of 8 bytes is taken for JSONB: the resource attributes
    with the key [k] and the empty string as value are written as a text
    of 8 bytes, the span insert fails, and nothing is stored. *)
Example ExportSpans_text_of_8_bytes :
  let resource := [sample.attr "k" (attribute.STRING EmptyString)] in
  let sdl := [sample.rawSpan Byte.x01 resource codes.Unset] in
  (String.length <$>
     sqliteexporter.pcommonMapAsJSON sample.floatText sample.bytesText
       (transform.transformAttributes resource)) = Some 8%nat /\
  exists db',
    sqliteexporter.ExportSpans sample.floatText sample.bytesText sample.emitOther
      (sample.db 0) sdl =
      Returned (sqliteexporter.Return (Some sqliteexporter.ErrInsertSpan), db') /\
    sql.tables db' = sample.noTables.
Proof.
  intros resource sdl. split; [vm_compute; reflexivity|].
  eexists. split; vm_compute; reflexivity.
Qed.
